(** * Thornbury Picture House showtimes monitor: the diff engine, the
    normaliser, the window fetcher, the session primer and the run.

    The development embeds the JavaScript sources shallowly.  A plain JS
    object used as a dictionary (title -> array of ISO strings) is a
    [gmap string (list string)], which holds the properties of the object
    itself.  The loops of the two fetchers, which store titles that come
    from the server, read [map[movie]] through [Object.prototype] as
    JavaScript does: a title such as "constructor" makes them throw.  A
    schedule that a fetcher returns therefore has no such title
    ([fetched_schedule_clean]), and the diff engine and the filter, which
    only see fetched schedules and caches written from them, read the
    properties of the object itself.  [Object.entries] enumerates in the
    order of [map_to_list] (no statement below depends on the enumeration
    order).  A string is a
    sequence of code units below 256.  [new Date(s).getTime()] is a parameter
    [getTime] returning [None] where JavaScript yields [NaN]; the [Intl]
    renderings are parameters as well, and the clock is one reading per run. *)

From Stdlib Require Import ZArith Ascii.
From stdpp Require Import gmap strings list sorting pretty.

Local Open Scope Z_scope.

Abbreviation Schedule := (gmap string (list string)).

(** ** JavaScript strings and arrays *)

Module Js.
(** [WhiteSpace] and [LineTerminator] code units below 256. *)
Definition isWhiteSpace (c : ascii) : bool :=
  Ascii.is_space c || bool_decide (c = "160"%char).

Fixpoint trimStart (s : string) : string :=
  match s with
  | "" => ""
  | String c s' => if isWhiteSpace c then trimStart s' else s
  end.

Fixpoint trimEnd (s : string) : string :=
  match s with
  | "" => ""
  | String c s' =>
      let r := trimEnd s' in
      if isWhiteSpace c && bool_decide (r = "") then "" else String c r
  end.

(** [s.trim()] *)
Definition trim (s : string) : string := trimEnd (trimStart s).

(** [s.split(sep)] for a one-character separator: never empty. *)
Fixpoint split (sep : ascii) (s : string) : list string :=
  match s with
  | "" => [""]
  | String c s' =>
      if bool_decide (c = sep) then "" :: split sep s'
      else match split sep s' with
           | piece :: pieces => String c piece :: pieces
           | [] => [String c ""]
           end
  end.

(** [pieces.join(sep)] *)
Definition join (sep : string) (pieces : list string) : string :=
  String.concat sep pieces.

(** Truthiness of a string: only the empty string is falsy. *)
Definition truthy (s : string) : bool := bool_decide (s ≠ "").

(** The names under which [Object.prototype] has a member, a function or
    an object each: [obj[k]] finds that member when [obj], made by [{}], has
    no property [k] of its own. *)
Definition ObjectPrototype : list string :=
  ["constructor"; "__defineGetter__"; "__defineSetter__"; "hasOwnProperty";
   "__lookupGetter__"; "__lookupSetter__"; "isPrototypeOf";
   "propertyIsEnumerable"; "toString"; "valueOf"; "__proto__";
   "toLocaleString"].

Definition inherited (k : string) : bool := bool_decide (k ∈ ObjectPrototype).

(** Truthiness of [obj[k]] for an object made by [{}] whose own properties
    are arrays: an array is truthy, and so is a member of
    [Object.prototype]. *)
Definition truthyAt {V} (obj : gmap string V) (k : string) : bool :=
  bool_decide (is_Some (obj !! k)) || inherited k.

(** [for (const x of xs) body], for a body that may throw: the loop ends
    at the first iteration that throws, which is [None]. *)
Fixpoint forOf {A B} (body : A → B → option A) (acc : A) (xs : list B)
    : option A :=
  match xs with
  | [] => Some acc
  | x :: xs' =>
      match body acc x with
      | Some acc' => forOf body acc' xs'
      | None => None
      end
  end.

(** [new Set(arr)] followed by [Array.from]: first occurrences, in order. *)
Definition Set_from (arr : list string) : list string :=
  foldl (λ set x, if bool_decide (x ∈ set) then set else set ++ [x]) [] arr.

(** [Array.prototype.sort]: [negative x y] says that the comparison of [x]
    with [y] is below zero.  The sort is stable; it is written here as the
    insertion of each element behind the elements it does not precede,
    which is the array every engine returns when the comparison is
    consistent on the elements.  Where it is not (a comparison that gives
    [NaN] on some pairs and an order on others) the language leaves the
    order to the engine, and the array below is then one permutation among
    those an engine may return: the statements of this development rely on
    the order only where the comparison is consistent, and otherwise on
    the elements alone. *)
Fixpoint insert {A} (negative : A → A → bool) (x : A) (sorted : list A) : list A :=
  match sorted with
  | [] => [x]
  | y :: sorted' =>
      if negative x y then x :: y :: sorted'
      else y :: insert negative x sorted'
  end.

Definition sort {A} (negative : A → A → bool) (arr : list A) : list A :=
  foldl (λ sorted x, insert negative x sorted) [] arr.

(** The default comparison of [sort()]: by code units. *)
Definition defaultNegative (x y : string) : bool := String.ltb x y.

(** [Map.prototype.set] on an insertion-ordered [Map]. *)
Fixpoint Map_set (k v : string) (m : list (string * string)) : list (string * string) :=
  match m with
  | [] => [(k, v)]
  | (k', v') :: m' =>
      if bool_decide (k' = k) then (k, v) :: m' else (k', v') :: Map_set k v m'
  end.

Definition newline : string := String "010"%char "".
End Js.

(** ** The world a run acts on *)

(** One entry of [showingsForDate.data]: [s?.movie?.name] and [s?.time]. *)
Record Showing := mkShowing {
  movie_name : option string;
  time : option string
}.

(** What the monitor reads of a response body: [data?.error?.message],
    [data?.errors] and [data?.data?.showingsForDate?.data]. *)
Record Body := mkBody {
  error_message : option string;
  errors : option (list string);
  showings : option (list Showing)
}.

Record Response := mkResponse {
  status : Z;
  set_cookie : option (list string);
  data : Body
}.

(** The outcome of one request: the transport fails or a response arrives. *)
Inductive Reply :=
  | NetworkError
  | Answer (resp : Response).

(** The three fields the webhook expects. *)
Record Payload := mkPayload {
  value1 : string;
  value2 : string;
  value3 : string
}.

Inductive Request :=
  | Get (url cookie : string)
  | PostGraphQL (cookie : string) (date : option string)
  | PostWebhook (url : string) (message : Payload).

(** [replies] are the outcomes of the requests to come, in order; [sent]
    logs the requests made, oldest first; [cache] is what [loadCache]
    returns ([None] is [null]); [clock] is the time read. *)
Record World := mkWorld {
  replies : list Reply;
  sent : list Request;
  cache : option Schedule;
  IFTTT_WEBHOOK_URL : option string;
  clock : Z
}.

Inductive Error :=
  | TransportError
  | BadStatus (status : Z)
  | GraphQL403 (ymd : string)
  | GraphQLHttp (status : Z) (ymd : string)
  | GraphQLError (ymd message : string)
  | GraphQLErrors (ymd : string) (errors : list string)
  | GraphQLBlocked
  | GraphQLStatus (status : Z)
  | GraphQLErrorList (errors : list string)
  | WebhookUrlNotSet
  | TypeError.

(** A computation returns, throws, or ends the process with a code. *)
Inductive Result (A : Type) :=
  | Ok (a : A)
  | Throw (e : Error)
  | Exit (code : Z).
Arguments Ok {A} a.
Arguments Throw {A} e.
Arguments Exit {A} code.

Definition M (A : Type) : Type := World → Result A * World.

Definition ret {A} (a : A) : M A := λ w, (Ok a, w).
Definition throw {A} (e : Error) : M A := λ w, (Throw e, w).
Definition exit {A} (code : Z) : M A := λ w, (Exit code, w).

Definition bind {A B} (m : M A) (k : A → M B) : M B :=
  λ w, match m w with
       | (Ok a, w') => k a w'
       | (Throw e, w') => (Throw e, w')
       | (Exit c, w') => (Exit c, w')
       end.

Definition try_catch {A} (m : M A) (handler : Error → M A) : M A :=
  λ w, match m w with
       | (Throw e, w') => handler e w'
       | r => r
       end.

Notation "'let*' x := m 'in' k" := (bind m (λ x, k))
  (at level 10, x name, m at level 100, k at level 200).
Notation "'let*' ' p := m 'in' k" := (bind m (λ p, k))
  (at level 10, p strict pattern, m at level 100, k at level 200).
Notation "m ;; k" := (bind m (λ _, k))
  (at level 100, k at level 200, right associativity).

(** The world once the requests [reqs] were made and answered. *)
Definition after (reqs : list Request) (w : World) : World :=
  {| replies := drop (length reqs) (replies w);
     sent := sent w ++ reqs;
     cache := cache w;
     IFTTT_WEBHOOK_URL := IFTTT_WEBHOOK_URL w;
     clock := clock w |}.

(** An [axios] call: the request is logged and the next reply consumed; no
    reply left is a timeout.  The call rejects on a transport failure and on
    a status [validateStatus] refuses. *)
Definition axios (validateStatus : Z → bool) (req : Request) : M Response :=
  λ w,
    match head (replies w) with
    | None | Some NetworkError => (Throw TransportError, after [req] w)
    | Some (Answer resp) =>
        if validateStatus (status resp) then (Ok resp, after [req] w)
        else (Throw (BadStatus (status resp)), after [req] w)
    end.

(** The default [validateStatus] of [axios]. *)
Definition successStatus (s : Z) : bool :=
  bool_decide (200 ≤ s) && bool_decide (s < 300).

Definition getEnv_IFTTT_WEBHOOK_URL : M (option string) :=
  λ w, (Ok (IFTTT_WEBHOOK_URL w), w).

Definition loadCache : M (option Schedule) := λ w, (Ok (cache w), w).

Definition saveCache (data : Schedule) : M unit :=
  λ w, (Ok (), {| replies := replies w; sent := sent w; cache := Some data;
                  IFTTT_WEBHOOK_URL := IFTTT_WEBHOOK_URL w; clock := clock w |}).

Definition now : M Z := λ w, (Ok (clock w), w).

(** The top of each script: [main().catch(e => process.exit(1))]. *)
Definition runMain (main : M unit) (w : World) : Z * World :=
  match main w with
  | (Ok _, w') => (0, w')
  | (Throw _, w') => (1, w')
  | (Exit c, w') => (c, w')
  end.

Definition BASE : string := "https://www.thornburypicturehouse.com.au".
Definition GRAPHQL_URL : string := BASE +:+ "/graphql".

(** ** The rolling-month monitor *)

(** The script that primes the session with two pages ([primeCookies]),
    queries a window of 31 days ([getAllShowtimesRollingMonth]) and drops
    past showtimes before it compares ([filterPastShowtimes]). *)
Module RollingMonth.

Definition HOME_URL : string := BASE +:+ "/".
Definition NOW_SHOWING_URL : string := BASE +:+ "/now-showing/".
Definition DAYS_AHEAD : nat := 30.

(** *** Session priming *)

(** [const [k, ...rest] = kv.trim().split("="); if (!k) ...; (k, rest.join("="))] *)
Definition keyValue (kv : string) : option (string * string) :=
  match Js.split "=" (Js.trim kv) with
  | k :: rest => if Js.truthy k then Some (k, Js.join "=" rest) else None
  | [] => None
  end.

Definition mergeSetCookies (existingCookieHeader : string)
    (setCookieArray : option (list string)) : string :=
  let existing : list (string * string) := [] in
  let existing :=
    if Js.truthy existingCookieHeader then
      foldl (λ existing kv,
               match keyValue kv with
               | Some (k, v) => Js.Map_set k v existing
               | None => existing
               end)
            existing (Js.split ";" existingCookieHeader)
    else existing in
  let existing :=
    foldl (λ existing c,
             let kv := hd "" (Js.split ";" c) in
             match keyValue kv with
             | Some (k, v) => Js.Map_set k v existing
             | None => existing
             end)
          existing (default [] setCookieArray) in
  Js.join "; " ((λ '(k, v), k +:+ "=" +:+ v) <$> existing).

Definition primeCookies : M string :=
  let cookies := "" in
  let* homeResp := axios (λ _, true) (Get HOME_URL "") in
  let cookies := mergeSetCookies cookies (set_cookie homeResp) in
  let* nowResp := axios (λ _, true) (Get NOW_SHOWING_URL cookies) in
  let cookies := mergeSetCookies cookies (set_cookie nowResp) in
  ret cookies.

(** *** The window fetcher and the normaliser *)

Definition addDays (dateObj : Z) (days : Z) : Z := dateObj + days * 86400000.

Definition fetchShowingsForDate (cookieHeader ymd : string) : M (list Showing) :=
  let* resp := axios (λ _, true) (PostGraphQL cookieHeader (Some ymd)) in
  if bool_decide (status resp = 403) then throw (GraphQL403 ymd)
  else if bool_decide (status resp < 200) || bool_decide (300 ≤ status resp)
  then throw (GraphQLHttp (status resp) ymd)
  else
    let message := default "" (error_message (data resp)) in
    if Js.truthy message then throw (GraphQLError ymd message)
    else
      let errors := default [] (errors (data resp)) in
      if bool_decide (0 < length errors)%nat then throw (GraphQLErrors ymd errors)
      else ret (default [] (showings (data resp))).

(** The body of [for (const s of showings)].  [map[movie]] reads the
    property of [map] or else the member [Object.prototype] has under that
    name: for a title such as "constructor" the test [!map[movie]] is false,
    no array is stored, and [map[movie].push] is not a function.  [None] is
    the [TypeError] of that call. *)
Definition collect (map : gmap string (list string)) (s : Showing)
    : option (gmap string (list string)) :=
  match Js.trim <$> movie_name s, time s with
  | Some movie, Some iso =>
      if Js.truthy movie && Js.truthy iso
      then
        let map := if negb (Js.truthyAt map movie) then <[movie := []]> map
                   else map in
        match map !! movie with
        | Some arr => Some (<[movie := arr ++ [iso]]> map)
        | None => None
        end
      else Some map
  | _, _ => Some map
  end.

Section fetch.
(** [new Date(iso).getTime()]; [None] is [NaN]. *)
Variable getTime : string → option Z.
(** The calendar day of an instant in Melbourne, as [YYYY-MM-DD]. *)
Variable toYMD : Z → string.

(** [(a, b) => new Date(a).getTime() - new Date(b).getTime()]; [None] is
    [NaN], which [sort] takes for zero. *)
Definition byTime (a b : string) : option Z :=
  match getTime a, getTime b with
  | Some ta, Some tb => Some (ta - tb)
  | _, _ => None
  end.

Definition negative (v : option Z) : bool :=
  match v with
  | Some z => bool_decide (z < 0)
  | None => false
  end.

(** The loop [for (let i = 0; i <= DAYS_AHEAD; i++)], by the number of
    iterations that remain. *)
Fixpoint fetchWindow (cookieHeader : string) (remaining : nat) (cursor : Z)
    (map : gmap string (list string)) : M (gmap string (list string)) :=
  match remaining with
  | O => ret map
  | S remaining' =>
      let ymd := toYMD cursor in
      let* showings := fetchShowingsForDate cookieHeader ymd in
      match Js.forOf collect map showings with
      | None => throw TypeError
      | Some map =>
          let cursor := addDays cursor 1 in
          fetchWindow cookieHeader remaining' cursor map
      end
  end.

(** [for (const movie of Object.keys(map)) map[movie] = ...] *)
Definition dedupeAndSort (map : gmap string (list string))
    : gmap string (list string) :=
  foldl (λ map movie,
           <[movie := Js.sort (λ a b, negative (byTime a b))
                        (Js.Set_from (default [] (map !! movie)))]> map)
        map (map_to_list map).*1.

Definition getAllShowtimesRollingMonth : M (gmap string (list string)) :=
  let* cookieHeader := primeCookies in
  let map : gmap string (list string) := ∅ in
  let* cursor := now in
  let* map := fetchWindow cookieHeader (S DAYS_AHEAD) cursor map in
  ret (dedupeAndSort map).
End fetch.

(** *** The diff engine *)

(** The fields of the object [detectChanges] returns; a field the object
    does not carry is [None]. *)
Record Changes := mkChanges {
  changed : bool;
  isInitial : bool;
  message : option string;
  added : option (gmap string (list string));
  removed : option (gmap string (list string))
}.

(** [Object.values(data).reduce((sum, arr) => sum + arr.length, 0)] *)
Definition countShowtimes (data : gmap string (list string)) : nat :=
  foldl (λ sum arr, (sum + length arr)%nat) 0%nat (map_to_list data).*2.

Definition initialMessage (movieCount showtimeCount : nat) : string :=
  "Initial check: " +:+ pretty movieCount +:+ " movies with "
    +:+ pretty showtimeCount +:+ " showtimes found".

Section diff.
Variable getTime : string → option Z.

Definition isPastShowtime (now : Z) (isoString : string) : bool :=
  match getTime isoString with
  | None => false
  | Some t => bool_decide (t < now)
  end.

Definition filterPastShowtimes (now : Z) (showtimeMap : gmap string (list string))
    : gmap string (list string) :=
  foldl (λ filtered '(movie, times),
           let futureTimes := filter (λ t, isPastShowtime now t = false) times in
           if bool_decide (0 < length futureTimes)%nat
           then <[movie := futureTimes]> filtered
           else filtered)
        ∅ (map_to_list showtimeMap).

Definition detectChanges (now : Z) (oldData : option (gmap string (list string)))
    (newData : gmap string (list string)) : Changes :=
  match oldData with
  | None =>
      let movieCount := size newData in
      let showtimeCount := countShowtimes newData in
      {| changed := true; isInitial := true;
         message := Some (initialMessage movieCount showtimeCount);
         added := None; removed := None |}
  | Some oldData =>
      let filteredOldData := filterPastShowtimes now oldData in
      let filteredNewData := filterPastShowtimes now newData in
      let added :=
        foldl (λ added '(movie, times),
                 match filteredOldData !! movie with
                 | None => <[movie := times]> added
                 | Some oldTimes =>
                     let newTimes := filter (λ t, t ∉ oldTimes) times in
                     if bool_decide (0 < length newTimes)%nat
                     then <[movie := newTimes]> added
                     else added
                 end)
              ∅ (map_to_list filteredNewData) in
      let removed :=
        foldl (λ removed '(movie, times),
                 match filteredNewData !! movie with
                 | None => <[movie := times]> removed
                 | Some newTimes =>
                     let gone := filter (λ t, t ∉ newTimes) times in
                     if bool_decide (0 < length gone)%nat
                     then <[movie := gone]> removed
                     else removed
                 end)
              ∅ (map_to_list filteredOldData) in
      let changed := bool_decide (0 < size added)%nat
                     || bool_decide (0 < size removed)%nat in
      {| changed := changed; isInitial := false; message := None;
         added := Some added; removed := Some removed |}
  end.
End diff.

(** *** The notifier and the run *)

Section run.
Variable getTime : string → option Z.
Variable toYMD : Z → string.
(** [new Date(t).toISOString()] and the two [en-AU] renderings. *)
Variable toISOString : Z → string.
Variable formatDateTimeMelbourne : string → string.
Variable formatSessionMelbourne : string → string.

(** The text of one block of the message, below its heading: one line per
    title.  The source visits the titles in the order of [Object.entries]
    (integer-like keys first, then the order in which the titles were
    stored), which a [gmap] does not record; [map_to_list] stands for that
    order, so for two or more titles the lines are right and their order
    is left open.  No statement below depends on the order of two lines. *)
Definition sessionLines (sessions : gmap string (list string)) : string :=
  foldl (λ text '(movie, times),
           text +:+ movie +:+ ": "
             +:+ Js.join ", " (formatSessionMelbourne <$> times)
             +:+ "<br>" +:+ Js.newline)
        "" (map_to_list sessions).

Definition formatMessage (changes : Changes) (timestampIso : string) : Payload :=
  if isInitial changes then
    {| value1 := default "" (message changes);
       value2 := "";
       value3 := formatDateTimeMelbourne timestampIso |}
  else
    let added := default ∅ (added changes) in
    let removed := default ∅ (removed changes) in
    let addedText :=
      if bool_decide (0 < size added)%nat
      then "SESSIONS ADDED:<br>" +:+ Js.newline +:+ sessionLines added
      else "" in
    let removedText :=
      if bool_decide (0 < size removed)%nat
      then "SESSIONS REMOVED:<br>" +:+ Js.newline +:+ sessionLines removed
      else "" in
    {| value1 := if Js.truthy addedText then addedText else "No sessions added";
       value2 := if Js.truthy removedText then removedText else "No sessions removed";
       value3 := formatDateTimeMelbourne timestampIso |}.

Definition sendNotification (message : Payload) : M unit :=
  let* webhookUrl := getEnv_IFTTT_WEBHOOK_URL in
  let webhookUrl := default "" webhookUrl in
  if negb (Js.truthy webhookUrl) then throw WebhookUrlNotSet
  else
    axios successStatus (PostWebhook webhookUrl message);;
    ret ().

Definition main : M unit :=
  let* oldData := loadCache in
  let* newData :=
    try_catch (getAllShowtimesRollingMonth getTime toYMD)
              (λ e, exit 1) in
  let* t := now in
  let changes := detectChanges getTime t oldData newData in
  (if changed changes then
     let* t := now in
     let msg := formatMessage changes (toISOString t) in
     sendNotification msg
   else ret ());;
  saveCache newData.
End run.

End RollingMonth.

(** ** The single-query monitor ([monitor.js]) *)

(** The script that posts one query without a date
    ([getAllShowtimesViaGraphQL]) and keeps the rendered strings of the
    sessions in its schedule. *)
Module SingleQuery.

Definition NOW_SHOWING_URL : string := BASE +:+ "/now-showing".

Definition getCookieHeader : M string :=
  let* resp := axios (λ _, true) (Get (NOW_SHOWING_URL +:+ "/") "") in
  let setCookie := default [] (set_cookie resp) in
  let cookieHeader :=
    Js.join "; " (filter (λ c, Js.truthy c = true)
                         ((λ c, hd "" (Js.split ";" c)) <$> setCookie)) in
  ret cookieHeader.

Section fetch.
(** [`${dateStr} ${timeStr}`] of an instant, in the [en-AU] locale. *)
Variable formatSession : string → string.

(** The body of [for (const s of showings)]; [None] is the [TypeError] of
    [map[movie].push] for a title that names a member of
    [Object.prototype]. *)
Definition collect (map : gmap string (list string)) (s : Showing)
    : option (gmap string (list string)) :=
  match Js.trim <$> movie_name s, time s with
  | Some movie, Some iso =>
      if Js.truthy movie && Js.truthy iso
      then
        let formatted := formatSession iso in
        let map := if negb (Js.truthyAt map movie) then <[movie := []]> map
                   else map in
        match map !! movie with
        | Some arr => Some (<[movie := arr ++ [formatted]]> map)
        | None => None
        end
      else Some map
  | _, _ => Some map
  end.

Definition dedupeAndSort (map : gmap string (list string))
    : gmap string (list string) :=
  foldl (λ map movie,
           <[movie := Js.sort Js.defaultNegative
                        (Js.Set_from (default [] (map !! movie)))]> map)
        map (map_to_list map).*1.

Definition getAllShowtimesViaGraphQL : M (gmap string (list string)) :=
  let* cookieHeader := getCookieHeader in
  let* resp := axios (λ _, true) (PostGraphQL cookieHeader None) in
  if bool_decide (status resp = 403) then throw GraphQLBlocked
  else if bool_decide (status resp < 200) || bool_decide (300 ≤ status resp)
  then throw (GraphQLStatus (status resp))
  else
    let errors := default [] (errors (data resp)) in
    if bool_decide (0 < length errors)%nat then throw (GraphQLErrorList errors)
    else
      let showings := default [] (showings (data resp)) in
      match Js.forOf collect ∅ showings with
      | None => throw TypeError
      | Some map => ret (dedupeAndSort map)
      end.
End fetch.

Definition detectChanges (oldData : option (gmap string (list string)))
    (newData : gmap string (list string)) : RollingMonth.Changes :=
  match oldData with
  | None =>
      let movieCount := size newData in
      let showtimeCount := RollingMonth.countShowtimes newData in
      RollingMonth.mkChanges true true
        (Some (RollingMonth.initialMessage movieCount showtimeCount)) None None
  | Some oldData =>
      let added :=
        foldl (λ added '(movie, times),
                 match oldData !! movie with
                 | None => <[movie := times]> added
                 | Some oldTimes =>
                     let newTimes := filter (λ t, t ∉ oldTimes) times in
                     if bool_decide (0 < length newTimes)%nat
                     then <[movie := newTimes]> added
                     else added
                 end)
              ∅ (map_to_list newData) in
      let removed :=
        foldl (λ removed '(movie, times),
                 match newData !! movie with
                 | None => <[movie := times]> removed
                 | Some newTimes =>
                     let gone := filter (λ t, t ∉ newTimes) times in
                     if bool_decide (0 < length gone)%nat
                     then <[movie := gone]> removed
                     else removed
                 end)
              ∅ (map_to_list oldData) in
      let changed := bool_decide (0 < size added)%nat
                     || bool_decide (0 < size removed)%nat in
      RollingMonth.mkChanges changed false None (Some added) (Some removed)
  end.

Section run.
Variable formatSession : string → string.
Variable toISOString : Z → string.
Variable formatDateTimeMelbourne : string → string.

(** The text of one block of the message: the stored strings are rendered
    already and are joined as they are.  As in the rolling-month monitor,
    [map_to_list] stands for the order of [Object.entries], and the order
    of the lines of two or more titles is left open. *)
Definition sessionLines (sessions : gmap string (list string)) : string :=
  foldl (λ text '(movie, times),
           text +:+ movie +:+ ": " +:+ Js.join ", " times
             +:+ "<br>" +:+ Js.newline)
        "" (map_to_list sessions).

Definition formatMessage (changes : RollingMonth.Changes) (timestampIso : string)
    : Payload :=
  if RollingMonth.isInitial changes then
    {| value1 := default "" (RollingMonth.message changes);
       value2 := "";
       value3 := formatDateTimeMelbourne timestampIso |}
  else
    let added := default ∅ (RollingMonth.added changes) in
    let removed := default ∅ (RollingMonth.removed changes) in
    let addedText :=
      if bool_decide (0 < size added)%nat
      then "SESSIONS ADDED:<br>" +:+ Js.newline +:+ sessionLines added
      else "" in
    let removedText :=
      if bool_decide (0 < size removed)%nat
      then "SESSIONS REMOVED:<br>" +:+ Js.newline +:+ sessionLines removed
      else "" in
    {| value1 := if Js.truthy addedText then addedText else "No sessions added";
       value2 := if Js.truthy removedText then removedText else "No sessions removed";
       value3 := formatDateTimeMelbourne timestampIso |}.

Definition sendNotification (message : Payload) : M unit :=
  let* webhookUrl := getEnv_IFTTT_WEBHOOK_URL in
  let webhookUrl := default "" webhookUrl in
  if negb (Js.truthy webhookUrl) then throw WebhookUrlNotSet
  else
    axios successStatus (PostWebhook webhookUrl message);;
    ret ().

Definition main : M unit :=
  let* newData :=
    try_catch (getAllShowtimesViaGraphQL formatSession)
              (λ e, ret ∅) in
  let* oldData := loadCache in
  let changes := detectChanges oldData newData in
  (if RollingMonth.changed changes then
     let* t := now in
     let msg := formatMessage changes (toISOString t) in
     sendNotification msg
   else ret ());;
  saveCache newData.
End run.

End SingleQuery.

(** ** The first draft of the notifier *)

(** The [sendNotification] of the script whose [getAllShowtimes] posts a
    single query with no session at all. *)
Module FirstDraft.

(** A missing URL is reported on the console and the call returns; a failed
    post is caught and reported on the console as well. *)
Definition sendNotification (message : Payload) : M unit :=
  let* webhookUrl := getEnv_IFTTT_WEBHOOK_URL in
  let webhookUrl := default "" webhookUrl in
  if negb (Js.truthy webhookUrl) then ret ()
  else
    try_catch (axios successStatus (PostWebhook webhookUrl message);; ret ())
              (λ error, ret ()).

End FirstDraft.

(** ** A clock for the examples *)

(** [utcTime] is the time value, in milliseconds since the epoch, of a
    string of the exact form [YYYY-MM-DDTHH:MM:SSZ] whose fields name a day
    of the calendar and a time of day before 24:00:00: on these strings it
    is [new Date(s).getTime()].  It is [None] on every other string.  That
    is [NaN] for a string JavaScript does not take for a date, such as
    "TBA"; JavaScript parses more strings than these (with milliseconds or
    an offset, a date alone, hour 24, a day past the end of its month), and
    on those [utcTime] is not its time value.  The examples apply it to
    strings of the first form and to strings that are no dates at all. *)
Module Iso.
Definition digit (c : ascii) : option Z := Z.of_nat <$> Ascii.is_nat c.

Definition number (cs : list ascii) : option Z :=
  foldl (λ acc c, n ← acc; d ← digit c; Some (10 * n + d)) (Some 0) cs.

Definition isLeap (y : Z) : bool :=
  bool_decide (y mod 4 = 0) && (negb (bool_decide (y mod 100 = 0))
                                || bool_decide (y mod 400 = 0)).

Definition daysInMonth (y m : Z) : Z :=
  if bool_decide (m = 2) then (if isLeap y then 29 else 28)
  else if bool_decide (m ∈ [4; 6; 9; 11]) then 30 else 31.

Definition daysFromCivil (y m d : Z) : Z :=
  let y := if bool_decide (m ≤ 2) then y - 1 else y in
  let era := y `div` 400 in
  let yoe := y - era * 400 in
  let mp := (m + 9) `mod` 12 in
  let doy := (153 * mp + 2) `div` 5 + d - 1 in
  let doe := yoe * 365 + yoe `div` 4 - yoe `div` 100 + doy in
  era * 146097 + doe - 719468.

Definition utcTime (s : string) : option Z :=
  match String.list_ascii_of_string s with
  | [y1; y2; y3; y4; "-"; m1; m2; "-"; d1; d2; "T";
     h1; h2; ":"; n1; n2; ":"; s1; s2; "Z"]%char =>
      y ← number [y1; y2; y3; y4];
      m ← number [m1; m2];
      d ← number [d1; d2];
      h ← number [h1; h2];
      n ← number [n1; n2];
      sec ← number [s1; s2];
      if bool_decide (1 ≤ m ≤ 12) && bool_decide (1 ≤ d ≤ daysInMonth y m)
         && bool_decide (h < 24) && bool_decide (n < 60) && bool_decide (sec < 60)
      then Some ((((daysFromCivil y m d * 24 + h) * 60 + n) * 60 + sec) * 1000)
      else None
  | _ => None
  end.
End Iso.

(** ** The calendar of Melbourne, for the examples *)

(** [toYMD] is the calendar day of an instant in the zone Australia/Melbourne
    as [Intl.DateTimeFormat] renders it, [YYYY-MM-DD], under the rules in
    force since 2008: standard time is UTC+10, and summer time, UTC+11, runs
    from 02:00 standard time on the first Sunday of October to 03:00 summer
    time on the first Sunday of April, which are both 16:00 UTC of the
    Saturday before.  It is meant for instants from April 2008 on and for
    years of four digits. *)
Module Melbourne.
Definition day : Z := 86400000.
Definition hour : Z := 3600000.

(** The day of the week of a day since the epoch, Sunday being 0. *)
Definition weekday (days : Z) : Z := (days + 4) `mod` 7.

(** The first Sunday of a month, in days since the epoch. *)
Definition firstSunday (y m : Z) : Z :=
  let first := Iso.daysFromCivil y m 1 in
  first + (7 - weekday first) `mod` 7.

(** The year, month and day of a day since the epoch. *)
Definition civilFromDays (days : Z) : Z * Z * Z :=
  let z := days + 719468 in
  let era := z `div` 146097 in
  let doe := z - era * 146097 in
  let yoe := (doe - doe `div` 1460 + doe `div` 36524 - doe `div` 146096) `div` 365 in
  let doy := doe - (365 * yoe + yoe `div` 4 - yoe `div` 100) in
  let mp := (5 * doy + 2) `div` 153 in
  let d := doy - (153 * mp + 2) `div` 5 + 1 in
  let m := if bool_decide (mp < 10) then mp + 3 else mp - 9 in
  let y := yoe + era * 400 in
  (if bool_decide (m ≤ 2) then y + 1 else y, m, d).

(** The offset from UTC at an instant. *)
Definition offset (t : Z) : Z :=
  let y := (civilFromDays (t `div` day)).1.1 in
  let summerEnds := firstSunday y 4 * day - 8 * hour in
  let summerStarts := firstSunday y 10 * day - 8 * hour in
  if bool_decide (t < summerEnds) then 11 * hour
  else if bool_decide (t < summerStarts) then 10 * hour
  else 11 * hour.

Definition twoDigits (n : Z) : string :=
  if bool_decide (n < 10) then "0" +:+ pretty n else pretty n.

Definition toYMD (t : Z) : string :=
  let '(y, m, d) := civilFromDays ((t + offset t) `div` day) in
  pretty y +:+ "-" +:+ twoDigits m +:+ "-" +:+ twoDigits d.
End Melbourne.

(** * The vocabulary of the statements *)

(** ** Loops, strings and [Map]s *)

(** One iteration of a loop over [Object.entries] writes the key it visits
    or leaves the object alone. *)
Definition assigns {A B : Type} (g : gmap string B → string * A → gmap string B)
    (f : string → A → option B) : Prop :=
  ∀ acc k v, g acc (k, v) = match f k v with
                            | Some w => <[k := w]> acc
                            | None => acc
                            end.

(** The character occurs in the string. *)
Fixpoint occurs (c : ascii) (s : string) : bool :=
  match s with
  | "" => false
  | String a s' => bool_decide (a = c) || occurs c s'
  end.

(** The string starts with no white space; it ends with none. *)
Definition startsClean (s : string) : Prop :=
  match s with
  | "" => True
  | String a _ => Js.isWhiteSpace a = false
  end.

Definition endsClean (s : string) : Prop := Js.trimEnd s = s.

(** [Map.prototype.get] on an insertion-ordered [Map]. *)
Fixpoint Map_get (k : string) (m : list (string * string)) : option string :=
  match m with
  | [] => None
  | (k', v) :: m' => if bool_decide (k' = k) then Some v else Map_get k m'
  end.

(** ** Sessions *)

(** One [existing.set(k, rest.join("="))], guarded by [if (!k)]. *)
Definition store (existing : list (string * string)) (kv : string)
    : list (string * string) :=
  match RollingMonth.keyValue kv with
  | Some (k, v) => Js.Map_set k v existing
  | None => existing
  end.

(** The [Map] read from a [cookie] header, the [Map] after the entries of
    a [set-cookie] array, and the header a [Map] is written to. *)
Definition readHeader (header : string) : list (string * string) :=
  if Js.truthy header then foldl store [] (Js.split ";" header) else [].

Definition mergeMap (existing : list (string * string))
    (setCookieArray : list string) : list (string * string) :=
  foldl (λ existing c, store existing (hd "" (Js.split ";" c)))
        existing setCookieArray.

Definition showPair (p : string * string) : string := p.1 +:+ "=" +:+ p.2.

Definition render (m : list (string * string)) : string :=
  Js.join "; " (showPair <$> m).

(** The value a [cookie] header carries for a key. *)
Definition cookieValue (header k : string) : option string :=
  Map_get k (readHeader header).

(** The value of [k] once the entries of a [set-cookie] array were
    applied, in order, over the value [before]: the last entry for [k]
    wins, and without such an entry the value is [before]. *)
Definition latest (k : string) (before : option string)
    (setCookieArray : list string) : option string :=
  foldl (λ value c,
           match RollingMonth.keyValue (hd "" (Js.split ";" c)) with
           | Some (k', v) => if bool_decide (k' = k) then Some v else value
           | None => value
           end)
        before setCookieArray.

(** Pairs that survive a round trip through a header. *)
Definition wfPair (p : string * string) : Prop :=
  p.1 ≠ "" ∧ occurs "=" p.1 = false ∧ occurs ";" p.1 = false ∧ startsClean p.1 ∧
  occurs ";" p.2 = false ∧ endsClean p.2.

Definition wfMap (m : list (string * string)) : Prop :=
  NoDup m.*1 ∧ Forall wfPair m.

(** ** Requests *)

(** The request is the post of a notification. *)
Definition isNotification (req : Request) : Prop :=
  match req with
  | PostWebhook _ _ => True
  | _ => False
  end.

(** A computation that sends no notification and leaves the cache alone. *)
Definition quiet {A} (m : M A) : Prop :=
  ∀ w, ∃ reqs, (m w).2 = after reqs w ∧ Forall (λ q, ¬ isNotification q) reqs.

(** ** The window *)

(** The error a day's reply stands for: no reply or a transport failure, a
    forbidden status, another status outside 200..299, or a payload with
    an error indicator; [None] when the day succeeds. *)
Definition failure (ymd : string) (reply : option Reply) : option Error :=
  match reply with
  | None | Some NetworkError => Some TransportError
  | Some (Answer resp) =>
      if decide (status resp = 403) then Some (GraphQL403 ymd)
      else if decide (200 ≤ status resp < 300) then
        match error_message (data resp), errors (data resp) with
        | Some (String c m), _ => Some (GraphQLError ymd (String c m))
        | _, Some (e :: es) => Some (GraphQLErrors ymd (e :: es))
        | _, _ => None
        end
      else Some (GraphQLHttp (status resp) ymd)
  end.

(** The records a day's reply carries. *)
Definition showingsOf (reply : option Reply) : list Showing :=
  match reply with
  | Some (Answer resp) => default [] (showings (data resp))
  | _ => []
  end.

(** The record ends the loop over a day's records: the loop keeps it (its
    name, trimmed, and its time are truthy) and its title names a member of
    [Object.prototype]. *)
Definition poisons (s : Showing) : bool :=
  match Js.trim <$> movie_name s, time s with
  | Some movie, Some iso => Js.truthy movie && Js.truthy iso && Js.inherited movie
  | _, _ => false
  end.

(** What ends the fetch at a day: the failure of the day's reply, or else
    the [TypeError] of a record of the reply; [None] when the day passes. *)
Definition dayFailure (ymd : string) (reply : option Reply) : option Error :=
  match failure ymd reply with
  | Some e => Some e
  | None => if existsb poisons (showingsOf reply) then Some TypeError else None
  end.

(** The object has no property of its own under a name of
    [Object.prototype]. *)
Definition clean (map : gmap string (list string)) : Prop :=
  ∀ k, Js.inherited k = true → map !! k = None.

(** The records of the first [n] replies, day after day. *)
Definition recordsOf (w : World) (n : nat) : list Showing :=
  concat ((λ i, showingsOf (replies w !! i)) <$> seq 0 n).

Section window.
Variable toYMD : Z → string.

(** The calendar date of the [i]-th query and the query itself. *)
Definition dateOf (cursor : Z) (i : nat) : string :=
  toYMD (cursor + Z.of_nat i * 86400000).

Definition queries (cookieHeader : string) (cursor : Z) (n : nat) : list Request :=
  (λ i, PostGraphQL cookieHeader (Some (dateOf cursor i))) <$> seq 0 n.

End window.

(** ** Instants and schedules *)

(** What a comparison loop records for one title. *)
Definition fresh (other : gmap string (list string)) (title : string)
    (times : list string) : option (list string) :=
  match other !! title with
  | None => Some times
  | Some otherTimes =>
      let d := filter (λ t, t ∉ otherTimes) times in
      if bool_decide (0 < length d)%nat then Some d else None
  end.

Section instants.
Variable getTime : string → option Z.

(** The instant has a time value. *)
Definition parses (i : string) : Prop := is_Some (getTime i).

(** Chronological order of two instants that have time values. *)
Definition timeLe (a b : string) : Prop :=
  match getTime a, getTime b with
  | Some ta, Some tb => ta ≤ tb
  | _, _ => False
  end.

(** What the future-only filter keeps of one title. *)
Definition future (now : Z) (times : list string) : option (list string) :=
  let futureTimes :=
    filter (λ t, RollingMonth.isPastShowtime getTime now t = false) times in
  if bool_decide (0 < length futureTimes)%nat then Some futureTimes else None.

End instants.

(** ** Sample runs *)

Definition noBody : Body := mkBody None None None.

(** A run of [monitor.js] whose query is answered 403, over a cache that
    holds one title, with the webhook configured. *)
Definition blockedRun : World :=
  {| replies := [Answer (mkResponse 200 (Some ["session=abc; Path=/"]) noBody);
                 Answer (mkResponse 403 None noBody);
                 Answer (mkResponse 200 None noBody)];
     sent := [];
     cache := Some {[ "Movie A" := ["3 December 7:00 pm"] ]};
     IFTTT_WEBHOOK_URL := Some "https://maker.ifttt.com/trigger/showtimes";
     clock := 0 |}.

(** A listing of one title with two sessions, 3 and 23 December 2025 at
    7:00 pm in Melbourne. *)
Definition listingRun : World :=
  {| replies :=
       [Answer (mkResponse 200 (Some ["session=abc; Path=/"]) noBody);
        Answer (mkResponse 200 None
          (mkBody None None
             (Some [mkShowing (Some "Movie A") (Some "2025-12-03T08:00:00Z");
                    mkShowing (Some "Movie A") (Some "2025-12-23T08:00:00Z")])))];
     sent := [];
     cache := None;
     IFTTT_WEBHOOK_URL := None;
     clock := 0 |}.

(** The same listing with a second record whose title, once trimmed, names
    a member of [Object.prototype]. *)
Definition poisonedListing : World :=
  {| replies :=
       [Answer (mkResponse 200 (Some ["session=abc; Path=/"]) noBody);
        Answer (mkResponse 200 None
          (mkBody None None
             (Some [mkShowing (Some "Movie A") (Some "2025-12-03T08:00:00Z");
                    mkShowing (Some " toString ") (Some "2025-12-23T08:00:00Z")])))];
     sent := [];
     cache := None;
     IFTTT_WEBHOOK_URL := None;
     clock := 0 |}.

(** 9 January 2025, 00:00 UTC. *)
Definition jan9 : Z := 1736380800000.

(** A day of the window, by its number since the epoch. *)
Definition dayNumber (t : Z) : string := pretty (t `div` 86400000).

Definition goodDay : Reply :=
  Answer (mkResponse 200 None
            (mkBody None None
               (Some [mkShowing (Some "Movie A") (Some "2025-01-10T10:00:00Z")]))).

Definition blockedDay : Reply := Answer (mkResponse 403 None noBody).

(** A successful answer with a record whose title names a member of
    [Object.prototype]. *)
Definition poisonedDay : Reply :=
  Answer (mkResponse 200 None
            (mkBody None None
               (Some [mkShowing (Some "constructor") (Some "2025-01-10T10:00:00Z")]))).

Definition worldOf (replies : list Reply) : World :=
  mkWorld replies [] None None jan9.

(** The two pages of the bootstrap, answered. *)
Definition pages : list Reply :=
  [Answer (mkResponse 200 (Some ["session=abc; Path=/"]) noBody);
   Answer (mkResponse 200 None noBody)].

(** A run of the rolling-month monitor on 9 January 2025 whose pages and 31
    days are answered, over a cache, an environment and the replies left
    for the webhook. *)
Definition monthRun (cache : option Schedule) (url : option string)
    (webhook : list Reply) : World :=
  mkWorld (pages ++ replicate 31 goodDay ++ webhook) [] cache url jan9.

Definition listed : Schedule := {[ "Movie A" := ["2025-01-10T10:00:00Z"] ]}.

Definition webhook : string := "https://maker.ifttt.com/trigger/showtimes".

(** ** Schedules as relations, and counted requests *)

(** The schedule lists the instant under the title. *)
Definition holds (schedule : gmap string (list string)) (title i : string) : Prop :=
  ∃ times, schedule !! title = Some times ∧ i ∈ times.

(** The instants the records give to a title, in the order of the records:
    those of the records whose trimmed name is the title, name and time
    being truthy. *)
Definition timesFor (title : string) (showings : list Showing) : list string :=
  omap (λ s, match Js.trim <$> movie_name s, time s with
             | Some movie, Some iso =>
                 if Js.truthy movie && Js.truthy iso && bool_decide (movie = title)
                 then Some iso else None
             | _, _ => None
             end)
       showings.

(** A computation that makes at most [n] requests, none of them a
    notification, and leaves the cache, the environment and the clock. *)
Definition sends {A} (n : nat) (m : M A) : Prop :=
  ∀ w, ∃ reqs, (m w).2 = after reqs w ∧ (length reqs ≤ n)%nat ∧
               Forall (λ q, ¬ isNotification q) reqs.

(** The reply is an answer with a status in 200..299. *)
Definition accepted (reply : option Reply) : Prop :=
  ∃ resp, reply = Some (Answer resp) ∧ 200 ≤ status resp < 300.

(** A computation that returns or throws, and never ends the process. *)
Definition settles {A} (m : M A) : Prop := ∀ w c, (m w).1 ≠ Exit c.

(** The order of [sort()] without a comparison, by code units. *)
Definition codeLe (x y : string) : Prop := String.compare x y ≠ Gt.
Definition codeLt (x y : string) : Prop := String.ltb x y = true.

(** * Properties *)

(** ** Loops over [Object.entries] that assign [acc[k] = w] *)

Section entries.
Context {A B : Type}.

Lemma foldl_assigns_list (g : gmap string B → string * A → gmap string B)
    (f : string → A → option B) (l : list (string * A)) acc k :
  assigns g f →
  NoDup l.*1 →
  foldl g acc l !! k =
    match (list_to_map l : gmap string A) !! k ≫= f k with
    | Some w => Some w
    | None => acc !! k
    end.
Proof.
  intros Hg. revert acc. induction l as [|[k' v] l IH]; intros acc Hnd.
  - cbn. by rewrite lookup_empty.
  - apply NoDup_cons in Hnd as [Hk' Hnd]. cbn [foldl].
    rewrite IH by done. rewrite Hg. cbn [list_to_map foldr uncurry].
    destruct (decide (k' = k)) as [->|Hne].
    + rewrite lookup_insert_eq.
      rewrite (not_elem_of_list_to_map_1 l k) by done. cbn.
      destruct (f k v); [by rewrite lookup_insert_eq|done].
    + rewrite lookup_insert_ne by done.
      destruct (list_to_map l !! k ≫= f k); [done|].
      destruct (f k' v); [by rewrite lookup_insert_ne|done].
Qed.

Lemma foldl_assigns_lookup (g : gmap string B → string * A → gmap string B)
    (f : string → A → option B) (m : gmap string A) k :
  assigns g f →
  foldl g ∅ (map_to_list m) !! k = m !! k ≫= f k.
Proof.
  intros Hg. rewrite (foldl_assigns_list g f) by (done || apply NoDup_fst_map_to_list).
  rewrite list_to_map_to_list, lookup_empty.
  by destruct (m !! k ≫= f k).
Qed.
End entries.

(** ** Arrays: [Set], [sort] *)

Section arrays.
Lemma Set_from_acc (arr acc : list string) :
  NoDup acc →
  let set := foldl (λ set x, if bool_decide (x ∈ set) then set else set ++ [x])
                   acc arr in
  NoDup set ∧ ∀ x, x ∈ set ↔ x ∈ acc ∨ x ∈ arr.
Proof.
  revert acc. induction arr as [|y arr IH]; intros acc Hnd; cbn.
  - split; [done|]. intros x. rewrite elem_of_nil. tauto.
  - case_bool_decide as Hy.
    + destruct (IH acc Hnd) as [Hnd' Hin]. split; [done|].
      intros x. rewrite Hin, elem_of_cons.
      split; [tauto|]. intros [?|[->|?]]; tauto.
    + assert (NoDup (acc ++ [y])) as Hnd2.
      { apply NoDup_app. split_and!; [done| |apply NoDup_singleton].
        intros x Hx Hxy%list_elem_of_singleton. by subst x. }
      destruct (IH _ Hnd2) as [Hnd' Hin]. split; [done|].
      intros x. rewrite Hin, elem_of_app, list_elem_of_singleton, elem_of_cons.
      tauto.
Qed.

Lemma Set_from_NoDup arr : NoDup (Js.Set_from arr).
Proof. apply (Set_from_acc arr []), NoDup_nil_2. Qed.

Lemma Set_from_elem arr x : x ∈ Js.Set_from arr ↔ x ∈ arr.
Proof.
  destruct (Set_from_acc arr [] (NoDup_nil_2)) as [_ H].
  unfold Js.Set_from. rewrite H, elem_of_nil. tauto.
Qed.

Context {A : Type} (negative : A → A → bool).

Lemma insert_Permutation x (l : list A) : Js.insert negative x l ≡ₚ x :: l.
Proof.
  induction l as [|y l IH]; cbn; [done|].
  destruct (negative x y); [done|]. rewrite IH. apply Permutation_swap.
Qed.

Lemma sort_acc_Permutation (arr acc : list A) :
  foldl (λ sorted x, Js.insert negative x sorted) acc arr ≡ₚ acc ++ arr.
Proof.
  revert acc. induction arr as [|x arr IH]; intros acc; cbn.
  - by rewrite app_nil_r.
  - rewrite IH, insert_Permutation. apply Permutation_middle.
Qed.

Lemma sort_Permutation (arr : list A) : Js.sort negative arr ≡ₚ arr.
Proof. apply (sort_acc_Permutation arr []). Qed.

(** On a domain [D] where the comparison is that of a transitive order
    [R], insertion keeps a sorted array sorted. *)
Context (D : A → Prop) (R : relation A) `{!Transitive R}.
Hypothesis negative_before : ∀ x y, D x → D y → negative x y = true → R x y.
Hypothesis negative_after : ∀ x y, D x → D y → negative x y = false → R y x.

Lemma insert_sorted x (l : list A) :
  D x → Forall D l → StronglySorted R l →
  StronglySorted R (Js.insert negative x l).
Proof.
  intros Hx. induction l as [|y l IH]; intros HD Hs; cbn.
  - repeat constructor.
  - apply Forall_cons in HD as [Hy HD].
    apply StronglySorted_inv in Hs as [Hs Hall].
    destruct (negative x y) eqn:Hxy.
    + constructor; [by constructor|].
      apply negative_before in Hxy; [|done..].
      constructor; [done|]. eapply Forall_impl; [exact Hall|].
      intros z Hz. by etrans.
    + apply negative_after in Hxy; [|done..].
      constructor; [by apply IH|].
      rewrite insert_Permutation. by constructor.
Qed.

Lemma sort_acc_sorted (arr acc : list A) :
  Forall D arr → Forall D acc → StronglySorted R acc →
  StronglySorted R (foldl (λ sorted x, Js.insert negative x sorted) acc arr).
Proof.
  revert acc. induction arr as [|x arr IH]; intros acc Harr Hacc Hs; [done|].
  apply Forall_cons in Harr as [Hx Harr]. cbn. apply IH; [done| |].
  - rewrite insert_Permutation. by constructor.
  - by apply insert_sorted.
Qed.

Lemma sort_sorted (arr : list A) :
  Forall D arr → StronglySorted R (Js.sort negative arr).
Proof. intros H. apply sort_acc_sorted; [done|constructor..]. Qed.
End arrays.

(** ** The normaliser *)

Section rewrite_keys.
Context {V : Type} (d : V) (f : V → V).

(** A loop over the keys that rewrites each entry from its own value. *)
Lemma foldl_rewrite_keys (keys : list string) (m : gmap string V) k :
  NoDup keys →
  foldl (λ map movie, <[movie := f (default d (map !! movie))]> map)
        m keys !! k
  = if decide (k ∈ keys) then Some (f (default d (m !! k)))
    else m !! k.
Proof.
  revert m. induction keys as [|k0 keys IH]; intros m Hnd.
  - cbn. by rewrite decide_False by apply not_elem_of_nil.
  - apply NoDup_cons in Hnd as [Hk0 Hnd]. cbn [foldl]. rewrite IH by done.
    destruct (decide (k = k0)) as [->|Hne].
    + rewrite decide_False by done. rewrite decide_True by left.
      by rewrite lookup_insert_eq.
    + rewrite lookup_insert_ne by done.
      destruct (decide (k ∈ keys)) as [Hin|Hin].
      * by rewrite decide_True by (by right).
      * rewrite decide_False; [done|]. by intros [?|?]%elem_of_cons.
Qed.

Lemma foldl_rewrite_own_keys (m : gmap string V) k :
  foldl (λ map movie, <[movie := f (default d (map !! movie))]> map)
        m (map_to_list m).*1 !! k
  = f <$> m !! k.
Proof.
  rewrite foldl_rewrite_keys by apply NoDup_fst_map_to_list.
  destruct (m !! k) as [v|] eqn:Hm.
  - rewrite decide_True; [done|].
    apply list_elem_of_fmap. exists (k, v). split; [done|].
    by apply elem_of_map_to_list.
  - rewrite decide_False; [done|].
    intros ([k' v] & -> & Hin)%list_elem_of_fmap.
    apply elem_of_map_to_list in Hin. cbn in Hm. congruence.
Qed.
End rewrite_keys.

Section normaliser_facts.
Import RollingMonth.
Variable getTime : string → option Z.

Global Instance timeLe_trans : Transitive (timeLe getTime).
Proof.
  intros a b c. unfold timeLe.
  destruct (getTime a), (getTime b), (getTime c); try done. lia.
Qed.

Lemma byTime_before x y :
  parses getTime x → parses getTime y → negative (byTime getTime x y) = true → timeLe getTime x y.
Proof.
  intros [tx Hx] [ty Hy]. unfold byTime, timeLe. rewrite Hx, Hy. cbn.
  intros ?%bool_decide_eq_true. lia.
Qed.

Lemma byTime_after x y :
  parses getTime x → parses getTime y → negative (byTime getTime x y) = false → timeLe getTime y x.
Proof.
  intros [tx Hx] [ty Hy]. unfold byTime, timeLe. rewrite Hx, Hy. cbn.
  intros ?%bool_decide_eq_false. lia.
Qed.

Lemma dedupeAndSort_lookup (map : gmap string (list string)) title :
  dedupeAndSort getTime map !! title
  = (λ arr, Js.sort (λ a b, negative (byTime getTime a b)) (Js.Set_from arr))
      <$> map !! title.
Proof.
  unfold dedupeAndSort.
  apply (foldl_rewrite_own_keys []
           (λ arr, Js.sort (λ a b, negative (byTime getTime a b)) (Js.Set_from arr))).
Qed.

(** One record: what [collect] does with a record it keeps, and with one
    it skips. *)
Lemma collect_kept (map : gmap string (list string)) s movie iso :
  Js.trim <$> movie_name s = Some movie →
  time s = Some iso →
  Js.truthy movie && Js.truthy iso = true →
  collect map s
  = match map !! movie with
    | Some arr => Some (<[movie := arr ++ [iso]]> map)
    | None => if Js.inherited movie then None else Some (<[movie := [iso]]> map)
    end.
Proof.
  intros Hname Htime Hkept. unfold collect, Js.truthyAt.
  rewrite Hname, Htime, Hkept.
  destruct (map !! movie) as [arr|] eqn:Hm.
  - rewrite bool_decide_eq_true_2 by eauto. cbn. by rewrite Hm.
  - rewrite bool_decide_eq_false_2 by (by intros [? ?]). cbn.
    destruct (Js.inherited movie); cbn.
    + by rewrite Hm.
    + by rewrite lookup_insert_eq, insert_insert_eq.
Qed.

Lemma collect_step_lookup (map map' : gmap string (list string)) s title :
  collect map s = Some map' →
  map' !! title = match timesFor title [s] with
                  | [] => map !! title
                  | l => Some (default [] (map !! title) ++ l)
                  end.
Proof.
  unfold timesFor. cbn [omap list_omap].
  destruct (Js.trim <$> movie_name s) as [movie|] eqn:Hname;
    [|unfold collect; rewrite Hname; by intros [= <-]].
  destruct (time s) as [iso|] eqn:Htime;
    [|unfold collect; rewrite Hname, Htime; by intros [= <-]].
  destruct (Js.truthy movie && Js.truthy iso) eqn:Hkept;
    [|unfold collect; rewrite Hname, Htime, Hkept; by intros [= <-]].
  rewrite (collect_kept map s movie iso Hname Htime Hkept). cbn.
  case_bool_decide as Htitle; cbn.
  - subst title. destruct (map !! movie) as [arr|] eqn:Hm.
    + intros [= <-]. by rewrite lookup_insert_eq.
    + destruct (Js.inherited movie); [done|]. intros [= <-].
      by rewrite lookup_insert_eq.
  - destruct (map !! movie) as [arr|].
    + intros [= <-]. by rewrite lookup_insert_ne.
    + destruct (Js.inherited movie); [done|]. intros [= <-].
      by rewrite lookup_insert_ne.
Qed.

Lemma forOf_app {A B} (body : A → B → option A) acc (l1 l2 : list B) :
  Js.forOf body acc (l1 ++ l2)
  = Js.forOf body acc l1 ≫= λ acc', Js.forOf body acc' l2.
Proof.
  revert acc. induction l1 as [|x l1 IH]; intros acc; cbn; [done|].
  destruct (body acc x); [apply IH|done].
Qed.

Lemma timesFor_cons title s showings :
  timesFor title (s :: showings) = timesFor title [s] ++ timesFor title showings.
Proof.
  unfold timesFor. cbn [omap list_omap].
  destruct (Js.trim <$> movie_name s) as [movie|]; [|done].
  destruct (time s) as [iso|]; [|done].
  by destruct (Js.truthy movie && Js.truthy iso && bool_decide (movie = title)).
Qed.

(** The loop over the records, when it does not throw: every title has the
    instants it had, followed by those of its records, in their order. *)
Lemma collect_lookup (showings : list Showing) (map map' : gmap string (list string))
    title :
  Js.forOf collect map showings = Some map' →
  map' !! title
  = match map !! title, timesFor title showings with
    | Some l, extra => Some (l ++ extra)
    | None, [] => None
    | None, extra => Some extra
    end.
Proof.
  revert map. induction showings as [|s showings IH]; intros map.
  - cbn. intros [= <-]. destruct (map !! title); by rewrite ?app_nil_r.
  - cbn [Js.forOf]. destruct (collect map s) as [map1|] eqn:Hstep; [|done].
    intros Hrest. rewrite (IH _ Hrest), timesFor_cons.
    rewrite (collect_step_lookup _ _ _ title Hstep).
    destruct (timesFor title [s]) as [|t l]; [done|].
    destruct (map !! title) as [old|]; cbn; [|done].
    by rewrite <- app_assoc.
Qed.

Lemma elem_of_timesFor title showings i :
  i ∈ timesFor title showings
  ↔ ∃ s, s ∈ showings ∧ Js.trim <$> movie_name s = Some title ∧ title ≠ ""
         ∧ time s = Some i ∧ i ≠ "".
Proof.
  unfold timesFor. rewrite list_elem_of_omap. split.
  - intros (s & Hs & Hkept). exists s. split; [done|].
    destruct (movie_name s) as [name|]; cbn in *; [|done].
    destruct (time s) as [iso|]; [|done].
    destruct (Js.truthy (Js.trim name) && Js.truthy iso) eqn:Htruthy; cbn in *;
      [|done].
    case_bool_decide as Htitle; [|done]. injection Hkept as <-.
    apply andb_true_iff in Htruthy as [Hm Hi]. unfold Js.truthy in *.
    apply bool_decide_eq_true in Hm, Hi. by rewrite <- Htitle.
  - intros (s & Hs & Hname & Htitle & Htime & Hi). exists s. split; [done|].
    rewrite Hname, Htime. unfold Js.truthy.
    by rewrite !bool_decide_eq_true_2.
Qed.

(** An object without a property under a name of [Object.prototype]: a
    record that does not poison is collected and leaves it so, and a record
    that poisons makes the loop throw. *)
Lemma collect_clean (map : gmap string (list string)) s :
  clean map → poisons s = false →
  ∃ map', collect map s = Some map' ∧ clean map'.
Proof.
  intros Hclean. unfold poisons.
  destruct (Js.trim <$> movie_name s) as [movie|] eqn:Hname;
    [|intros _; exists map; unfold collect; by rewrite Hname].
  destruct (time s) as [iso|] eqn:Htime;
    [|intros _; exists map; unfold collect; by rewrite Hname, Htime].
  destruct (Js.truthy movie && Js.truthy iso) eqn:Hkept;
    [|intros _; exists map; unfold collect; by rewrite Hname, Htime, Hkept].
  cbn. intros Hinh. rewrite (collect_kept map s movie iso Hname Htime Hkept), Hinh.
  destruct (map !! movie) as [arr|] eqn:Hm.
  - eexists. split; [done|]. intros k Hk.
    rewrite lookup_insert_ne by congruence. by apply Hclean.
  - eexists. split; [done|]. intros k Hk.
    rewrite lookup_insert_ne by congruence. by apply Hclean.
Qed.

Lemma collect_poisoned (map : gmap string (list string)) s :
  clean map → poisons s = true → collect map s = None.
Proof.
  intros Hclean. unfold poisons.
  destruct (Js.trim <$> movie_name s) as [movie|] eqn:Hname; [|done].
  destruct (time s) as [iso|] eqn:Htime; [|done].
  destruct (Js.truthy movie && Js.truthy iso) eqn:Hkept; [|done].
  cbn. intros Hinh. rewrite (collect_kept map s movie iso Hname Htime Hkept).
  by rewrite (Hclean movie Hinh), Hinh.
Qed.

Lemma forOf_collect_clean (showings : list Showing) (map : gmap string (list string)) :
  clean map → existsb poisons showings = false →
  ∃ map', Js.forOf collect map showings = Some map' ∧ clean map'.
Proof.
  revert map. induction showings as [|s showings IH]; intros map Hclean; cbn.
  - intros _. by exists map.
  - intros [Hs Hrest]%orb_false_iff.
    destruct (collect_clean map s Hclean Hs) as (map1 & -> & Hclean1).
    by apply IH.
Qed.

Lemma forOf_collect_poisoned (showings : list Showing)
    (map : gmap string (list string)) :
  clean map → existsb poisons showings = true →
  Js.forOf collect map showings = None.
Proof.
  revert map. induction showings as [|s showings IH]; intros map Hclean; cbn;
    [done|].
  destruct (poisons s) eqn:Hs.
  - intros _. by rewrite (collect_poisoned map s Hclean Hs).
  - cbn. intros Hrest.
    destruct (collect_clean map s Hclean Hs) as (map1 & -> & Hclean1).
    by apply IH.
Qed.

Lemma clean_empty : clean ∅.
Proof. intros k _. apply lookup_empty. Qed.

(** The lists of a normalised schedule have no duplicate, and they are in
    chronological order when their instants have time values. *)
Lemma dedupeAndSort_unique_sorted (map : gmap string (list string)) title times :
  dedupeAndSort getTime map !! title = Some times →
  NoDup times ∧ (Forall (parses getTime) times → StronglySorted (timeLe getTime) times).
Proof.
  rewrite dedupeAndSort_lookup.
  destruct (map !! title) as [arr|]; [|done]. cbn. intros [= <-]. split.
  - rewrite sort_Permutation. apply Set_from_NoDup.
  - intros Hp. apply (sort_sorted _ (parses getTime) (timeLe getTime)).
    + apply byTime_before.
    + apply byTime_after.
    + by rewrite sort_Permutation in Hp.
Qed.

(** The normaliser of the rolling-month monitor: for records whose
    instants have time values, every title's list is free of duplicates
    and in ascending order of the time values. *)
Theorem normalised_unique_chronological (showings : list Showing) map title times :
  (∀ s i, s ∈ showings → time s = Some i → parses getTime i) →
  Js.forOf collect ∅ showings = Some map →
  dedupeAndSort getTime map !! title = Some times →
  NoDup times ∧ StronglySorted (timeLe getTime) times.
Proof.
  intros Hparse Hmap Hlook.
  destruct (dedupeAndSort_unique_sorted _ _ _ Hlook) as [Hnd Hs].
  split; [done|]. apply Hs. apply Forall_forall. intros i Hi.
  rewrite dedupeAndSort_lookup, (collect_lookup _ _ _ title Hmap), lookup_empty
    in Hlook.
  destruct (timesFor title showings) as [|t l] eqn:Ht; [done|].
  injection Hlook as <-.
  rewrite sort_Permutation, Set_from_elem, <- Ht in Hi.
  apply elem_of_timesFor in Hi as (s & Hs' & _ & _ & Htime & _).
  by apply (Hparse s).
Qed.
End normaliser_facts.

(** ** Strings: [split], [join], [trim] *)

Section strings.
Implicit Types (c a : ascii) (s t p : string).

Lemma app_cons a s t : String a s +:+ t = String a (s +:+ t).
Proof. done. Qed.

Lemma app_empty_l t : "" +:+ t = t.
Proof. done. Qed.

Lemma occurs_app c s t : occurs c (s +:+ t) = occurs c s || occurs c t.
Proof.
  induction s as [|a s IH]; [done|]. rewrite app_cons. cbn.
  by rewrite IH, orb_assoc.
Qed.

Lemma split_nonempty c s : Js.split c s ≠ [].
Proof.
  destruct s as [|a s]; cbn; [done|].
  case_bool_decide; [done|]. by destruct (Js.split c s).
Qed.

Lemma split_absent c s : occurs c s = false → Js.split c s = [s].
Proof.
  induction s as [|a s IH]; cbn; [done|].
  intros [Ha Hs]%orb_false_elim. rewrite Ha. by rewrite IH.
Qed.

Lemma split_app c s t :
  occurs c s = false → Js.split c (s +:+ String c t) = s :: Js.split c t.
Proof.
  induction s as [|a s IH]; cbn.
  - intros _. rewrite app_empty_l. cbn. by rewrite bool_decide_eq_true_2.
  - intros [Ha Hs]%orb_false_elim. rewrite app_cons. cbn.
    rewrite Ha. by rewrite IH.
Qed.

Lemma split_pieces c s p : p ∈ Js.split c s → occurs c p = false.
Proof.
  revert p. induction s as [|a s IH]; intros p; cbn.
  - by intros ->%list_elem_of_singleton.
  - case_bool_decide as Ha.
    + intros [->|Hp]%elem_of_cons; [done|by apply IH].
    + destruct (Js.split c s) as [|q qs] eqn:Hq.
      * intros ->%list_elem_of_singleton. cbn.
        by rewrite bool_decide_eq_false_2.
      * intros [->|Hp]%elem_of_cons.
        -- cbn. rewrite bool_decide_eq_false_2 by done.
           apply IH. left.
        -- apply IH. by right.
Qed.

Lemma join_cons sep x (l : list string) :
  l ≠ [] → Js.join sep (x :: l) = x +:+ sep +:+ Js.join sep l.
Proof. by destruct l. Qed.

Lemma join_split c s : Js.join (String c "") (Js.split c s) = s.
Proof.
  induction s as [|a s IH]; cbn; [done|].
  pose proof (split_nonempty c s) as Hne.
  case_bool_decide as Ha.
  - subst a. by rewrite join_cons, IH.
  - destruct (Js.split c s) as [|q qs] eqn:Hq; [done|].
    destruct qs as [|q' qs].
    + cbn in *. by rewrite IH.
    + rewrite join_cons in * by done. by rewrite app_cons, IH.
Qed.

Lemma occurs_trimStart c s : occurs c s = false → occurs c (Js.trimStart s) = false.
Proof.
  induction s as [|a s IH]; cbn; [done|].
  intros [Ha Hs]%orb_false_elim.
  destruct (Js.isWhiteSpace a); [by apply IH|]. cbn. by rewrite Ha.
Qed.

Lemma occurs_trimEnd c s : occurs c s = false → occurs c (Js.trimEnd s) = false.
Proof.
  induction s as [|a s IH]; cbn; [done|].
  intros [Ha Hs]%orb_false_elim.
  destruct (Js.isWhiteSpace a && bool_decide (Js.trimEnd s = "")); [done|].
  cbn. rewrite Ha. by apply IH.
Qed.

Lemma occurs_trim c s : occurs c s = false → occurs c (Js.trim s) = false.
Proof. intros. by apply occurs_trimEnd, occurs_trimStart. Qed.

Lemma trimStart_startsClean s : startsClean (Js.trimStart s).
Proof.
  induction s as [|a s IH]; cbn; [done|].
  by destruct (Js.isWhiteSpace a) eqn:Ha.
Qed.

Lemma trimStart_clean s : startsClean s → Js.trimStart s = s.
Proof. destruct s as [|a s]; cbn; [done|]. by intros ->. Qed.

Lemma trimEnd_endsClean s : endsClean (Js.trimEnd s).
Proof.
  unfold endsClean. induction s as [|a s IH]; cbn; [done|].
  destruct (Js.isWhiteSpace a && bool_decide (Js.trimEnd s = "")) eqn:Hc; [done|].
  cbn. by rewrite IH, Hc.
Qed.

Lemma trimEnd_startsClean s : startsClean s → startsClean (Js.trimEnd s).
Proof.
  destruct s as [|a s]; cbn; [done|]. intros Ha. rewrite Ha. done.
Qed.

Lemma trim_clean s : startsClean (Js.trim s) ∧ endsClean (Js.trim s).
Proof.
  split.
  - apply trimEnd_startsClean, trimStart_startsClean.
  - apply trimEnd_endsClean.
Qed.

Lemma trim_id s : startsClean s → endsClean s → Js.trim s = s.
Proof. intros Hs He. unfold Js.trim. by rewrite trimStart_clean. Qed.

Lemma endsClean_app_inv s t : endsClean (s +:+ t) → endsClean t.
Proof.
  unfold endsClean. induction s as [|a s IH]; [done|].
  rewrite app_cons. cbn.
  destruct (Js.isWhiteSpace a && bool_decide (Js.trimEnd (s +:+ t) = "")); [done|].
  intros [= H]. by apply IH.
Qed.

Lemma endsClean_app s t : t ≠ "" → endsClean t → endsClean (s +:+ t).
Proof.
  unfold endsClean. intros Ht He. induction s as [|a s IH]; [done|].
  rewrite app_cons. cbn. rewrite IH.
  rewrite (bool_decide_eq_false_2 (s +:+ t = "")), andb_false_r; [done|].
  destruct s; [done|done].
Qed.

Lemma endsClean_cons a s : Js.isWhiteSpace a = false → endsClean s → endsClean (String a s).
Proof. unfold endsClean. cbn. intros -> ->. done. Qed.
End strings.

(** ** Requests and their effects *)

Section effects.
Lemma after_nil w : after [] w = w.
Proof. destruct w. unfold after. cbn. by rewrite app_nil_r. Qed.

Lemma after_after r1 r2 w : after r2 (after r1 w) = after (r1 ++ r2) w.
Proof.
  unfold after. cbn. f_equal.
  - by rewrite drop_drop, length_app.
  - by rewrite app_assoc.
Qed.

Lemma replies_after_lookup reqs w i :
  replies (after reqs w) !! i = replies w !! (length reqs + i)%nat.
Proof. cbn. by rewrite lookup_drop. Qed.

Lemma quiet_ret {A} (a : A) : quiet (ret a).
Proof. intros w. exists []. by rewrite after_nil. Qed.

Lemma quiet_throw {A} (e : Error) : quiet (throw (A := A) e).
Proof. intros w. exists []. by rewrite after_nil. Qed.

Lemma quiet_now : quiet now.
Proof. intros w. exists []. by rewrite after_nil. Qed.

Lemma quiet_axios v req : ¬ isNotification req → quiet (axios v req).
Proof.
  intros Hreq w. exists [req]. split; [|by constructor].
  unfold axios. destruct (head (replies w)) as [[|resp]|]; try done.
  by destruct (v (status resp)).
Qed.

Lemma quiet_bind {A B} (m : M A) (k : A → M B) :
  quiet m → (∀ a, quiet (k a)) → quiet (bind m k).
Proof.
  intros Hm Hk w. destruct (Hm w) as (r1 & Hw1 & H1). unfold bind.
  destruct (m w) as [[a|e|c] w1]; cbn in Hw1; subst w1; [|by eauto..].
  destruct (Hk a (after r1 w)) as (r2 & Hw2 & H2).
  exists (r1 ++ r2). rewrite Hw2, after_after. split; [done|].
  by apply Forall_app.
Qed.
End effects.

(** ** The session primer *)

Section cookie_facts.
Import RollingMonth.
Implicit Types (k v kv c header : string) (m existing : list (string * string)).

Lemma mergeSetCookies_render header setCookieArray :
  mergeSetCookies header setCookieArray
  = render (mergeMap (readHeader header) (default [] setCookieArray)).
Proof.
  unfold mergeSetCookies, render, mergeMap, readHeader, store, showPair.
  f_equal. apply list_fmap_ext. by intros _ [k v] _.
Qed.

Lemma Map_get_set k k' v m :
  Map_get k (Js.Map_set k' v m) = if bool_decide (k' = k) then Some v else Map_get k m.
Proof.
  induction m as [|[k0 v0] m IH]; cbn; [done|].
  destruct (decide (k0 = k')) as [->|Hne].
  - rewrite bool_decide_eq_true_2 by done. cbn. by case_bool_decide.
  - rewrite (bool_decide_eq_false_2 (k0 = k')) by done. cbn. rewrite IH.
    repeat case_bool_decide; congruence.
Qed.

Lemma Map_get_mergeMap k m setCookieArray :
  Map_get k (mergeMap m setCookieArray) = latest k (Map_get k m) setCookieArray.
Proof.
  revert m. induction setCookieArray as [|c cs IH]; intros m; [done|].
  cbn. rewrite IH. f_equal. unfold store.
  destruct (keyValue _) as [[k' v']|]; [|done]. apply Map_get_set.
Qed.

Lemma split_eq_head s :
  ∃ k rest, Js.split "=" s = k :: rest ∧ occurs "=" k = false ∧
            (s = k ∧ rest = [] ∨ s = k +:+ "=" +:+ Js.join "=" rest).
Proof.
  induction s as [|a s IH]; cbn.
  - exists "", []. split_and!; [done..|]. by left.
  - destruct IH as (k & rest & Hs & Hk & Hcase). case_bool_decide as Ha.
    + subst a. exists "", (Js.split "=" s). split_and!; [done..|]. right.
      rewrite app_empty_l. change ("=" +:+ ?x) with (String "=" x).
      by rewrite join_split.
    + rewrite Hs. exists (String a k), rest. split_and!; [done| |].
      * cbn. by rewrite bool_decide_eq_false_2.
      * destruct Hcase as [[-> ->]|Hc]; [by left|right].
        by rewrite app_cons, <- Hc.
Qed.

Lemma keyValue_wf kv k v :
  occurs ";" kv = false → keyValue kv = Some (k, v) → wfPair (k, v).
Proof.
  intros Hsemi. unfold keyValue.
  pose proof (occurs_trim ";" kv Hsemi) as Hsemi'.
  destruct (trim_clean kv) as [Hstart Hend].
  destruct (split_eq_head (Js.trim kv)) as (k0 & rest & Hs & Hk & Hcase).
  rewrite Hs. unfold Js.truthy. case_bool_decide as Hne; [|done].
  intros [= <- <-]. unfold wfPair. cbn [fst snd].
  destruct Hcase as [[Heq ->]|Heq].
  - subst k0. split_and!; done.
  - rewrite Heq in Hsemi', Hstart, Hend.
    rewrite !occurs_app in Hsemi'.
    apply orb_false_elim in Hsemi' as [Hk1 [_ Hv1]%orb_false_elim].
    split_and!; try done.
    + destruct k0; [done|]. exact Hstart.
    + apply endsClean_app_inv in Hend.
      by apply (endsClean_app_inv "=") in Hend.
Qed.

Lemma showPair_clean p :
  wfPair p →
  occurs ";" (showPair p) = false ∧ startsClean (showPair p) ∧
  endsClean (showPair p) ∧ showPair p ≠ "".
Proof.
  destruct p as [k v]. unfold wfPair, showPair. cbn [fst snd].
  intros (Hne & Heq & Hsemi & Hstart & Hvsemi & Hvend).
  split_and!.
  - rewrite !occurs_app, Hsemi, Hvsemi. done.
  - destruct k; [done|]. exact Hstart.
  - apply endsClean_app; [done|]. by apply endsClean_cons.
  - by destruct k.
Qed.

Lemma keyValue_showPair p : wfPair p → keyValue (showPair p) = Some p.
Proof.
  intros Hwf. destruct (showPair_clean p Hwf) as (_ & Hstart & Hend & _).
  destruct p as [k v]. destruct Hwf as (Hne & Heq & _). cbn [fst snd] in *.
  unfold keyValue. rewrite trim_id by done. unfold showPair. cbn [fst snd].
  change ("=" +:+ v) with (String "=" v).
  rewrite split_app by done. unfold Js.truthy.
  rewrite bool_decide_eq_true_2 by done. by rewrite join_split.
Qed.

Lemma Map_set_fresh k v m : k ∉ m.*1 → Js.Map_set k v m = m ++ [(k, v)].
Proof.
  induction m as [|[k0 v0] m IH]; cbn; [done|].
  intros Hk. apply not_elem_of_cons in Hk as [Hne Hk].
  rewrite bool_decide_eq_false_2 by done. by rewrite IH.
Qed.

Lemma Map_set_keys k v m :
  (Js.Map_set k v m).*1 = if decide (k ∈ m.*1) then m.*1 else m.*1 ++ [k].
Proof.
  induction m as [|[k0 v0] m IH]; cbn.
  - rewrite decide_False; [done|]. apply not_elem_of_nil.
  - case_bool_decide as Hk0.
    + subst k0. rewrite decide_True by left. done.
    + cbn. rewrite IH. destruct (decide (k ∈ m.*1)) as [Hin|Hin].
      * by rewrite decide_True by (by right).
      * rewrite decide_False; [done|].
        intros [?|?]%elem_of_cons; [congruence|done].
Qed.

Lemma Map_set_wf k v m : wfMap m → wfPair (k, v) → wfMap (Js.Map_set k v m).
Proof.
  intros [Hnd Hall] Hp. split.
  - rewrite Map_set_keys. destruct (decide (k ∈ m.*1)); [done|].
    apply NoDup_app. split_and!; [done| |apply NoDup_singleton].
    intros x Hx Hx'%list_elem_of_singleton. by subst x.
  - clear Hnd. induction m as [|[k0 v0] m IH]; cbn.
    + by constructor.
    + apply Forall_cons in Hall as [H0 Hall]. case_bool_decide.
      * by constructor.
      * constructor; [done|by apply IH].
Qed.

Lemma mergeMap_wf m setCookieArray : wfMap m → wfMap (mergeMap m setCookieArray).
Proof.
  revert m. induction setCookieArray as [|c cs IH]; intros m Hm; [done|].
  cbn. apply IH. unfold store.
  destruct (keyValue _) as [[k v]|] eqn:Hkv; [|done].
  apply Map_set_wf; [done|]. apply (keyValue_wf _ _ _ ) in Hkv; [done|].
  apply (split_pieces ";" c).
  pose proof (split_nonempty ";" c). destruct (Js.split ";" c); [done|left].
Qed.

Lemma split_render p m :
  Forall wfPair (p :: m) →
  Js.split ";" (render (p :: m)) = showPair p :: (String " " ∘ showPair <$> m).
Proof.
  revert p. induction m as [|q m IH]; intros p Hall.
  - apply Forall_cons in Hall as [Hp _].
    destruct (showPair_clean p Hp) as (Hsemi & _).
    unfold render. cbn. by apply split_absent.
  - apply Forall_cons in Hall as [Hp Hall].
    destruct (showPair_clean p Hp) as (Hsemi & _).
    unfold render in *. cbn [fmap list_fmap] in *.
    rewrite join_cons by done.
    change ("; " +:+ ?x) with (String ";" (String " " x)).
    rewrite split_app by done. f_equal.
    cbn [Js.split]. rewrite bool_decide_eq_false_2 by done.
    by rewrite IH.
Qed.

Lemma foldl_store_fresh (m acc : list (string * string)) (f : string → string) :
  (∀ s, keyValue (f s) = keyValue s) →
  Forall wfPair m → NoDup (acc ++ m).*1 →
  foldl store acc (f ∘ showPair <$> m) = acc ++ m.
Proof.
  intros Hf. revert acc. induction m as [|[k v] m IH]; intros acc Hall Hnd; cbn.
  - by rewrite app_nil_r.
  - apply Forall_cons in Hall as [Hp Hall].
    unfold store at 2. rewrite Hf, keyValue_showPair by done.
    rewrite fmap_app in Hnd. cbn in Hnd.
    rewrite Map_set_fresh.
    + rewrite IH; [by rewrite <- app_assoc|done|].
      by rewrite <- app_assoc, fmap_app.
    + apply NoDup_app in Hnd as (_ & Hdis & _). intros Hin.
      apply (Hdis k Hin). left.
Qed.

Lemma readHeader_render m : wfMap m → readHeader (render m) = m.
Proof.
  intros [Hnd Hall]. destruct m as [|p m]; [done|].
  unfold readHeader.
  assert (Js.truthy (render (p :: m)) = true) as ->.
  { apply Forall_cons in Hall as [Hp _].
    destruct (showPair_clean p Hp) as (_ & _ & _ & Hne).
    unfold Js.truthy. apply bool_decide_eq_true_2.
    unfold render. cbn [fmap list_fmap]. destruct m as [|q m].
    - done.
    - rewrite join_cons by done. destruct (showPair p); done. }
  rewrite split_render by done. cbn [foldl].
  pose proof Hall as Hall'. apply Forall_cons in Hall' as [Hp Hm].
  unfold store at 2. rewrite keyValue_showPair by done. destruct p as [k v]. cbn.
  apply (foldl_store_fresh m [(k, v)] (String " ")); [done..|].
  exact Hnd.
Qed.

Lemma readHeader_empty_wf : wfMap (readHeader "").
Proof. split; constructor. Qed.

Lemma cookieValue_mergeSetCookies m setCookieArray k :
  wfMap m →
  cookieValue (mergeSetCookies (render m) setCookieArray) k
  = latest k (Map_get k m) (default [] setCookieArray).
Proof.
  intros Hm. unfold cookieValue.
  rewrite mergeSetCookies_render, (readHeader_render m Hm).
  rewrite readHeader_render by by apply mergeMap_wf.
  apply Map_get_mergeMap.
Qed.

(** Both bootstrap requests are answered: the primer returns the merge of
    their [set-cookie] entries, whatever the status codes. *)
Lemma primeCookies_run w home nowShowing :
  replies w !! 0%nat = Some (Answer home) →
  replies w !! 1%nat = Some (Answer nowShowing) →
  primeCookies w
  = (Ok (mergeSetCookies (mergeSetCookies "" (set_cookie home))
                         (set_cookie nowShowing)),
     after [Get HOME_URL "";
            Get NOW_SHOWING_URL (mergeSetCookies "" (set_cookie home))] w).
Proof.
  intros H0 H1. unfold primeCookies, bind, axios. rewrite head_lookup, H0.
  cbn [status]. rewrite head_lookup, replies_after_lookup. cbn [length Nat.add].
  rewrite H1. cbn [status]. unfold ret. by rewrite after_after.
Qed.

(** C8. When both bootstrap requests are answered, whatever the status
    codes, the primer returns a session: the [set-cookie] entries of the
    home page merged with those of the listing page.  The session carries
    for every key the value of the last entry that names it, the entries
    of the second response coming after those of the first. *)
Theorem primeCookies_session w home nowShowing :
  replies w !! 0%nat = Some (Answer home) →
  replies w !! 1%nat = Some (Answer nowShowing) →
  let first := mergeSetCookies "" (set_cookie home) in
  let session := mergeSetCookies first (set_cookie nowShowing) in
  primeCookies w
  = (Ok session, after [Get HOME_URL ""; Get NOW_SHOWING_URL first] w) ∧
  ∀ k, cookieValue session k
       = latest k (latest k None (default [] (set_cookie home)))
                  (default [] (set_cookie nowShowing)).
Proof.
  intros H0 H1 first session. split.
  - by apply primeCookies_run.
  - intros k. unfold session, first.
    rewrite (mergeSetCookies_render "").
    rewrite cookieValue_mergeSetCookies by apply mergeMap_wf, readHeader_empty_wf.
    by rewrite Map_get_mergeMap.
Qed.
End cookie_facts.

(** ** The window fetcher *)

Section fetcher_facts.
Import RollingMonth.
Variable toYMD : Z → string.

Lemma fetchShowingsForDate_run cookieHeader ymd w :
  fetchShowingsForDate cookieHeader ymd w
  = (match failure ymd (replies w !! 0%nat) with
     | Some e => Throw e
     | None => Ok (showingsOf (replies w !! 0%nat))
     end, after [PostGraphQL cookieHeader (Some ymd)] w).
Proof.
  unfold fetchShowingsForDate, bind, axios, failure, showingsOf.
  rewrite head_lookup.
  destruct (replies w !! 0%nat) as [[|resp]|]; [done| |done]. cbn.
  destruct (decide (status resp = 403)) as [H403|H403].
  { by rewrite bool_decide_eq_true_2. }
  rewrite bool_decide_eq_false_2 by done.
  destruct (decide (200 ≤ status resp < 300)) as [Hok|Hbad].
  - rewrite !bool_decide_eq_false_2 by lia. cbn.
    destruct (error_message (data resp)) as [[|c m]|]; cbn;
      destruct (errors (data resp)) as [[|e es]|]; cbn; done.
  - destruct (decide (status resp < 200)).
    + by rewrite bool_decide_eq_true_2.
    + rewrite bool_decide_eq_false_2 by done.
      by rewrite bool_decide_eq_true_2 by lia.
Qed.

Lemma dateOf_addDays cursor i :
  dateOf toYMD (addDays cursor 1) i = dateOf toYMD cursor (S i).
Proof. unfold dateOf, addDays. f_equal. lia. Qed.

Lemma queries_S cookieHeader cursor n :
  queries toYMD cookieHeader cursor (S n)
  = PostGraphQL cookieHeader (Some (toYMD cursor))
      :: queries toYMD cookieHeader (addDays cursor 1) n.
Proof.
  unfold queries. cbn [seq fmap list_fmap]. f_equal.
  - unfold dateOf. do 3 f_equal. lia.
  - rewrite <- fmap_S_seq, <- list_fmap_compose.
    apply list_fmap_ext. intros _ i _. cbn. by rewrite dateOf_addDays.
Qed.

Lemma recordsOf_S w n req :
  recordsOf w (S n) = showingsOf (replies w !! 0%nat) ++ recordsOf (after [req] w) n.
Proof.
  unfold recordsOf. cbn [seq fmap list_fmap concat]. f_equal.
  rewrite <- fmap_S_seq, <- list_fmap_compose. f_equal.
  apply list_fmap_ext. intros _ i _. cbn [compose].
  by rewrite replies_after_lookup.
Qed.

Lemma dayFailure_None ymd reply :
  dayFailure ymd reply = None
  ↔ failure ymd reply = None ∧ existsb poisons (showingsOf reply) = false.
Proof.
  unfold dayFailure. destruct (failure ymd reply) as [e|].
  - split; [done|]. by intros [? _].
  - destruct (existsb poisons (showingsOf reply)); split; try done.
    by intros [_ ?].
Qed.

Lemma dayFailure_Some ymd reply e :
  dayFailure ymd reply = Some e
  ↔ failure ymd reply = Some e
    ∨ failure ymd reply = None ∧ existsb poisons (showingsOf reply) = true
      ∧ e = TypeError.
Proof.
  unfold dayFailure. destruct (failure ymd reply) as [e'|].
  - split; [by left|]. by intros [?|[? _]].
  - destruct (existsb poisons (showingsOf reply)); split.
    + intros [= <-]. by right.
    + by intros [?|(_ & _ & ->)].
    + done.
    + by intros [?|(_ & ? & _)].
Qed.

Lemma dateOf_0 cursor : dateOf toYMD cursor 0 = toYMD cursor.
Proof. unfold dateOf. f_equal. lia. Qed.

(** Every day passes: the loop collects every day's records, having made
    one query per day. *)
Lemma fetchWindow_succeeds cookieHeader n cursor map w :
  clean map →
  (∀ i, (i < n)%nat →
        dayFailure (dateOf toYMD cursor i) (replies w !! i) = None) →
  ∃ map',
    Js.forOf collect map (recordsOf w n) = Some map' ∧ clean map' ∧
    fetchWindow toYMD cookieHeader n cursor map w
    = (Ok map', after (queries toYMD cookieHeader cursor n) w).
Proof.
  revert cursor map w. induction n as [|n IH]; intros cursor map w Hclean Hgood.
  - exists map. cbn. by rewrite after_nil.
  - pose proof (Hgood 0%nat ltac:(lia)) as H0. rewrite dateOf_0 in H0.
    apply dayFailure_None in H0 as [Hreply Hrecords].
    destruct (forOf_collect_clean _ map Hclean Hrecords) as (map1 & Hmap1 & Hclean1).
    destruct (IH (addDays cursor 1) map1
                (after [PostGraphQL cookieHeader (Some (toYMD cursor))] w) Hclean1)
      as (map' & Hmap' & Hclean' & Hrun).
    { intros i Hi. rewrite dateOf_addDays, replies_after_lookup.
      apply Hgood. cbn. lia. }
    exists map'. split_and!; [|done|].
    + rewrite (recordsOf_S w n (PostGraphQL cookieHeader (Some (toYMD cursor)))),
        forOf_app, Hmap1. exact Hmap'.
    + cbn [fetchWindow]. unfold bind at 1. rewrite fetchShowingsForDate_run, Hreply.
      rewrite Hmap1, Hrun. by rewrite after_after, (queries_S _ _ n).
Qed.

(** Day [k] is the first that does not pass: the loop throws that day's
    error, having made the queries of the days up to [k] and none after. *)
Lemma fetchWindow_fails cookieHeader n cursor map w k e :
  clean map →
  (k < n)%nat →
  (∀ i, (i < k)%nat →
        dayFailure (dateOf toYMD cursor i) (replies w !! i) = None) →
  dayFailure (dateOf toYMD cursor k) (replies w !! k) = Some e →
  fetchWindow toYMD cookieHeader n cursor map w
  = (Throw e, after (queries toYMD cookieHeader cursor (S k)) w).
Proof.
  revert n cursor map w.
  induction k as [|k IH]; intros n cursor map w Hclean Hk Hgood Hbad.
  - destruct n as [|n]; [lia|]. cbn [fetchWindow]. unfold bind at 1.
    rewrite fetchShowingsForDate_run. rewrite dateOf_0 in Hbad.
    rewrite (queries_S _ _ 0). cbn [queries seq fmap list_fmap].
    apply dayFailure_Some in Hbad as [Hreply|(Hreply & Hrecords & ->)].
    + by rewrite Hreply.
    + rewrite Hreply.
      by rewrite (forOf_collect_poisoned _ map Hclean Hrecords).
  - destruct n as [|n]; [lia|].
    pose proof (Hgood 0%nat ltac:(lia)) as H0. rewrite dateOf_0 in H0.
    apply dayFailure_None in H0 as [Hreply Hrecords].
    destruct (forOf_collect_clean _ map Hclean Hrecords) as (map1 & Hmap1 & Hclean1).
    cbn [fetchWindow]. unfold bind at 1.
    rewrite fetchShowingsForDate_run, Hreply, Hmap1.
    rewrite (IH n _ map1 _ Hclean1 ltac:(lia)).
    + by rewrite after_after, (queries_S _ _ (S k)).
    + intros i Hi. rewrite dateOf_addDays, replies_after_lookup.
      apply Hgood. cbn. lia.
    + rewrite dateOf_addDays, replies_after_lookup. exact Hbad.
Qed.

(** The window fetcher over the 31 queries from the cursor on.  When every
    day passes it returns, after exactly 31 queries, an object that has
    for every title of the records the instants of its records, day after
    day and in the order of each answer, and no other property.  When day
    [k] is the first that does not pass (a forbidden status, another
    status outside 200..299, an error indicator in the payload, no
    response, or a record whose title makes the loop throw) it throws the
    error of that day, which tells the kinds and the date apart, and the
    queries made are those of days 0 to [k]: no later query is made.  It
    returns only when every day passed. *)
Lemma fetchWindow_all_or_nothing cookieHeader cursor w :
  ((∀ i, (i < S DAYS_AHEAD)%nat →
         dayFailure (dateOf toYMD cursor i) (replies w !! i) = None) →
   ∃ map,
     fetchWindow toYMD cookieHeader (S DAYS_AHEAD) cursor ∅ w
     = (Ok map, after (queries toYMD cookieHeader cursor 31) w) ∧
     ∀ title, map !! title = match timesFor title (recordsOf w 31) with
                             | [] => None
                             | times => Some times
                             end) ∧
  (∀ k e, (k < S DAYS_AHEAD)%nat →
          (∀ i, (i < k)%nat →
                dayFailure (dateOf toYMD cursor i) (replies w !! i) = None) →
          dayFailure (dateOf toYMD cursor k) (replies w !! k) = Some e →
          fetchWindow toYMD cookieHeader (S DAYS_AHEAD) cursor ∅ w
          = (Throw e, after (queries toYMD cookieHeader cursor (S k)) w)) ∧
  (∀ schedule w',
     fetchWindow toYMD cookieHeader (S DAYS_AHEAD) cursor ∅ w
     = (Ok schedule, w') →
     ∀ i, (i < S DAYS_AHEAD)%nat →
          dayFailure (dateOf toYMD cursor i) (replies w !! i) = None).
Proof.
  split_and!.
  - intros Hgood.
    destruct (fetchWindow_succeeds cookieHeader (S DAYS_AHEAD) cursor ∅ w
                clean_empty Hgood) as (map & Hmap & _ & Hrun).
    exists map. split; [exact Hrun|]. intros title.
    rewrite (collect_lookup _ _ _ title Hmap), lookup_empty.
    by destruct (timesFor title _).
  - intros k e. apply fetchWindow_fails, clean_empty.
  - intros schedule w' Hrun.
    assert (∀ n, (n ≤ S DAYS_AHEAD)%nat →
                 ∀ i, (i < n)%nat →
                      dayFailure (dateOf toYMD cursor i) (replies w !! i) = None)
      as H; [|by apply H].
    induction n as [|n IH]; intros Hn i Hi; [lia|].
    destruct (decide (i = n)) as [->|Hne]; [|apply IH; lia].
    destruct (dayFailure (dateOf toYMD cursor n) (replies w !! n)) as [e|] eqn:He;
      [|done].
    rewrite (fetchWindow_fails cookieHeader _ cursor ∅ w n e) in Hrun;
      [done|apply clean_empty|lia| |done].
    intros j Hj. apply IH; lia.
Qed.
End fetcher_facts.

(** ** The run *)

Section run_facts.
Import RollingMonth.
Variable getTime : string → option Z.
Variable toYMD : Z → string.
Variable toISOString : Z → string.
Variable formatDateTimeMelbourne : string → string.
Variable formatSessionMelbourne : string → string.

Lemma quiet_primeCookies : quiet primeCookies.
Proof.
  unfold primeCookies.
  apply quiet_bind; [apply quiet_axios; cbn; tauto|]. intros homeResp.
  apply quiet_bind; [apply quiet_axios; cbn; tauto|]. intros nowResp.
  apply quiet_ret.
Qed.

Lemma quiet_fetchShowingsForDate cookieHeader ymd :
  quiet (fetchShowingsForDate cookieHeader ymd).
Proof.
  intros w. exists [PostGraphQL cookieHeader (Some ymd)].
  rewrite fetchShowingsForDate_run. split; [done|].
  constructor; [cbn; tauto|constructor].
Qed.

Lemma quiet_fetchWindow cookieHeader n cursor map :
  quiet (fetchWindow toYMD cookieHeader n cursor map).
Proof.
  revert cursor map. induction n as [|n IH]; intros cursor map.
  - apply quiet_ret.
  - cbn [fetchWindow].
    apply quiet_bind; [apply quiet_fetchShowingsForDate|]. intros showings.
    destruct (Js.forOf collect map showings); [apply IH|apply quiet_throw].
Qed.

Lemma quiet_getAllShowtimesRollingMonth :
  quiet (getAllShowtimesRollingMonth getTime toYMD).
Proof.
  unfold getAllShowtimesRollingMonth.
  apply quiet_bind; [apply quiet_primeCookies|]. intros cookieHeader.
  apply quiet_bind; [apply quiet_now|]. intros cursor.
  apply quiet_bind; [apply quiet_fetchWindow|]. intros map.
  apply quiet_ret.
Qed.

(** The bootstrap requests are answered and every day of the window
    passes: the fetch stage returns the normalised records of the 31
    days. *)
Lemma getAllShowtimesRollingMonth_succeeds w home nowShowing :
  replies w !! 0%nat = Some (Answer home) →
  replies w !! 1%nat = Some (Answer nowShowing) →
  let first := mergeSetCookies "" (set_cookie home) in
  let session := mergeSetCookies first (set_cookie nowShowing) in
  let primed := after [Get HOME_URL ""; Get NOW_SHOWING_URL first] w in
  (∀ i, (i < 31)%nat →
        dayFailure (dateOf toYMD (clock w) i) (replies primed !! i) = None) →
  ∃ map,
    Js.forOf collect ∅ (recordsOf primed 31) = Some map ∧
    getAllShowtimesRollingMonth getTime toYMD w
    = (Ok (dedupeAndSort getTime map),
       after (queries toYMD session (clock w) 31) primed).
Proof.
  intros H0 H1 first session primed Hgood.
  destruct (fetchWindow_succeeds toYMD session 31 (clock primed) ∅ primed
              clean_empty Hgood) as (map & Hmap & _ & Hrun).
  exists map. split; [exact Hmap|].
  unfold getAllShowtimesRollingMonth, bind.
  rewrite (primeCookies_run w home nowShowing H0 H1).
  unfold now. fold first session primed.
  change (fetchWindow toYMD session (S DAYS_AHEAD) (clock primed) ∅ primed)
    with (fetchWindow toYMD session 31 (clock primed) ∅ primed).
  by rewrite Hrun.
Qed.

(** A schedule the fetch stage returns has no title that names a member of
    [Object.prototype]. *)
Lemma fetchWindow_clean cookieHeader n cursor map w map' w' :
  clean map →
  fetchWindow toYMD cookieHeader n cursor map w = (Ok map', w') →
  clean map'.
Proof.
  revert cursor map w. induction n as [|n IH]; intros cursor map w Hclean.
  - cbn. by intros [= <- _].
  - cbn [fetchWindow]. unfold bind at 1. rewrite fetchShowingsForDate_run.
    destruct (failure (toYMD cursor) (replies w !! 0%nat)); [done|].
    destruct (existsb poisons (showingsOf (replies w !! 0%nat))) eqn:Hp.
    + by rewrite (forOf_collect_poisoned _ map Hclean Hp).
    + destruct (forOf_collect_clean _ map Hclean Hp) as (map1 & -> & Hclean1).
      by apply IH.
Qed.

Lemma fetched_schedule_clean w schedule w' :
  getAllShowtimesRollingMonth getTime toYMD w = (Ok schedule, w') →
  clean schedule.
Proof.
  unfold getAllShowtimesRollingMonth, bind at 1.
  destruct (primeCookies w) as [[cookieHeader|e|c] w1]; [|done..].
  unfold bind at 1, now. unfold bind.
  destruct (fetchWindow toYMD cookieHeader (S DAYS_AHEAD) (clock w1) ∅ w1)
    as [[map|e|c] w2] eqn:Hrun; [|done..].
  intros [= <- _] k Hk. rewrite dedupeAndSort_lookup.
  by rewrite (fetchWindow_clean _ _ _ _ _ _ _ clean_empty Hrun k Hk).
Qed.

Lemma queries_lookup cookieHeader cursor n i :
  (i < n)%nat →
  queries toYMD cookieHeader cursor n !! i
  = Some (PostGraphQL cookieHeader (Some (dateOf toYMD cursor i))).
Proof.
  intros Hi. unfold queries. rewrite list_lookup_fmap, lookup_seq_lt by done.
  done.
Qed.

Lemma goodDay_passes ymd : dayFailure ymd (Some goodDay) = None.
Proof. by vm_compute. Qed.

(** C6, on the dates of the window.  The loop moves its cursor by one day
    of UTC, 24 hours, and renders every cursor as a day of Melbourne.  On
    the day summer time ends, which lasts 25 hours there, a run at 00:30
    has its second cursor at 23:30 of the same day: with every reply a
    success the fetch returns a schedule after 31 queries of which the
    first two carry the same date, so the queries cover 30 dates at most
    and not the 31 consecutive dates from today to today + 30.
    [fetchWindow_all_or_nothing] is the part of the claim that holds of
    the 31 queries: all pass or the first failure ends the fetch. *)
Theorem fetch_window_repeats_a_date :
  toYMD 1743859800000 = "2025-04-06" →
  toYMD (addDays 1743859800000 1) = "2025-04-06" →
  let w := mkWorld (pages ++ replicate 31 goodDay) [] None None 1743859800000 in
  ∃ schedule w',
    getAllShowtimesRollingMonth getTime toYMD w = (Ok schedule, w') ∧
    length (sent w') = 33%nat ∧
    sent w' !! 2%nat = Some (PostGraphQL "session=abc" (Some "2025-04-06")) ∧
    sent w' !! 3%nat = Some (PostGraphQL "session=abc" (Some "2025-04-06")).
Proof.
  intros Htoday Hnext w.
  destruct (getAllShowtimesRollingMonth_succeeds w
              (mkResponse 200 (Some ["session=abc; Path=/"]) noBody)
              (mkResponse 200 None noBody) eq_refl eq_refl)
    as (map & _ & Hrun).
  { intros i Hi. rewrite replies_after_lookup.
    change (replies w) with (pages ++ replicate 31 goodDay).
    rewrite (lookup_app_r pages) by (cbn; lia).
    rewrite lookup_replicate_2 by (cbn; lia). apply goodDay_passes. }
  change (mergeSetCookies
            (mergeSetCookies "" (set_cookie
               (mkResponse 200 (Some ["session=abc; Path=/"]) noBody)))
            (set_cookie (mkResponse 200 None noBody)))
    with (mergeSetCookies (mergeSetCookies "" (Some ["session=abc; Path=/"])) None)
    in Hrun.
  assert (mergeSetCookies (mergeSetCookies "" (Some ["session=abc; Path=/"])) None
          = "session=abc") as Hsession by (by vm_compute).
  rewrite Hsession in Hrun.
  eexists _, _. split; [exact Hrun|].
  cbn [sent after app]. change (sent w) with (@nil Request).
  rewrite app_nil_l. change (clock w) with 1743859800000. split_and!.
  - unfold queries. by rewrite !length_app, length_fmap, length_seq.
  - rewrite (lookup_app_r [_; _]) by (cbn; lia). cbn [length Nat.sub].
    rewrite queries_lookup by lia. by rewrite dateOf_0, Htoday.
  - rewrite (lookup_app_r [_; _]) by (cbn; lia). cbn [length Nat.sub].
    rewrite queries_lookup by lia.
    by rewrite <- dateOf_addDays, dateOf_0, Hnext.
Qed.

(** The rolling-month run whose fetch stage throws: the process exits with
    code 1, the cache is the one it started with, and the requests made
    hold no notification. *)
Lemma rolling_main_fetch_failure w e w1 :
  getAllShowtimesRollingMonth getTime toYMD w = (Throw e, w1) →
  ∃ reqs,
    runMain (main getTime toYMD toISOString formatDateTimeMelbourne
               formatSessionMelbourne) w = (1, after reqs w) ∧
    cache (after reqs w) = cache w ∧
    sent (after reqs w) = sent w ++ reqs ∧
    Forall (λ q, ¬ isNotification q) reqs.
Proof.
  intros Hfetch.
  destruct (quiet_getAllShowtimesRollingMonth w) as (reqs & Hw1 & Hq).
  rewrite Hfetch in Hw1. cbn in Hw1. subst w1.
  exists reqs. split_and!; [|done..].
  unfold runMain, main, bind, try_catch, loadCache. by rewrite Hfetch.
Qed.

(** A failed bootstrap request fails the fetch stage. *)
Lemma bootstrap_failure_throws w :
  (replies w !! 0%nat = None ∨ replies w !! 0%nat = Some NetworkError ∨
   replies w !! 1%nat = None ∨ replies w !! 1%nat = Some NetworkError) →
  ∃ w1, getAllShowtimesRollingMonth getTime toYMD w = (Throw TransportError, w1).
Proof.
  intros H. unfold getAllShowtimesRollingMonth, primeCookies, bind, axios.
  rewrite head_lookup.
  destruct (replies w !! 0%nat) as [[|r0]|] eqn:H0; [by eauto| |by eauto].
  cbn. rewrite head_lookup, lookup_drop. cbn.
  destruct (replies w !! 1%nat) as [[|r1]|] eqn:H1; [by eauto| |by eauto].
  destruct H as [?|[?|[?|?]]]; congruence.
Qed.

(** The notifier of the rolling-month monitor, with no webhook URL in the
    environment or an empty one: it throws, and no request is made. *)
Lemma rolling_sendNotification_no_url message replies sent cache clock :
  sendNotification message (mkWorld replies sent cache None clock)
  = (Throw WebhookUrlNotSet, mkWorld replies sent cache None clock) ∧
  sendNotification message (mkWorld replies sent cache (Some "") clock)
  = (Throw WebhookUrlNotSet, mkWorld replies sent cache (Some "") clock).
Proof. done. Qed.
End run_facts.

(** ** The single-query monitor and the first draft *)

Section variants.
Variable formatSession : string → string.
Variable toISOString : Z → string.
Variable formatDateTimeMelbourne : string → string.

(** C1, on the single-query monitor.  The run whose fetch is blocked ends
    with code 0, having posted a notification that reports the cached
    title as removed and having replaced the cache by the empty schedule;
    [rolling_main_fetch_failure] is the same run on the rolling-month
    monitor, which exits with code 1 and touches neither. *)
Theorem single_query_main_blocked :
  (SingleQuery.getAllShowtimesViaGraphQL formatSession blockedRun).1
  = Throw GraphQLBlocked ∧
  runMain (SingleQuery.main formatSession toISOString formatDateTimeMelbourne)
          blockedRun
  = (0, {| replies := [];
           sent := [Get "https://www.thornburypicturehouse.com.au/now-showing/" "";
                    PostGraphQL "session=abc" None;
                    PostWebhook "https://maker.ifttt.com/trigger/showtimes"
                      {| value1 := "No sessions added";
                         value2 := "SESSIONS REMOVED:<br>" +:+ Js.newline
                                   +:+ "Movie A: 3 December 7:00 pm<br>"
                                   +:+ Js.newline;
                         value3 := formatDateTimeMelbourne (toISOString 0) |}];
           cache := Some ∅;
           IFTTT_WEBHOOK_URL := Some "https://maker.ifttt.com/trigger/showtimes";
           clock := 0 |}).
Proof. split; vm_compute; reflexivity. Qed.

Lemma single_query_dedupeAndSort (map : gmap string (list string)) :
  SingleQuery.dedupeAndSort map
  = (λ arr, Js.sort Js.defaultNegative (Js.Set_from arr)) <$> map.
Proof.
  apply map_eq. intros title. rewrite lookup_fmap.
  apply (foldl_rewrite_own_keys []
           (λ arr, Js.sort Js.defaultNegative (Js.Set_from arr))).
Qed.

(** C5, on the single-query monitor.  Its normaliser orders the rendered
    strings by code units: when the rendering of 23 December precedes that
    of 3 December in that order, as "23 ..." precedes "3 ...", it comes
    first in the schedule, against the order of the time values;
    [normalised_unique_chronological] is the normaliser of the
    rolling-month monitor, which orders by time value. *)
Theorem single_query_orders_renderings :
  String.ltb (formatSession "2025-12-23T08:00:00Z")
             (formatSession "2025-12-03T08:00:00Z") = true →
  (SingleQuery.getAllShowtimesViaGraphQL formatSession listingRun).1
  = Ok {[ "Movie A" := [formatSession "2025-12-23T08:00:00Z";
                        formatSession "2025-12-03T08:00:00Z"] ]} ∧
  Iso.utcTime "2025-12-03T08:00:00Z" = Some 1764748800000 ∧
  Iso.utcTime "2025-12-23T08:00:00Z" = Some 1766476800000.
Proof.
  intros Hlt. split; [|by vm_compute].
  change ((SingleQuery.getAllShowtimesViaGraphQL formatSession listingRun).1)
    with (match Js.forOf (SingleQuery.collect formatSession) ∅
                  [mkShowing (Some "Movie A") (Some "2025-12-03T08:00:00Z");
                   mkShowing (Some "Movie A") (Some "2025-12-23T08:00:00Z")]
          with
          | Some map => Ok (SingleQuery.dedupeAndSort map)
          | None => Throw TypeError
          end).
  assert (Js.forOf (SingleQuery.collect formatSession) ∅
            [mkShowing (Some "Movie A") (Some "2025-12-03T08:00:00Z");
             mkShowing (Some "Movie A") (Some "2025-12-23T08:00:00Z")]
          = Some {[ "Movie A" := [formatSession "2025-12-03T08:00:00Z";
                                  formatSession "2025-12-23T08:00:00Z"] ]}) as ->
    by (vm_compute; reflexivity).
  rewrite single_query_dedupeAndSort, map_fmap_singleton.
  set (r3 := formatSession "2025-12-03T08:00:00Z") in *.
  set (r23 := formatSession "2025-12-23T08:00:00Z") in *.
  assert (r23 ≠ r3) as Hne.
  { intros Heq. rewrite Heq in Hlt. unfold String.ltb in Hlt.
    pose proof (String.compare_antisym r3 r3) as Hsym.
    by destruct (r3 ?= r3)%string. }
  assert (Js.sort Js.defaultNegative (Js.Set_from [r3; r23]) = [r23; r3]) as ->;
    [|done].
  unfold Js.Set_from. cbn [foldl].
  rewrite (bool_decide_eq_false_2 (r3 ∈ [])) by apply not_elem_of_nil. cbn [app].
  rewrite (bool_decide_eq_false_2 (r23 ∈ [r3]))
    by (by rewrite list_elem_of_singleton).
  unfold Js.sort. cbn [app foldl Js.insert]. unfold Js.defaultNegative.
  by rewrite Hlt.
Qed.

(** C7, on the first draft of the notifier.  With no webhook URL the call
    returns normally and no request is made;
    [rolling_sendNotification_no_url] is the notifier of the rolling-month
    monitor, which throws. *)
Theorem first_draft_sendNotification_no_url message replies sent cache clock :
  FirstDraft.sendNotification message (mkWorld replies sent cache None clock)
  = (Ok (), mkWorld replies sent cache None clock).
Proof. done. Qed.
End variants.

(** ** The diff engine *)

Section diff_facts.
Import RollingMonth.
Variable getTime : string → option Z.

Implicit Types (oldData newData showtimeMap : gmap string (list string)).
Implicit Types (title i : string) (times : list string) (now : Z).

Lemma filterPastShowtimes_lookup now showtimeMap title :
  filterPastShowtimes getTime now showtimeMap !! title
  = showtimeMap !! title ≫= future getTime now.
Proof.
  unfold filterPastShowtimes.
  apply (foldl_assigns_lookup _ (λ _, future getTime now)).
  intros acc k v. unfold future. cbn. by case_bool_decide.
Qed.

Lemma detectChanges_added now oldData newData :
  ∃ a, added (detectChanges getTime now (Some oldData) newData) = Some a ∧
    ∀ title, a !! title =
      filterPastShowtimes getTime now newData !! title
        ≫= fresh (filterPastShowtimes getTime now oldData) title.
Proof.
  eexists. split; [reflexivity|]. intros title.
  apply (foldl_assigns_lookup _ (fresh (filterPastShowtimes getTime now oldData))).
  intros acc k v. unfold fresh.
  destruct (_ !! k); [|done]. cbn. by case_bool_decide.
Qed.

Lemma detectChanges_removed now oldData newData :
  ∃ r, removed (detectChanges getTime now (Some oldData) newData) = Some r ∧
    ∀ title, r !! title =
      filterPastShowtimes getTime now oldData !! title
        ≫= fresh (filterPastShowtimes getTime now newData) title.
Proof.
  eexists. split; [reflexivity|]. intros title.
  apply (foldl_assigns_lookup _ (fresh (filterPastShowtimes getTime now newData))).
  intros acc k v. unfold fresh.
  destruct (_ !! k); [|done]. cbn. by case_bool_decide.
Qed.

Lemma future_elem now times l i :
  future getTime now times = Some l →
  i ∈ l ↔ i ∈ times ∧ isPastShowtime getTime now i = false.
Proof.
  unfold future. case_bool_decide; [|done]. intros [= <-].
  rewrite list_elem_of_filter. tauto.
Qed.

Lemma fresh_elem other title times l i :
  fresh other title times = Some l →
  i ∈ l → i ∈ times ∧ ∀ o, other !! title = Some o → i ∉ o.
Proof.
  unfold fresh. destruct (other !! title) as [o|] eqn:Ho.
  - cbn. case_bool_decide; [|done]. intros [= <-].
    rewrite list_elem_of_filter. intros [Hi Hin]. split; [done|].
    by intros ? [= <-].
  - intros [= <-] Hi. split; [done|]. intros o' [=].
Qed.

Lemma filtered_elem now showtimeMap title l i :
  filterPastShowtimes getTime now showtimeMap !! title = Some l →
  i ∈ l → isPastShowtime getTime now i = false.
Proof.
  rewrite filterPastShowtimes_lookup.
  destruct (showtimeMap !! title) as [times|]; [|done]. cbn.
  intros Hf Hi. by apply (future_elem _ _ _ _ Hf) in Hi as [_ ?].
Qed.

Lemma fresh_self m title : m !! title ≫= fresh m title = None.
Proof.
  destruct (m !! title) as [times|] eqn:Hm; [|done]. cbn.
  unfold fresh. rewrite Hm. cbn.
  destruct (filter (λ t, t ∉ times) times) as [|x l] eqn:Hf; [done|].
  assert (x ∈ filter (λ t, t ∉ times) times) as Hx by (rewrite Hf; left).
  apply list_elem_of_filter in Hx. tauto.
Qed.

Lemma countShowtimes_sum newData :
  countShowtimes newData = sum_list (length <$> (map_to_list newData).*2).
Proof.
  unfold countShowtimes.
  assert (∀ (l : list (list string)) n,
             foldl (λ sum arr, (sum + length arr)%nat) n l
             = (n + sum_list (length <$> l))%nat) as H.
  { induction l as [|x l IH]; intros n; cbn; [lia|]. rewrite IH. lia. }
  by rewrite H.
Qed.

Lemma detectChanges_changed now oldData newData a r :
  added (detectChanges getTime now (Some oldData) newData) = Some a →
  removed (detectChanges getTime now (Some oldData) newData) = Some r →
  changed (detectChanges getTime now (Some oldData) newData)
  = bool_decide (0 < size a)%nat || bool_decide (0 < size r)%nat.
Proof. cbn. by intros [= <-] [= <-]. Qed.

(** C2. An instant whose time value is strictly before [now] occurs in no
    list of [added] and in no list of [removed], whatever the two
    schedules hold. *)
Theorem detectChanges_no_past_instant now oldData newData i t :
  getTime i = Some t →
  t < now →
  ∃ a r,
    added (detectChanges getTime now (Some oldData) newData) = Some a ∧
    removed (detectChanges getTime now (Some oldData) newData) = Some r ∧
    ∀ title times,
      a !! title = Some times ∨ r !! title = Some times → i ∉ times.
Proof.
  intros Ht Hlt.
  destruct (detectChanges_added now oldData newData) as (a & Ha & Hal).
  destruct (detectChanges_removed now oldData newData) as (r & Hr & Hrl).
  exists a, r. split_and!; [done..|].
  assert (isPastShowtime getTime now i = true) as Hpast.
  { unfold isPastShowtime. rewrite Ht. by apply bool_decide_eq_true. }
  intros title times Hlook Hi.
  assert (∃ m l, filterPastShowtimes getTime now m !! title = Some l ∧ i ∈ l)
    as (m & l & Hl & Hil).
  { destruct Hlook as [Hlook|Hlook].
    - rewrite Hal in Hlook.
      destruct (filterPastShowtimes getTime now newData !! title) as [l|] eqn:Hl;
        [|done].
      exists newData, l. split; [done|].
      by apply (fresh_elem _ _ _ _ _ Hlook) in Hi as [? _].
    - rewrite Hrl in Hlook.
      destruct (filterPastShowtimes getTime now oldData !! title) as [l|] eqn:Hl;
        [|done].
      exists oldData, l. split; [done|].
      by apply (fresh_elem _ _ _ _ _ Hlook) in Hi as [? _]. }
  apply (filtered_elem _ _ _ _ _ Hl) in Hil. congruence.
Qed.

(** C3. Diffing a schedule against itself reports no change: [added] and
    [removed] are empty and [changed] is false. *)
Theorem detectChanges_self now showtimeMap :
  changed (detectChanges getTime now (Some showtimeMap) showtimeMap) = false ∧
  added (detectChanges getTime now (Some showtimeMap) showtimeMap) = Some ∅ ∧
  removed (detectChanges getTime now (Some showtimeMap) showtimeMap) = Some ∅.
Proof.
  destruct (detectChanges_added now showtimeMap showtimeMap) as (a & Ha & Hal).
  destruct (detectChanges_removed now showtimeMap showtimeMap) as (r & Hr & Hrl).
  assert (a = ∅) as ->.
  { apply map_eq. intros title. by rewrite Hal, fresh_self, lookup_empty. }
  assert (r = ∅) as ->.
  { apply map_eq. intros title. by rewrite Hrl, fresh_self, lookup_empty. }
  split_and!; [|done..].
  by rewrite (detectChanges_changed _ _ _ _ _ Ha Hr), map_size_empty.
Qed.

(** C4. Without a previous snapshot the result is the initial one, whatever
    the schedule: it is flagged [isInitial], its message is the sentence
    below with the number of titles and the total number of instants in
    decimal, and it has neither [added] nor [removed]. *)
Theorem detectChanges_initial now newData :
  let changes := detectChanges getTime now None newData in
  isInitial changes = true ∧
  changed changes = true ∧
  message changes
    = Some ("Initial check: " +:+ pretty (size (dom newData))
            +:+ " movies with "
            +:+ pretty (sum_list (length <$> (map_to_list newData).*2))
            +:+ " showtimes found") ∧
  added changes = None ∧
  removed changes = None.
Proof.
  cbv zeta. split_and!; try done.
  change (message (detectChanges getTime now None newData))
    with (Some (initialMessage (size newData) (countShowtimes newData))).
  by rewrite countShowtimes_sum, size_dom.
Qed.

(** C9. Under one title, no instant is both in the [added] list and in the
    [removed] list of the same diff. *)
Theorem detectChanges_added_removed_disjoint now
    (previous : option (gmap string (list string))) newData a r
    title la lr i :
  added (detectChanges getTime now previous newData) = Some a →
  removed (detectChanges getTime now previous newData) = Some r →
  a !! title = Some la →
  r !! title = Some lr →
  i ∈ la → i ∉ lr.
Proof.
  destruct previous as [oldData|]; [|done].
  destruct (detectChanges_added now oldData newData) as (a' & Ha & Hal).
  destruct (detectChanges_removed now oldData newData) as (r' & Hr & Hrl).
  rewrite Ha, Hr. intros [= <-] [= <-]. rewrite Hal, Hrl.
  destruct (filterPastShowtimes getTime now newData !! title) as [n|] eqn:Hn;
    [|done].
  destruct (filterPastShowtimes getTime now oldData !! title) as [o|] eqn:Ho;
    [|done].
  cbn. intros Hla Hlr Hia Hir.
  apply (fresh_elem _ _ _ _ _ Hla) in Hia as [_ Hia].
  apply (fresh_elem _ _ _ _ _ Hlr) in Hir as [Hir _].
  by apply (Hia o).
Qed.

Lemma filterPastShowtimes_keeps now showtimeMap title times i :
  showtimeMap !! title = Some times →
  i ∈ times →
  isPastShowtime getTime now i = false →
  ∃ l, filterPastShowtimes getTime now showtimeMap !! title = Some l ∧ i ∈ l.
Proof.
  intros Hm Hi Hp. rewrite filterPastShowtimes_lookup, Hm. cbn.
  assert (i ∈ filter (λ t, isPastShowtime getTime now t = false) times) as Hin.
  { by apply list_elem_of_filter. }
  unfold future. rewrite bool_decide_eq_true_2.
  - eauto.
  - destruct (filter _ times); [by apply elem_of_nil in Hin|cbn; lia].
Qed.

Lemma filterPastShowtimes_lacks now showtimeMap title i :
  (∀ times, showtimeMap !! title = Some times → i ∉ times) →
  ∀ l, filterPastShowtimes getTime now showtimeMap !! title = Some l → i ∉ l.
Proof.
  intros Hm l. rewrite filterPastShowtimes_lookup.
  destruct (showtimeMap !! title) as [times|]; [|done]. cbn.
  intros Hf Hi. apply (future_elem _ _ _ _ Hf) in Hi as [Hi _].
  by apply (Hm times).
Qed.

Lemma fresh_keeps other title times i :
  i ∈ times →
  (∀ o, other !! title = Some o → i ∉ o) →
  ∃ l, fresh other title times = Some l ∧ i ∈ l.
Proof.
  intros Hi Ho. unfold fresh. destruct (other !! title) as [o|]; [|eauto].
  cbn. assert (i ∈ filter (λ t, t ∉ o) times) as Hin.
  { apply list_elem_of_filter. split; [by apply Ho|done]. }
  rewrite bool_decide_eq_true_2; [eauto|].
  destruct (filter _ times); [by apply elem_of_nil in Hin|cbn; lia].
Qed.

(** C10. An instant that does not parse to a time value is classified as
    not past and the filter retains it; when another schedule lacks it
    under the same title it is reported, in [added] if it is in the new
    schedule and in [removed] if it is in the old one. *)
Theorem unparseable_instant_retained now showtimeMap title times i :
  getTime i = None →
  showtimeMap !! title = Some times →
  i ∈ times →
  isPastShowtime getTime now i = false ∧
  (∃ l, filterPastShowtimes getTime now showtimeMap !! title = Some l ∧ i ∈ l) ∧
  ∀ other : gmap string (list string),
    (∀ o, other !! title = Some o → i ∉ o) →
    (∃ a l, added (detectChanges getTime now (Some other) showtimeMap) = Some a ∧
            a !! title = Some l ∧ i ∈ l) ∧
    (∃ r l, removed (detectChanges getTime now (Some showtimeMap) other) = Some r ∧
            r !! title = Some l ∧ i ∈ l).
Proof.
  intros Ht Hm Hi.
  assert (isPastShowtime getTime now i = false) as Hp.
  { unfold isPastShowtime. by rewrite Ht. }
  destruct (filterPastShowtimes_keeps now _ _ _ _ Hm Hi Hp) as (l & Hl & Hil).
  split_and!; [done|by eauto|]. intros other Ho.
  pose proof (filterPastShowtimes_lacks now other title i Ho) as Hlack.
  destruct (fresh_keeps (filterPastShowtimes getTime now other) title l i Hil Hlack)
    as (d & Hd & Hid).
  split.
  - destruct (detectChanges_added now other showtimeMap) as (a & Ha & Hal).
    exists a, d. split_and!; [done| |done]. by rewrite Hal, Hl.
  - destruct (detectChanges_removed now showtimeMap other) as (r & Hr & Hrl).
    exists r, d. split_and!; [done| |done]. by rewrite Hrl, Hl.
Qed.
End diff_facts.

(** ** The statements at concrete inputs *)

Section examples.
Import RollingMonth.

(** The two scenarios of the diff engine. *)
Example scenario_added :
  let changes :=
    detectChanges Iso.utcTime jan9
      (Some {[ "Movie A" := ["2025-01-10T10:00:00Z"] ]})
      {[ "Movie A" := ["2025-01-10T10:00:00Z"; "2025-01-12T10:00:00Z"] ]} in
  added changes = Some {[ "Movie A" := ["2025-01-12T10:00:00Z"] ]} ∧
  removed changes = Some ∅ ∧ changed changes = true.
Proof. cbv zeta. split_and!; vm_compute; exact eq_refl. Qed.

Example scenario_aged_out :
  let changes :=
    detectChanges Iso.utcTime jan9
      (Some {[ "Movie B" := ["2025-01-01T10:00:00Z"] ]}) ∅ in
  added changes = Some ∅ ∧ removed changes = Some ∅ ∧ changed changes = false.
Proof. cbv zeta. split_and!; vm_compute; exact eq_refl. Qed.

Example initial_empty :
  message (detectChanges Iso.utcTime jan9 None ∅)
  = Some "Initial check: 0 movies with 0 showtimes found".
Proof. by vm_compute. Qed.

(** The forbidden status on day 5 of 31, on the rolling-month monitor: the
    run exits with code 1 after the two bootstrap requests and five
    queries, the cache is untouched and nothing is notified. *)
Example scenario_forbidden_day5 :
  let w := mkWorld ([Answer (mkResponse 200 (Some ["sid=1; Path=/"]) noBody);
                     Answer (mkResponse 200 None noBody)]
                    ++ replicate 4 goodDay ++ [blockedDay])
                   [] (Some {[ "Movie A" := ["2025-01-10T10:00:00Z"] ]})
                   (Some "https://maker.ifttt.com/trigger/showtimes") jan9 in
  let r := runMain (RollingMonth.main Iso.utcTime dayNumber dayNumber id id) w in
  r.1 = 1 ∧ cache r.2 = cache w ∧
  sent r.2 = [Get HOME_URL ""; Get NOW_SHOWING_URL "sid=1";
              PostGraphQL "sid=1" (Some "20097"); PostGraphQL "sid=1" (Some "20098");
              PostGraphQL "sid=1" (Some "20099"); PostGraphQL "sid=1" (Some "20100");
              PostGraphQL "sid=1" (Some "20101")].
Proof. cbv zeta. split_and!; vm_compute; exact eq_refl. Qed.

Lemma detectChanges_no_past_instant_witness :
  Iso.utcTime "2025-01-01T10:00:00Z" = Some 1735725600000 ∧
  1735725600000 < jan9 ∧
  ∃ a r,
    added (detectChanges Iso.utcTime jan9
             (Some {[ "Movie B" := ["2025-01-01T10:00:00Z"] ]}) ∅) = Some a ∧
    removed (detectChanges Iso.utcTime jan9
             (Some {[ "Movie B" := ["2025-01-01T10:00:00Z"] ]}) ∅) = Some r ∧
    ∀ title times,
      a !! title = Some times ∨ r !! title = Some times →
      "2025-01-01T10:00:00Z" ∉ times.
Proof.
  split; [by vm_compute|]. split; [by vm_compute|].
  apply (detectChanges_no_past_instant Iso.utcTime jan9 _ _ _ 1735725600000).
  - by vm_compute.
  - by vm_compute.
Defined.

Lemma detectChanges_added_removed_disjoint_witness :
  let oldData : gmap string (list string) :=
    {[ "Movie A" := ["2025-01-10T10:00:00Z"; "2025-01-12T10:00:00Z"] ]} in
  let newData : gmap string (list string) :=
    {[ "Movie A" := ["2025-01-12T10:00:00Z"; "2025-01-14T10:00:00Z"] ]} in
  added (detectChanges Iso.utcTime jan9 (Some oldData) newData)
  = Some {[ "Movie A" := ["2025-01-14T10:00:00Z"] ]} ∧
  removed (detectChanges Iso.utcTime jan9 (Some oldData) newData)
  = Some {[ "Movie A" := ["2025-01-10T10:00:00Z"] ]} ∧
  "2025-01-14T10:00:00Z" ∉ ["2025-01-10T10:00:00Z"].
Proof.
  intros oldData newData.
  assert (added (detectChanges Iso.utcTime jan9 (Some oldData) newData)
          = Some {[ "Movie A" := ["2025-01-14T10:00:00Z"] ]}) as Ha
    by (by vm_compute).
  assert (removed (detectChanges Iso.utcTime jan9 (Some oldData) newData)
          = Some {[ "Movie A" := ["2025-01-10T10:00:00Z"] ]}) as Hr
    by (by vm_compute).
  split_and!; [exact Ha|exact Hr|].
  apply (detectChanges_added_removed_disjoint Iso.utcTime jan9 (Some oldData) newData
           _ _ "Movie A" ["2025-01-14T10:00:00Z"] _ _ Ha Hr).
  - by vm_compute.
  - by vm_compute.
  - left.
Defined.

Lemma unparseable_instant_retained_witness :
  isPastShowtime Iso.utcTime jan9 "TBA" = false ∧
  (∃ l, filterPastShowtimes Iso.utcTime jan9 {[ "Movie A" := ["TBA"] ]} !! "Movie A"
        = Some l ∧ "TBA" ∈ l) ∧
  (∃ a l, added (detectChanges Iso.utcTime jan9 (Some ∅) {[ "Movie A" := ["TBA"] ]})
          = Some a ∧ a !! "Movie A" = Some l ∧ "TBA" ∈ l) ∧
  (∃ r l, removed (detectChanges Iso.utcTime jan9 (Some {[ "Movie A" := ["TBA"] ]}) ∅)
          = Some r ∧ r !! "Movie A" = Some l ∧ "TBA" ∈ l).
Proof.
  destruct (unparseable_instant_retained Iso.utcTime jan9
              {[ "Movie A" := ["TBA"] ]} "Movie A" ["TBA"] "TBA")
    as (Hpast & Hkept & Hreported).
  - by vm_compute.
  - by vm_compute.
  - left.
  - split_and!; [exact Hpast|exact Hkept|apply (Hreported ∅)..];
      intros o Ho; by vm_compute in Ho.
Defined.

Lemma detectChanges_initial_witness :
  message (detectChanges Iso.utcTime jan9 None
             {[ "Movie A" := ["2025-01-10T10:00:00Z"; "2025-01-12T10:00:00Z"];
                "Movie B" := ["2025-01-11T09:00:00Z"] ]})
  = Some "Initial check: 2 movies with 3 showtimes found" ∧
  message (detectChanges Iso.utcTime jan9 None ∅)
  = Some "Initial check: 0 movies with 0 showtimes found".
Proof.
  split.
  - destruct (detectChanges_initial Iso.utcTime jan9
                {[ "Movie A" := ["2025-01-10T10:00:00Z"; "2025-01-12T10:00:00Z"];
                   "Movie B" := ["2025-01-11T09:00:00Z"] ]})
      as (_ & _ & Hmessage & _).
    rewrite Hmessage. vm_compute. reflexivity.
  - destruct (detectChanges_initial Iso.utcTime jan9 ∅) as (_ & _ & Hmessage & _).
    rewrite Hmessage. vm_compute. reflexivity.
Defined.

(** The window of 31 queries: all pass, or the first day that does not
    ends the fetch with its error, be it a forbidden status or a record
    whose title the loop cannot store. *)
Example scenario_window :
  (∃ map,
     fetchWindow dayNumber "sid=1" 31 jan9 ∅ (worldOf (replicate 31 goodDay))
     = (Ok map, after (queries dayNumber "sid=1" jan9 31)
                  (worldOf (replicate 31 goodDay))) ∧
     map !! "Movie A" = Some (replicate 31 "2025-01-10T10:00:00Z")) ∧
  fetchWindow dayNumber "sid=1" 31 jan9 ∅
    (worldOf (replicate 4 goodDay ++ blockedDay :: replicate 26 goodDay))
  = (Throw (GraphQL403 "20101"),
     after (queries dayNumber "sid=1" jan9 5)
       (worldOf (replicate 4 goodDay ++ blockedDay :: replicate 26 goodDay))) ∧
  fetchWindow dayNumber "sid=1" 31 jan9 ∅
    (worldOf (replicate 4 goodDay ++ poisonedDay :: replicate 26 goodDay))
  = (Throw TypeError,
     after (queries dayNumber "sid=1" jan9 5)
       (worldOf (replicate 4 goodDay ++ poisonedDay :: replicate 26 goodDay))).
Proof.
  split_and!.
  - destruct (proj1 (fetchWindow_all_or_nothing dayNumber "sid=1" jan9
                       (worldOf (replicate 31 goodDay)))) as (map & Hrun & Hmap).
    { intros i Hi. cbn [worldOf replies].
      rewrite lookup_replicate_2 by exact Hi. by vm_compute. }
    exists map. split; [exact Hrun|]. rewrite Hmap. by vm_compute.
  - apply (proj1 (proj2 (fetchWindow_all_or_nothing dayNumber "sid=1" jan9
             (worldOf (replicate 4 goodDay ++ blockedDay :: replicate 26 goodDay))))
             4%nat (GraphQL403 "20101")).
    + unfold DAYS_AHEAD. lia.
    + intros i Hi.
      destruct i as [|[|[|[|i]]]]; [by vm_compute..|lia].
    + by vm_compute.
  - apply (proj1 (proj2 (fetchWindow_all_or_nothing dayNumber "sid=1" jan9
             (worldOf (replicate 4 goodDay ++ poisonedDay :: replicate 26 goodDay))))
             4%nat TypeError).
    + unfold DAYS_AHEAD. lia.
    + intros i Hi.
      destruct i as [|[|[|[|i]]]]; [by vm_compute..|lia].
    + by vm_compute.
Qed.

Lemma fetch_window_repeats_a_date_witness :
  let w := mkWorld (pages ++ replicate 31 goodDay) [] None None 1743859800000 in
  Melbourne.toYMD 1743859800000 = "2025-04-06" ∧
  Melbourne.toYMD (addDays 1743859800000 30) = "2025-05-05" ∧
  omap (λ q, match q with PostGraphQL _ date => date | _ => None end)
       (sent (getAllShowtimesRollingMonth Iso.utcTime Melbourne.toYMD w).2)
  = [
     "2025-04-06"; "2025-04-06"; "2025-04-07"; "2025-04-08";
     "2025-04-09"; "2025-04-10"; "2025-04-11"; "2025-04-12";
     "2025-04-13"; "2025-04-14"; "2025-04-15"; "2025-04-16";
     "2025-04-17"; "2025-04-18"; "2025-04-19"; "2025-04-20";
     "2025-04-21"; "2025-04-22"; "2025-04-23"; "2025-04-24";
     "2025-04-25"; "2025-04-26"; "2025-04-27"; "2025-04-28";
     "2025-04-29"; "2025-04-30"; "2025-05-01"; "2025-05-02";
     "2025-05-03"; "2025-05-04"; "2025-05-05"] ∧
  ∃ schedule w',
    getAllShowtimesRollingMonth Iso.utcTime Melbourne.toYMD w = (Ok schedule, w') ∧
    length (sent w') = 33%nat ∧
    sent w' !! 2%nat = Some (PostGraphQL "session=abc" (Some "2025-04-06")) ∧
    sent w' !! 3%nat = Some (PostGraphQL "session=abc" (Some "2025-04-06")).
Proof.
  intros w. split; [by vm_compute|]. split; [by vm_compute|].
  split; [vm_compute; reflexivity|].
  apply (fetch_window_repeats_a_date Iso.utcTime Melbourne.toYMD).
  - by vm_compute.
  - by vm_compute.
Defined.

Lemma primeCookies_session_witness :
  let w := worldOf [Answer (mkResponse 503 (Some ["a=1; Path=/"; "b=2"]) noBody);
                    Answer (mkResponse 404 (Some ["b=3; HttpOnly"]) noBody)] in
  primeCookies w
  = (Ok "a=1; b=3", after [Get HOME_URL ""; Get NOW_SHOWING_URL "a=1; b=2"] w) ∧
  cookieValue "a=1; b=3" "a" = Some "1" ∧
  cookieValue "a=1; b=3" "b" = Some "3".
Proof.
  intros w.
  destruct (primeCookies_session w
              (mkResponse 503 (Some ["a=1; Path=/"; "b=2"]) noBody)
              (mkResponse 404 (Some ["b=3; HttpOnly"]) noBody)
              eq_refl eq_refl) as [Hrun Hvalue].
  split; [exact Hrun|]. split.
  - exact (Hvalue "a").
  - exact (Hvalue "b").
Defined.

Lemma single_query_orders_renderings_witness :
  (SingleQuery.getAllShowtimesViaGraphQL
     (λ iso, if decide (iso = "2025-12-03T08:00:00Z")
             then "3 December 7:00 pm" else "23 December 7:00 pm")
     listingRun).1
  = Ok {[ "Movie A" := ["23 December 7:00 pm"; "3 December 7:00 pm"] ]}.
Proof.
  refine (proj1 (single_query_orders_renderings
                   (λ iso, if decide (iso = "2025-12-03T08:00:00Z")
                           then "3 December 7:00 pm" else "23 December 7:00 pm")
                   _)).
  by vm_compute.
Defined.
End examples.

(** * Further properties *)

(** ** The diff engine, title by title *)

Section diff_relations.
Import RollingMonth.
Variable getTime : string → option Z.

Implicit Types (oldData newData showtimeMap : gmap string (list string)).
Implicit Types (title i : string) (times : list string) (now : Z).

Lemma future_nonempty now times l : future getTime now times = Some l → l ≠ [].
Proof.
  unfold future. case_bool_decide as Hlen; [|done]. intros [= <-] Hnil.
  rewrite Hnil in Hlen. cbn in Hlen. lia.
Qed.

Lemma fresh_nonempty other title times l :
  times ≠ [] → fresh other title times = Some l → l ≠ [].
Proof.
  intros Hne. unfold fresh. destruct (other !! title) as [o|].
  - cbn. case_bool_decide as Hlen; [|done]. intros [= <-] Hnil.
    rewrite Hnil in Hlen. cbn in Hlen. lia.
  - by intros [= <-].
Qed.

Lemma filterPastShowtimes_nonempty now showtimeMap title l :
  filterPastShowtimes getTime now showtimeMap !! title = Some l → l ≠ [].
Proof.
  rewrite filterPastShowtimes_lookup.
  destruct (showtimeMap !! title) as [times|]; [|done]. apply future_nonempty.
Qed.

Lemma holds_filterPastShowtimes now showtimeMap title i :
  holds (filterPastShowtimes getTime now showtimeMap) title i
  ↔ holds showtimeMap title i ∧ isPastShowtime getTime now i = false.
Proof.
  split.
  - intros (l & Hl & Hi). split; [|by eapply filtered_elem].
    rewrite filterPastShowtimes_lookup in Hl.
    destruct (showtimeMap !! title) as [times|] eqn:Hm; [|done]. cbn in Hl.
    exists times. split; [done|]. by apply (future_elem _ _ _ _ _ Hl) in Hi as [? _].
  - intros [(times & Hm & Hi) Hp]. by eapply filterPastShowtimes_keeps.
Qed.

(** What one comparison loop records, as a relation: the instants of the
    one schedule that the other does not list under the title. *)
Lemma holds_fresh (this other result : gmap string (list string)) title i :
  (∀ t, result !! t = this !! t ≫= fresh other t) →
  holds result title i ↔ holds this title i ∧ ¬ holds other title i.
Proof.
  intros Hres. split.
  - intros (l & Hl & Hi). rewrite Hres in Hl.
    destruct (this !! title) as [times|] eqn:Ht; [|done]. cbn in Hl.
    destruct (fresh_elem _ _ _ _ _ Hl Hi) as [Hin Hother]. split.
    + by exists times.
    + intros (o & Ho & Hio). by apply (Hother o).
  - intros [(times & Ht & Hi) Hother].
    destruct (fresh_keeps other title times i Hi) as (l & Hl & Hil).
    { intros o Ho Hio. apply Hother. by exists o. }
    exists l. split; [|done]. by rewrite Hres, Ht.
Qed.

Lemma holds_added now oldData newData a title i :
  added (detectChanges getTime now (Some oldData) newData) = Some a →
  holds a title i
  ↔ holds newData title i ∧ isPastShowtime getTime now i = false
    ∧ ¬ holds oldData title i.
Proof.
  destruct (detectChanges_added getTime now oldData newData) as (a' & Ha & Hal).
  rewrite Ha. intros [= <-].
  rewrite (holds_fresh _ _ _ _ _ Hal), !holds_filterPastShowtimes. tauto.
Qed.

Lemma holds_removed now oldData newData r title i :
  removed (detectChanges getTime now (Some oldData) newData) = Some r →
  holds r title i
  ↔ holds oldData title i ∧ isPastShowtime getTime now i = false
    ∧ ¬ holds newData title i.
Proof.
  destruct (detectChanges_removed getTime now oldData newData) as (r' & Hr & Hrl).
  rewrite Hr. intros [= <-].
  rewrite (holds_fresh _ _ _ _ _ Hrl), !holds_filterPastShowtimes. tauto.
Qed.

Lemma added_nonempty now oldData newData a title l :
  added (detectChanges getTime now (Some oldData) newData) = Some a →
  a !! title = Some l → l ≠ [].
Proof.
  destruct (detectChanges_added getTime now oldData newData) as (a' & Ha & Hal).
  rewrite Ha. intros [= <-]. rewrite Hal.
  destruct (filterPastShowtimes getTime now newData !! title) as [times|] eqn:Hf;
    [|done].
  apply fresh_nonempty. by eapply filterPastShowtimes_nonempty.
Qed.

Lemma removed_nonempty now oldData newData r title l :
  removed (detectChanges getTime now (Some oldData) newData) = Some r →
  r !! title = Some l → l ≠ [].
Proof.
  destruct (detectChanges_removed getTime now oldData newData) as (r' & Hr & Hrl).
  rewrite Hr. intros [= <-]. rewrite Hrl.
  destruct (filterPastShowtimes getTime now oldData !! title) as [times|] eqn:Hf;
    [|done].
  apply fresh_nonempty. by eapply filterPastShowtimes_nonempty.
Qed.

Lemma holds_or_not (m : gmap string (list string)) title i :
  holds m title i ∨ ¬ holds m title i.
Proof.
  unfold holds. destruct (m !! title) as [times|]; [|right; by intros (? & [=] & ?)].
  destruct (decide (i ∈ times)); [left; eauto|right]. by intros (? & [= <-] & ?).
Qed.

(** A map of non-empty lists is empty exactly when it lists nothing. *)
Lemma empty_iff_holds_nothing (m : gmap string (list string)) :
  (∀ title l, m !! title = Some l → l ≠ []) →
  size m = 0%nat ↔ ∀ title i, ¬ holds m title i.
Proof.
  intros Hne. rewrite map_size_empty_iff. split.
  - intros -> title i (l & Hl & _). by rewrite lookup_empty in Hl.
  - intros Hnone. apply map_empty. intros title.
    destruct (m !! title) as [l|] eqn:Hl; [|done].
    destruct l as [|i l]; [by apply Hne in Hl|].
    exfalso. apply (Hnone title i). exists (i :: l). split; [done|left].
Qed.

Lemma changed_false_iff now oldData newData :
  changed (detectChanges getTime now (Some oldData) newData) = false
  ↔ ∀ title i, isPastShowtime getTime now i = false →
               (holds newData title i ↔ holds oldData title i).
Proof.
  destruct (detectChanges_added getTime now oldData newData) as (a & Ha & _).
  destruct (detectChanges_removed getTime now oldData newData) as (r & Hr & _).
  rewrite (detectChanges_changed getTime _ _ _ _ _ Ha Hr).
  rewrite orb_false_iff, !bool_decide_eq_false.
  assert (∀ n : nat, ¬ (0 < n)%nat ↔ n = 0%nat) as Hz by (intros; lia).
  rewrite !Hz.
  rewrite (empty_iff_holds_nothing a)
    by (intros ??; by apply (added_nonempty now oldData newData)).
  rewrite (empty_iff_holds_nothing r)
    by (intros ??; by apply (removed_nonempty now oldData newData)).
  split.
  - intros [Hno_a Hno_r] title i Hp.
    pose proof (Hno_a title i) as Hna. pose proof (Hno_r title i) as Hnr.
    rewrite (holds_added now oldData newData a) in Hna by done.
    rewrite (holds_removed now oldData newData r) in Hnr by done.
    split; intros Hh.
    + destruct (holds_or_not oldData title i); [done|].
      exfalso. apply Hna. by split_and!.
    + destruct (holds_or_not newData title i); [done|].
      exfalso. apply Hnr. by split_and!.
  - intros Hsame. split; intros title i.
    + rewrite (holds_added now oldData newData a) by done.
      intros (Hn & Hp & Ho). apply Ho. by apply Hsame.
    + rewrite (holds_removed now oldData newData r) by done.
      intros (Ho & Hp & Hn). apply Hn. by apply Hsame.
Qed.

(** X1. What the diff reports, title by title: an instant is in [added]
    exactly when the new schedule lists it, it is not past, and the old
    schedule does not list it under that title; [removed] is the same with
    the schedules exchanged. *)
Theorem detectChanges_reports_exactly now oldData newData title i :
  ∃ a r,
    added (detectChanges getTime now (Some oldData) newData) = Some a ∧
    removed (detectChanges getTime now (Some oldData) newData) = Some r ∧
    (holds a title i
     ↔ holds newData title i ∧ isPastShowtime getTime now i = false
       ∧ ¬ holds oldData title i) ∧
    (holds r title i
     ↔ holds oldData title i ∧ isPastShowtime getTime now i = false
       ∧ ¬ holds newData title i).
Proof.
  destruct (detectChanges_added getTime now oldData newData) as (a & Ha & _).
  destruct (detectChanges_removed getTime now oldData newData) as (r & Hr & _).
  exists a, r. split_and!; [done..| |].
  - by apply holds_added.
  - by apply holds_removed.
Qed.

(** X2. No title of [added] or [removed] carries an empty list, and none of
    a filtered schedule does. *)
Theorem detectChanges_lists_nonempty now oldData newData :
  ∃ a r,
    added (detectChanges getTime now (Some oldData) newData) = Some a ∧
    removed (detectChanges getTime now (Some oldData) newData) = Some r ∧
    ∀ title l,
      a !! title = Some l ∨ r !! title = Some l
      ∨ filterPastShowtimes getTime now newData !! title = Some l →
      l ≠ [].
Proof.
  destruct (detectChanges_added getTime now oldData newData) as (a & Ha & _).
  destruct (detectChanges_removed getTime now oldData newData) as (r & Hr & _).
  exists a, r. split_and!; [done..|]. intros title l [Hl|[Hl|Hl]].
  - by eapply added_nonempty.
  - by eapply removed_nonempty.
  - by eapply filterPastShowtimes_nonempty.
Qed.

(** X3. [changed] is false exactly when the two schedules list the same
    instants that are not past under every title: order and repetition
    within a list, and all past instants, are immaterial. *)
Theorem detectChanges_changed_iff_future_differs now oldData newData :
  changed (detectChanges getTime now (Some oldData) newData) = false
  ↔ ∀ title i, isPastShowtime getTime now i = false →
               (holds newData title i ↔ holds oldData title i).
Proof. apply changed_false_iff. Qed.

Lemma filterPastShowtimes_twice now showtimeMap :
  filterPastShowtimes getTime now (filterPastShowtimes getTime now showtimeMap)
  = filterPastShowtimes getTime now showtimeMap.
Proof.
  apply map_eq. intros title. rewrite !filterPastShowtimes_lookup.
  destruct (showtimeMap !! title) as [times|]; [|done]. cbn.
  destruct (future getTime now times) as [l|] eqn:Hl; [|done]. cbn.
  unfold future in *. case_bool_decide as Hlen; [|done]. injection Hl as <-.
  rewrite list_filter_filter_l by done. by rewrite bool_decide_eq_true_2.
Qed.

(** X4. The future-only filter is idempotent, and of each title it keeps
    the instants that are not past, in their order. *)
Theorem filterPastShowtimes_idempotent now showtimeMap :
  filterPastShowtimes getTime now (filterPastShowtimes getTime now showtimeMap)
  = filterPastShowtimes getTime now showtimeMap ∧
  (∀ title i,
     holds (filterPastShowtimes getTime now showtimeMap) title i
     ↔ holds showtimeMap title i ∧ isPastShowtime getTime now i = false) ∧
  (∀ title l,
     filterPastShowtimes getTime now showtimeMap !! title = Some l →
     ∃ times, showtimeMap !! title = Some times ∧ l `sublist_of` times).
Proof.
  split_and!.
  - apply filterPastShowtimes_twice.
  - intros title i. apply holds_filterPastShowtimes.
  - intros title l. rewrite filterPastShowtimes_lookup.
    destruct (showtimeMap !! title) as [times|]; [|done]. cbn.
    unfold future. case_bool_decide; [|done]. intros [= <-].
    exists times. split; [done|]. apply sublist_filter.
Qed.

Lemma filterPastShowtimes_empty now : filterPastShowtimes getTime now ∅ = ∅.
Proof.
  apply map_eq. intros title. by rewrite filterPastShowtimes_lookup, !lookup_empty.
Qed.

Lemma against_empty_new now oldData :
  added (detectChanges getTime now (Some oldData) ∅) = Some ∅ ∧
  removed (detectChanges getTime now (Some oldData) ∅)
  = Some (filterPastShowtimes getTime now oldData).
Proof.
  destruct (detectChanges_added getTime now oldData ∅) as (a & Ha & Hal).
  destruct (detectChanges_removed getTime now oldData ∅) as (r & Hr & Hrl).
  rewrite Ha, Hr. split; f_equal; apply map_eq; intros title.
  - by rewrite Hal, filterPastShowtimes_empty, !lookup_empty.
  - rewrite Hrl, filterPastShowtimes_empty.
    destruct (filterPastShowtimes getTime now oldData !! title) as [l|]; [|done].
    cbn. unfold fresh. by rewrite lookup_empty.
Qed.

(** X5. Against an empty new schedule the diff adds nothing and removes the
    whole future part of the old one; against an empty old schedule it adds
    the whole future part of the new one and removes nothing. *)
Theorem detectChanges_against_empty now showtimeMap :
  added (detectChanges getTime now (Some showtimeMap) ∅) = Some ∅ ∧
  removed (detectChanges getTime now (Some showtimeMap) ∅)
  = Some (filterPastShowtimes getTime now showtimeMap) ∧
  added (detectChanges getTime now (Some ∅) showtimeMap)
  = Some (filterPastShowtimes getTime now showtimeMap) ∧
  removed (detectChanges getTime now (Some ∅) showtimeMap) = Some ∅.
Proof.
  destruct (against_empty_new now showtimeMap) as [Ha Hr].
  split_and!; [done..| |].
  - destruct (detectChanges_added getTime now ∅ showtimeMap) as (a & Ha' & Hal).
    rewrite Ha'. f_equal. apply map_eq. intros title.
    rewrite Hal, filterPastShowtimes_empty.
    destruct (filterPastShowtimes getTime now showtimeMap !! title) as [l|]; [|done].
    cbn. unfold fresh. by rewrite lookup_empty.
  - destruct (detectChanges_removed getTime now ∅ showtimeMap) as (r & Hr' & Hrl).
    rewrite Hr'. f_equal. apply map_eq. intros title.
    by rewrite Hrl, filterPastShowtimes_empty, !lookup_empty.
Qed.
End diff_relations.

(** ** The normaliser, title by title *)

Section normaliser_relations.
Import RollingMonth.
Variable getTime : string → option Z.

Lemma normalised_lookup (showings : list Showing) map title :
  Js.forOf collect ∅ showings = Some map →
  dedupeAndSort getTime map !! title
  = match timesFor title showings with
    | [] => None
    | l => Some (Js.sort (λ a b, negative (byTime getTime a b)) (Js.Set_from l))
    end.
Proof.
  intros Hmap.
  rewrite dedupeAndSort_lookup, (collect_lookup _ _ _ title Hmap), lookup_empty.
  by destruct (timesFor title showings).
Qed.

Lemma holds_normalised (showings : list Showing) map title i :
  Js.forOf collect ∅ showings = Some map →
  holds (dedupeAndSort getTime map) title i
  ↔ ∃ s, s ∈ showings ∧ Js.trim <$> movie_name s = Some title ∧ title ≠ ""
         ∧ time s = Some i ∧ i ≠ "".
Proof.
  intros Hmap.
  rewrite <- elem_of_timesFor. unfold holds. rewrite (normalised_lookup _ _ _ Hmap).
  destruct (timesFor title showings) as [|t l] eqn:Ht.
  - split; [by intros (? & [=] & ?)|]. by intros ?%elem_of_nil.
  - split.
    + intros (times & [= <-] & Hi).
      by rewrite sort_Permutation, Set_from_elem in Hi.
    + intros Hi. eexists. split; [done|].
      by rewrite sort_Permutation, Set_from_elem.
Qed.

Lemma normalised_nonempty (showings : list Showing) map title :
  Js.forOf collect ∅ showings = Some map →
  dedupeAndSort getTime map !! title ≠ Some [].
Proof.
  intros Hmap. rewrite (normalised_lookup _ _ _ Hmap).
  destruct (timesFor title showings) as [|t l] eqn:Ht; [done|].
  intros [= Hnil].
  assert (t ∈ Js.sort (λ a b, negative (byTime getTime a b)) (Js.Set_from (t :: l)))
    as Hin by (rewrite sort_Permutation, Set_from_elem; left).
  rewrite Hnil in Hin. by apply elem_of_nil in Hin.
Qed.

(** What it is for a record to poison, and for one of a list to. *)
Lemma poisons_true s :
  poisons s = true
  ↔ ∃ title i, Js.trim <$> movie_name s = Some title ∧ title ≠ ""
               ∧ time s = Some i ∧ i ≠ "" ∧ title ∈ Js.ObjectPrototype.
Proof.
  unfold poisons, Js.truthy, Js.inherited.
  destruct (Js.trim <$> movie_name s) as [movie|];
    [|split; [done|by intros (? & ? & [=] & _)]].
  destruct (time s) as [iso|];
    [|split; [done|by intros (? & ? & _ & _ & [=] & _)]].
  rewrite !andb_true_iff, !bool_decide_eq_true. split.
  - intros [[? ?] ?]. by exists movie, iso.
  - by intros (? & ? & [= <-] & ? & [= <-] & ? & ?).
Qed.

Lemma existsb_poisons showings :
  existsb poisons showings = true
  ↔ ∃ s title i, s ∈ showings ∧ Js.trim <$> movie_name s = Some title
                 ∧ title ≠ "" ∧ time s = Some i ∧ i ≠ ""
                 ∧ title ∈ Js.ObjectPrototype.
Proof.
  rewrite existsb_exists. split.
  - intros (s & Hs%list_elem_of_In & (title & i & H)%poisons_true).
    by exists s, title, i.
  - intros (s & title & i & Hs & H). exists s. split; [by apply list_elem_of_In|].
    apply poisons_true. by exists title, i.
Qed.

Lemma forOf_collect_outcome (showings : list Showing) :
  match Js.forOf collect ∅ showings with
  | None => existsb poisons showings = true
  | Some map => existsb poisons showings = false
  end.
Proof.
  destruct (existsb poisons showings) eqn:Hp.
  - by rewrite (forOf_collect_poisoned _ ∅ clean_empty Hp).
  - by destruct (forOf_collect_clean _ ∅ clean_empty Hp) as (map & -> & _).
Qed.

(** X6. The loop over the records and the normaliser, for every list of
    records.  The loop throws exactly when a record it keeps has a title
    that names a member of [Object.prototype], such as "constructor": no
    schedule is built then.  Otherwise the normalised schedule lists an
    instant under a title exactly when some record carries that instant
    and, trimmed, that title, both being non-empty: records without a
    title or a time are skipped and nothing else is lost or invented, and
    no title carries an empty list. *)
Theorem normalised_lists_exactly (showings : list Showing) :
  match Js.forOf collect ∅ showings with
  | None =>
      ∃ s title i, s ∈ showings ∧ Js.trim <$> movie_name s = Some title
                   ∧ title ≠ "" ∧ time s = Some i ∧ i ≠ ""
                   ∧ title ∈ Js.ObjectPrototype
  | Some map =>
      (∀ s title i, s ∈ showings → Js.trim <$> movie_name s = Some title →
                    title ≠ "" → time s = Some i → i ≠ "" →
                    title ∉ Js.ObjectPrototype) ∧
      ∀ title,
        (∀ i, holds (dedupeAndSort getTime map) title i
              ↔ ∃ s, s ∈ showings ∧ Js.trim <$> movie_name s = Some title
                     ∧ title ≠ "" ∧ time s = Some i ∧ i ≠ "") ∧
        dedupeAndSort getTime map !! title ≠ Some []
  end.
Proof.
  pose proof (forOf_collect_outcome showings) as Hout.
  destruct (Js.forOf collect ∅ showings) as [map|] eqn:Hmap.
  - split.
    + intros s title i Hs Hname Htitle Htime Hi Hproto.
      assert (existsb poisons showings = true) as Hp; [|congruence].
      apply existsb_poisons. by exists s, title, i.
    + intros title. split.
      * intros i. by apply (holds_normalised showings).
      * by apply (normalised_nonempty showings).
  - by apply existsb_poisons.
Qed.

Lemma Set_from_acc_NoDup (arr acc : list string) :
  NoDup (acc ++ arr) →
  foldl (λ set x, if bool_decide (x ∈ set) then set else set ++ [x]) acc arr
  = acc ++ arr.
Proof.
  revert acc. induction arr as [|x arr IH]; intros acc Hnd; cbn.
  - by rewrite app_nil_r.
  - rewrite bool_decide_eq_false_2.
    + rewrite IH; by rewrite <- app_assoc.
    + apply NoDup_app in Hnd as (_ & Hdis & _). intros Hx.
      apply (Hdis x Hx). left.
Qed.

Lemma Set_from_NoDup_id (arr : list string) : NoDup arr → Js.Set_from arr = arr.
Proof. intros Hnd. by apply (Set_from_acc_NoDup arr []). Qed.

Lemma insert_last {A} (neg : A → A → bool) x (l : list A) :
  Forall (λ y, neg x y = false) l → Js.insert neg x l = l ++ [x].
Proof.
  induction l as [|y l IH]; intros Hall; cbn; [done|].
  apply Forall_cons in Hall as [-> Hall]. by rewrite IH.
Qed.

Lemma sort_acc_sorted_id {A} (neg : A → A → bool) (arr acc : list A) :
  StronglySorted (λ y x, neg x y = false) (acc ++ arr) →
  foldl (λ sorted x, Js.insert neg x sorted) acc arr = acc ++ arr.
Proof.
  revert acc. induction arr as [|x arr IH]; intros acc Hs; cbn.
  - by rewrite app_nil_r.
  - rewrite insert_last.
    + rewrite IH; by rewrite <- app_assoc.
    + apply StronglySorted_app in Hs as (Hcross & _ & _).
      apply Forall_forall. intros y Hy. apply Hcross; [done|left].
Qed.

Lemma chronological_sort_id (l : list string) :
  StronglySorted (timeLe getTime) l →
  Js.sort (λ a b, negative (byTime getTime a b)) l = l.
Proof.
  intros Hs. apply (sort_acc_sorted_id _ l []). cbn.
  induction Hs as [|x l Hs IH Hall]; constructor; [done|].
  eapply Forall_impl; [exact Hall|]. intros y Hxy. unfold timeLe in Hxy.
  unfold byTime. destruct (getTime x), (getTime y); try done. cbn.
  apply bool_decide_eq_false_2. lia.
Qed.

(** X7. Normalising a normalised schedule changes nothing, when the
    instants have time values. *)
Theorem dedupeAndSort_idempotent (map : gmap string (list string)) :
  (∀ title times i, map !! title = Some times → i ∈ times → parses getTime i) →
  dedupeAndSort getTime (dedupeAndSort getTime map) = dedupeAndSort getTime map.
Proof.
  intros Hparse. apply map_eq. intros title.
  rewrite dedupeAndSort_lookup.
  destruct (dedupeAndSort getTime map !! title) as [times|] eqn:Hlook; [|done].
  cbn. f_equal.
  destruct (dedupeAndSort_unique_sorted getTime _ _ _ Hlook) as [Hnd Hsorted].
  rewrite Set_from_NoDup_id by done. apply chronological_sort_id, Hsorted.
  apply Forall_forall. intros i Hi.
  rewrite dedupeAndSort_lookup in Hlook.
  destruct (map !! title) as [arr|] eqn:Harr; [|done]. injection Hlook as <-.
  rewrite sort_Permutation, Set_from_elem in Hi. by apply (Hparse title arr).
Qed.
End normaliser_relations.

(** ** Cookie headers *)

Section cookie_headers.
Import RollingMonth.
Implicit Types (k header c : string) (m : list (string * string)).

Lemma foldl_store_wf (pieces : list string) m :
  Forall (λ p, occurs ";" p = false) pieces → wfMap m → wfMap (foldl store m pieces).
Proof.
  revert m. induction pieces as [|p pieces IH]; intros m Hall Hm; [done|].
  apply Forall_cons in Hall as [Hp Hall]. cbn. apply IH; [done|].
  unfold store. destruct (keyValue p) as [[k v]|] eqn:Hkv; [|done].
  apply Map_set_wf; [done|]. by apply (keyValue_wf p).
Qed.

Lemma readHeader_wf header : wfMap (readHeader header).
Proof.
  unfold readHeader. destruct (Js.truthy header); [|split; constructor].
  apply foldl_store_wf; [|split; constructor].
  apply Forall_forall. intros p. apply split_pieces.
Qed.

Lemma readHeader_mergeSetCookies header setCookieArray :
  readHeader (mergeSetCookies header setCookieArray)
  = mergeMap (readHeader header) (default [] setCookieArray).
Proof.
  rewrite mergeSetCookies_render. apply readHeader_render, mergeMap_wf, readHeader_wf.
Qed.

(** X8. Merging into any cookie header: afterwards a key carries the value
    of the last [set-cookie] entry that names it, and the value it had in
    the header when no entry names it. *)
Theorem mergeSetCookies_lookup header setCookieArray k :
  cookieValue (mergeSetCookies header setCookieArray) k
  = latest k (cookieValue header k) (default [] setCookieArray).
Proof.
  unfold cookieValue. rewrite readHeader_mergeSetCookies. apply Map_get_mergeMap.
Qed.

(** X9. The header the merge writes names every key once, and merging
    nothing into it gives it back: the merge is idempotent on its own
    output. *)
Theorem mergeSetCookies_normal_form header setCookieArray :
  NoDup (readHeader (mergeSetCookies header setCookieArray)).*1 ∧
  mergeSetCookies (mergeSetCookies header setCookieArray) None
  = mergeSetCookies header setCookieArray ∧
  mergeSetCookies (mergeSetCookies header setCookieArray) (Some [])
  = mergeSetCookies header setCookieArray.
Proof.
  pose proof (mergeMap_wf (readHeader header) (default [] setCookieArray)
                (readHeader_wf header)) as Hwf.
  split_and!.
  - rewrite readHeader_mergeSetCookies. apply Hwf.
  - rewrite (mergeSetCookies_render (mergeSetCookies _ _)).
    rewrite readHeader_mergeSetCookies. by rewrite mergeSetCookies_render.
  - rewrite (mergeSetCookies_render (mergeSetCookies _ _)).
    rewrite readHeader_mergeSetCookies. by rewrite mergeSetCookies_render.
Qed.

Lemma first_piece_twice c :
  hd "" (Js.split ";" (hd "" (Js.split ";" c))) = hd "" (Js.split ";" c).
Proof.
  pose proof (split_nonempty ";" c) as Hne.
  destruct (Js.split ";" c) as [|p ps] eqn:Hsplit; [done|]. cbn.
  rewrite split_absent; [done|]. apply (split_pieces ";" c). rewrite Hsplit. left.
Qed.

(** X10. Of a [set-cookie] entry only the part before the first semicolon
    counts, so attributes never become cookies; and an entry whose name is
    empty changes nothing. *)
Theorem mergeSetCookies_ignores header (entries more : list string) c :
  mergeSetCookies header (Some entries)
  = mergeSetCookies header (Some ((λ c, hd "" (Js.split ";" c)) <$> entries)) ∧
  (keyValue (hd "" (Js.split ";" c)) = None →
   mergeSetCookies header (Some (entries ++ c :: more))
   = mergeSetCookies header (Some (entries ++ more))).
Proof.
  split.
  - rewrite !mergeSetCookies_render. f_equal.
    change (default [] (Some entries)) with entries.
    change (default [] (Some ((λ c, hd "" (Js.split ";" c)) <$> entries)))
      with ((λ c, hd "" (Js.split ";" c)) <$> entries).
    unfold mergeMap. generalize (readHeader header). induction entries as [|e entries IH]; intros m;
      [done|].
    cbn. rewrite first_piece_twice. apply IH.
  - intros Hkv. rewrite !mergeSetCookies_render. f_equal.
    change (default [] (Some (entries ++ c :: more))) with (entries ++ c :: more).
    change (default [] (Some (entries ++ more))) with (entries ++ more).
    unfold mergeMap. rewrite !foldl_app. cbn [foldl]. unfold store at 2.
    by rewrite Hkv.
Qed.
End cookie_headers.

(** ** The bootstrap requests *)

Section bootstrap.
Import RollingMonth.

(** X11. The primer fails only at the transport: when the home page is not
    answered it throws after that one request, the listing page not being
    asked for; when the listing page is not answered it throws after the
    two requests. *)
Theorem primeCookies_fails w :
  (replies w !! 0%nat = None ∨ replies w !! 0%nat = Some NetworkError →
   primeCookies w = (Throw TransportError, after [Get HOME_URL ""] w)) ∧
  (∀ home,
     replies w !! 0%nat = Some (Answer home) →
     replies w !! 1%nat = None ∨ replies w !! 1%nat = Some NetworkError →
     primeCookies w
     = (Throw TransportError,
        after [Get HOME_URL "";
               Get NOW_SHOWING_URL (mergeSetCookies "" (set_cookie home))] w)).
Proof.
  split.
  - intros H0. unfold primeCookies, bind, axios. rewrite head_lookup.
    by destruct H0 as [-> | ->].
  - intros home H0 H1. unfold primeCookies, bind, axios.
    rewrite head_lookup, H0. cbn [status].
    rewrite head_lookup, replies_after_lookup. cbn [length Nat.add].
    destruct H1 as [-> | ->]; by rewrite after_after.
Qed.
End bootstrap.

(** ** The fetch stage as a whole *)

Section fetch_stage.
Import RollingMonth.
Variable getTime : string → option Z.
Variable toYMD : Z → string.

Lemma sends_ret {A} (a : A) : sends 0 (ret a).
Proof. intros w. exists []. by rewrite after_nil. Qed.

Lemma sends_now : sends 0 now.
Proof. intros w. exists []. by rewrite after_nil. Qed.

Lemma sends_axios v req : ¬ isNotification req → sends 1 (axios v req).
Proof.
  intros Hreq w. exists [req]. split_and!; [|done|by constructor].
  unfold axios. destruct (head (replies w)) as [[|resp]|]; try done.
  by destruct (v (status resp)).
Qed.

Lemma sends_bind {A B} n1 n2 (m : M A) (k : A → M B) :
  sends n1 m → (∀ a, sends n2 (k a)) → sends (n1 + n2) (bind m k).
Proof.
  intros Hm Hk w. destruct (Hm w) as (r1 & Hw1 & Hn1 & H1). unfold bind.
  destruct (m w) as [[a|e|c] w1]; cbn in Hw1; subst w1.
  - destruct (Hk a (after r1 w)) as (r2 & Hw2 & Hn2 & H2).
    exists (r1 ++ r2). rewrite Hw2, after_after, length_app.
    split_and!; [done|lia|by apply Forall_app].
  - exists r1. split_and!; [done|lia|done].
  - exists r1. split_and!; [done|lia|done].
Qed.

Lemma sends_throw {A} n (e : Error) : sends n (throw (A := A) e).
Proof.
  intros w. exists []. rewrite after_nil. split_and!; [done|cbn; lia|done].
Qed.

Lemma sends_fetchShowingsForDate cookieHeader ymd :
  sends 1 (fetchShowingsForDate cookieHeader ymd).
Proof.
  intros w. exists [PostGraphQL cookieHeader (Some ymd)].
  rewrite fetchShowingsForDate_run. split_and!; [done|done|].
  constructor; [by intros []|constructor].
Qed.

Lemma sends_fetchWindow cookieHeader n cursor map :
  sends n (fetchWindow toYMD cookieHeader n cursor map).
Proof.
  revert cursor map. induction n as [|n IH]; intros cursor map.
  - apply sends_ret.
  - cbn [fetchWindow]. change (S n) with (1 + n)%nat.
    apply sends_bind; [apply sends_fetchShowingsForDate|]. intros showings.
    destruct (Js.forOf collect map showings); [apply IH|apply sends_throw].
Qed.

Lemma sends_primeCookies : sends 2 primeCookies.
Proof.
  unfold primeCookies. change 2%nat with (1 + (1 + 0))%nat.
  apply sends_bind; [apply sends_axios; by intros []|]. intros homeResp.
  apply sends_bind; [apply sends_axios; by intros []|]. intros nowResp.
  apply sends_ret.
Qed.

Lemma sends_getAllShowtimesRollingMonth :
  sends 33 (getAllShowtimesRollingMonth getTime toYMD).
Proof.
  unfold getAllShowtimesRollingMonth.
  change 33%nat with (2 + (0 + (31 + 0)))%nat.
  apply sends_bind; [apply sends_primeCookies|]. intros cookieHeader.
  apply sends_bind; [apply sends_now|]. intros cursor.
  apply sends_bind; [apply sends_fetchWindow|]. intros map.
  apply sends_ret.
Qed.

(** X12. Whatever the replies, the fetch stage makes at most 33 requests
    (two pages and 31 queries), none of them to the webhook, and it leaves
    the cache, the environment and the clock as they were. *)
Theorem fetch_stage_requests w :
  ∃ reqs,
    (getAllShowtimesRollingMonth getTime toYMD w).2 = after reqs w ∧
    (length reqs ≤ 33)%nat ∧
    Forall (λ q, ¬ isNotification q) reqs.
Proof. apply sends_getAllShowtimesRollingMonth. Qed.

Lemma recordsOf_poisons w n i :
  (i < n)%nat →
  existsb poisons (recordsOf w n) = false →
  existsb poisons (showingsOf (replies w !! i)) = false.
Proof.
  intros Hi Hall.
  destruct (existsb poisons (showingsOf (replies w !! i))) eqn:Hday; [|done].
  apply existsb_exists in Hday as (s & Hin & Hp).
  assert (existsb poisons (recordsOf w n) = true) as Htrue; [|congruence].
  apply existsb_exists. exists s. split; [|done].
  unfold recordsOf. apply in_concat.
  exists (showingsOf (replies w !! i)). split; [|done].
  apply list_elem_of_In, list_elem_of_fmap. exists i. split; [done|].
  apply elem_of_seq. lia.
Qed.

Lemma days_pass w n (date : nat → string) :
  (∀ i, (i < n)%nat → failure (date i) (replies w !! i) = None) →
  (∀ s title i, s ∈ recordsOf w n → Js.trim <$> movie_name s = Some title →
                title ≠ "" → time s = Some i → i ≠ "" →
                title ∉ Js.ObjectPrototype) →
  ∀ i, (i < n)%nat → dayFailure (date i) (replies w !! i) = None.
Proof.
  intros Hreplies Htitles i Hi. apply dayFailure_None. split; [by apply Hreplies|].
  apply (recordsOf_poisons w n i Hi).
  destruct (existsb poisons (recordsOf w n)) eqn:Hp; [|done].
  apply existsb_poisons in Hp as (s & title & j & Hs & Hname & Htitle & Htime & Hj & Hproto).
  by destruct (Htitles s title j).
Qed.

Lemma getAllShowtimesRollingMonth_fails w home nowShowing k e :
  replies w !! 0%nat = Some (Answer home) →
  replies w !! 1%nat = Some (Answer nowShowing) →
  let first := mergeSetCookies "" (set_cookie home) in
  let session := mergeSetCookies first (set_cookie nowShowing) in
  let primed := after [Get HOME_URL ""; Get NOW_SHOWING_URL first] w in
  (k < 31)%nat →
  (∀ i, (i < k)%nat →
        dayFailure (dateOf toYMD (clock w) i) (replies primed !! i) = None) →
  dayFailure (dateOf toYMD (clock w) k) (replies primed !! k) = Some e →
  getAllShowtimesRollingMonth getTime toYMD w
  = (Throw e, after (queries toYMD session (clock w) (S k)) primed).
Proof.
  intros H0 H1 first session primed Hk Hgood Hbad.
  unfold getAllShowtimesRollingMonth, bind.
  rewrite (primeCookies_run w home nowShowing H0 H1).
  unfold now. fold first session primed.
  change (fetchWindow toYMD session (S DAYS_AHEAD) (clock primed) ∅ primed)
    with (fetchWindow toYMD session 31 (clock primed) ∅ primed).
  by rewrite (fetchWindow_fails toYMD session 31 (clock primed) ∅ primed k e
                clean_empty Hk Hgood Hbad).
Qed.

(** X13. When the two pages are answered, the reply of no day of the window
    fails, and no record that carries a title and a time has a title that
    names a member of [Object.prototype], the fetch stage returns a
    schedule that lists an instant under a title exactly when a record of
    one of the 31 answers carries them. *)
Theorem fetch_stage_schedule w home nowShowing :
  replies w !! 0%nat = Some (Answer home) →
  replies w !! 1%nat = Some (Answer nowShowing) →
  let first := mergeSetCookies "" (set_cookie home) in
  let primed := after [Get HOME_URL ""; Get NOW_SHOWING_URL first] w in
  (∀ i, (i < 31)%nat →
        failure (dateOf toYMD (clock w) i) (replies primed !! i) = None) →
  (∀ s title i, s ∈ recordsOf primed 31 → Js.trim <$> movie_name s = Some title →
                title ≠ "" → time s = Some i → i ≠ "" →
                title ∉ Js.ObjectPrototype) →
  ∃ schedule,
    (getAllShowtimesRollingMonth getTime toYMD w).1 = Ok schedule ∧
    ∀ title i,
      holds schedule title i
      ↔ ∃ s, s ∈ recordsOf primed 31 ∧ Js.trim <$> movie_name s = Some title
             ∧ title ≠ "" ∧ time s = Some i ∧ i ≠ "".
Proof.
  intros H0 H1 first primed Hreplies Htitles.
  destruct (getAllShowtimesRollingMonth_succeeds getTime toYMD w home nowShowing
              H0 H1 (days_pass primed 31 _ Hreplies Htitles))
    as (map & Hmap & Hrun).
  rewrite Hrun. eexists. split; [done|]. intros title i.
  by apply (holds_normalised getTime (recordsOf primed 31)).
Qed.

(** X30. When the two pages are answered and day [k] of the window is the
    first that does not pass, the fetch stage throws the error of that day
    after the two pages and the queries of days 0 to [k], and makes no
    later query.  A day does not pass when its reply fails (no response, a
    forbidden status, another status outside 200..299, an error in the
    payload) and also when its reply is a success with a record whose
    title names a member of [Object.prototype], such as "constructor":
    the error is then the [TypeError] of the loop that stores the
    records. *)
Theorem fetch_stage_first_failure w home nowShowing k e :
  replies w !! 0%nat = Some (Answer home) →
  replies w !! 1%nat = Some (Answer nowShowing) →
  let first := mergeSetCookies "" (set_cookie home) in
  let session := mergeSetCookies first (set_cookie nowShowing) in
  let primed := after [Get HOME_URL ""; Get NOW_SHOWING_URL first] w in
  (k < 31)%nat →
  (∀ i, (i < k)%nat →
        dayFailure (dateOf toYMD (clock w) i) (replies primed !! i) = None) →
  dayFailure (dateOf toYMD (clock w) k) (replies primed !! k) = Some e →
  getAllShowtimesRollingMonth getTime toYMD w
  = (Throw e, after (queries toYMD session (clock w) (S k)) primed) ∧
  (e = TypeError
   ↔ failure (dateOf toYMD (clock w) k) (replies primed !! k) = None).
Proof.
  intros H0 H1 first session primed Hk Hgood Hbad. split.
  - by apply getAllShowtimesRollingMonth_fails.
  - apply dayFailure_Some in Hbad as [Hreply|(Hreply & _ & ->)]; [|done].
    rewrite Hreply. split; [|done]. intros ->.
    unfold failure in Hreply.
    destruct (replies primed !! k) as [[|resp]|]; [done| |done].
    destruct (decide (status resp = 403)); [done|].
    destruct (decide (200 ≤ status resp < 300)); [|done].
    by destruct (error_message (data resp)) as [[|c m]|],
                (errors (data resp)) as [[|x xs]|].
Qed.
End fetch_stage.

(** ** The notifiers *)

Section notifiers.
Import RollingMonth.

Lemma sendNotification_run message w :
  sendNotification message w
  = match IFTTT_WEBHOOK_URL w with
    | Some (String c u) =>
        (match replies w !! 0%nat with
         | Some (Answer resp) =>
             if successStatus (status resp) then Ok ()
             else Throw (BadStatus (status resp))
         | _ => Throw TransportError
         end, after [PostWebhook (String c u) message] w)
    | _ => (Throw WebhookUrlNotSet, w)
    end.
Proof.
  unfold sendNotification, bind, getEnv_IFTTT_WEBHOOK_URL, axios.
  destruct (IFTTT_WEBHOOK_URL w) as [[|c u]|]; [done| |done].
  rewrite <- head_lookup.
  change (default "" (Some (String c u))) with (String c u).
  change (negb (Js.truthy (String c u))) with false. cbv beta iota.
  destruct (head (replies w)) as [[|resp]|]; [done| |done].
  by destruct (successStatus (status resp)).
Qed.

Lemma successStatus_accepted (w : World) :
  accepted (replies w !! 0%nat)
  ↔ ∃ resp, replies w !! 0%nat = Some (Answer resp)
            ∧ successStatus (status resp) = true.
Proof.
  unfold accepted, successStatus. split; intros (resp & Hr & Hs); exists resp;
    (split; [done|]).
  - rewrite andb_true_iff, !bool_decide_eq_true. lia.
  - rewrite andb_true_iff, !bool_decide_eq_true in Hs. lia.
Qed.

(** X14. With a webhook URL the notifier makes exactly one request, the post
    of the message to that URL, whatever the reply: it returns when the
    reply is an answer with a status in 200..299 and throws otherwise,
    without a second attempt. *)
Theorem sendNotification_one_request message w url :
  IFTTT_WEBHOOK_URL w = Some url →
  url ≠ "" →
  ∃ r,
    sendNotification message w = (r, after [PostWebhook url message] w) ∧
    (r = Ok () ↔ accepted (replies w !! 0%nat)) ∧
    (r = Ok () ∨ ∃ e, r = Throw e).
Proof.
  intros Hurl Hne. rewrite sendNotification_run, Hurl.
  destruct url as [|c u]; [done|]. eexists. split; [done|].
  rewrite successStatus_accepted.
  destruct (replies w !! 0%nat) as [[|resp]|].
  - split; [|by eauto]. split; [done|]. by intros (? & [=] & _).
  - destruct (successStatus (status resp)) eqn:Hs.
    + split; [|by left]. split; [by eauto|done].
    + split; [|by eauto]. split; [done|]. intros (? & [= <-] & ?). congruence.
  - split; [|by eauto]. split; [done|]. by intros (? & [=] & _).
Qed.

(** X15. The first draft of the notifier never throws: whatever the
    environment and the reply it returns normally, having made no request
    or the one post, and the cache is as it was. *)
Theorem first_draft_sendNotification_never_throws message w :
  ∃ w',
    FirstDraft.sendNotification message w = (Ok (), w') ∧
    cache w' = cache w ∧
    (sent w' = sent w ∨ ∃ url, sent w' = sent w ++ [PostWebhook url message]).
Proof.
  unfold FirstDraft.sendNotification, bind, getEnv_IFTTT_WEBHOOK_URL, try_catch,
    axios.
  destruct (IFTTT_WEBHOOK_URL w) as [[|c u]|].
  - exists w. split_and!; [done..|by left].
  - change (default "" (Some (String c u))) with (String c u).
    change (negb (Js.truthy (String c u))) with false. cbv beta iota.
    exists (after [PostWebhook (String c u) message] w).
    split_and!; [|done|right; by eexists].
    destruct (head (replies w)) as [[|resp]|]; [done| |done].
    by destruct (successStatus (status resp)).
  - exists w. split_and!; [done..|by left].
Qed.
End notifiers.

(** ** The run after the fetch stage *)

Section run_relations.
Import RollingMonth.
Variable getTime : string → option Z.
Variable toYMD : Z → string.
Variable toISOString : Z → string.
Variable formatDateTimeMelbourne : string → string.
Variable formatSessionMelbourne : string → string.

Lemma rolling_main_after_fetch w newData w1 :
  getAllShowtimesRollingMonth getTime toYMD w = (Ok newData, w1) →
  main getTime toYMD toISOString formatDateTimeMelbourne formatSessionMelbourne w
  = bind (if changed (detectChanges getTime (clock w1) (cache w) newData)
          then sendNotification
                 (formatMessage formatDateTimeMelbourne formatSessionMelbourne
                    (detectChanges getTime (clock w1) (cache w) newData)
                    (toISOString (clock w1)))
          else ret ())
         (λ _, saveCache newData) w1.
Proof.
  intros Hfetch. unfold main, bind at 1, loadCache. unfold bind at 1, try_catch.
  rewrite Hfetch. unfold bind at 1, now. unfold bind at 1.
  by destruct (changed _).
Qed.

Lemma fetch_keeps w r w1 :
  getAllShowtimesRollingMonth getTime toYMD w = (r, w1) →
  cache w1 = cache w ∧ IFTTT_WEBHOOK_URL w1 = IFTTT_WEBHOOK_URL w
  ∧ clock w1 = clock w.
Proof.
  intros Hfetch.
  destruct (sends_getAllShowtimesRollingMonth getTime toYMD w)
    as (reqs & Hw1 & _).
  rewrite Hfetch in Hw1. cbn in Hw1. by subst w1.
Qed.

(** X16. A run whose fetch succeeded and found a change, but whose
    notification fails (no webhook URL, or a post that is not answered with
    a status in 200..299): it ends with code 1 and the cache is not
    written, so the fetched schedule is lost to the next run. *)
Theorem rolling_main_notification_failure w newData w1 :
  getAllShowtimesRollingMonth getTime toYMD w = (Ok newData, w1) →
  changed (detectChanges getTime (clock w1) (cache w) newData) = true →
  IFTTT_WEBHOOK_URL w = None ∨ IFTTT_WEBHOOK_URL w = Some ""
  ∨ ¬ accepted (replies w1 !! 0%nat) →
  ∃ w2,
    runMain (main getTime toYMD toISOString formatDateTimeMelbourne
               formatSessionMelbourne) w = (1, w2) ∧
    cache w2 = cache w.
Proof.
  intros Hfetch Hchanged Hfail.
  destruct (fetch_keeps _ _ _ Hfetch) as (Hcache & Hurl & _).
  unfold runMain. rewrite (rolling_main_after_fetch _ _ _ Hfetch), Hchanged.
  unfold bind. rewrite sendNotification_run, Hurl.
  destruct (IFTTT_WEBHOOK_URL w) as [[|c u]|]; [by eauto| |by eauto].
  destruct Hfail as [?|[?|Hfail]]; [done..|].
  rewrite successStatus_accepted in Hfail.
  destruct (replies w1 !! 0%nat) as [[|resp]|]; [by eauto| |by eauto].
  destruct (successStatus (status resp)) eqn:Hs; [|by eauto].
  exfalso. apply Hfail. by exists resp.
Qed.

(** X17. A run whose fetch succeeded and whose fetched schedule lists the
    same instants that are not past as the cache: it posts nothing, writes
    the fetched schedule to the cache and ends with code 0. *)
Theorem rolling_main_unchanged w oldData newData w1 :
  getAllShowtimesRollingMonth getTime toYMD w = (Ok newData, w1) →
  cache w = Some oldData →
  (∀ title i, isPastShowtime getTime (clock w) i = false →
              (holds newData title i ↔ holds oldData title i)) →
  ∃ w2,
    runMain (main getTime toYMD toISOString formatDateTimeMelbourne
               formatSessionMelbourne) w = (0, w2) ∧
    cache w2 = Some newData ∧ sent w2 = sent w1.
Proof.
  intros Hfetch Hcache Hsame.
  destruct (fetch_keeps _ _ _ Hfetch) as (_ & _ & Hclock).
  unfold runMain. rewrite (rolling_main_after_fetch _ _ _ Hfetch), Hcache, Hclock.
  rewrite (proj2 (changed_false_iff getTime (clock w) oldData newData) Hsame).
  eexists. by split_and!.
Qed.

(** X18. A run whose fetch succeeded and found a change, with a webhook URL
    and a post answered with a status in 200..299: it makes that one post
    after the fetch, writes the fetched schedule to the cache and ends with
    code 0. *)
Theorem rolling_main_notifies w newData w1 url :
  getAllShowtimesRollingMonth getTime toYMD w = (Ok newData, w1) →
  changed (detectChanges getTime (clock w1) (cache w) newData) = true →
  IFTTT_WEBHOOK_URL w = Some url →
  url ≠ "" →
  accepted (replies w1 !! 0%nat) →
  ∃ w2 message,
    runMain (main getTime toYMD toISOString formatDateTimeMelbourne
               formatSessionMelbourne) w = (0, w2) ∧
    cache w2 = Some newData ∧
    sent w2 = sent w1 ++ [PostWebhook url message] ∧
    message = formatMessage formatDateTimeMelbourne formatSessionMelbourne
                (detectChanges getTime (clock w1) (cache w) newData)
                (toISOString (clock w1)).
Proof.
  intros Hfetch Hchanged Hurl Hne Hok.
  destruct (fetch_keeps _ _ _ Hfetch) as (_ & Hurl1 & _).
  unfold runMain. rewrite (rolling_main_after_fetch _ _ _ Hfetch), Hchanged.
  unfold bind. rewrite sendNotification_run, Hurl1, Hurl.
  destruct url as [|c u]; [done|].
  apply successStatus_accepted in Hok as (resp & -> & ->).
  eexists _, _. by split_and!.
Qed.

(** X19. A run without a cache always has a change to report, whatever was
    fetched, an empty schedule included: it ends with code 0 and a written
    cache only after a post to the webhook, and otherwise with code 1 and
    still no cache. *)
Theorem rolling_main_first_run w newData w1 :
  getAllShowtimesRollingMonth getTime toYMD w = (Ok newData, w1) →
  cache w = None →
  ∃ code w2,
    runMain (main getTime toYMD toISOString formatDateTimeMelbourne
               formatSessionMelbourne) w = (code, w2) ∧
    (code = 0 ∧ cache w2 = Some newData ∧
       (∃ url message, sent w2 = sent w1 ++ [PostWebhook url message])
     ∨ code = 1 ∧ cache w2 = None).
Proof.
  intros Hfetch Hcache.
  destruct (fetch_keeps _ _ _ Hfetch) as (Hcache1 & _ & _).
  unfold runMain. rewrite (rolling_main_after_fetch _ _ _ Hfetch), Hcache.
  cbn [detectChanges changed]. unfold bind. rewrite sendNotification_run.
  destruct (IFTTT_WEBHOOK_URL w1) as [[|c u]|].
  - eexists _, _. split; [done|]. right. by rewrite Hcache1.
  - destruct (replies w1 !! 0%nat) as [[|resp]|].
    + eexists _, _. split; [done|]. right. by rewrite <- Hcache.
    + destruct (successStatus (status resp)).
      * eexists _, _. split; [done|]. left. split_and!; [done..|]. by eexists _, _.
      * eexists _, _. split; [done|]. right. by rewrite <- Hcache.
    + eexists _, _. split; [done|]. right. by rewrite <- Hcache.
  - eexists _, _. split; [done|]. right. by rewrite Hcache1.
Qed.
End run_relations.

(** ** The single-query monitor *)

Section code_units.

Lemma ascii_compare_lt_trans a b c :
  Ascii.compare a b = Lt → Ascii.compare b c = Lt → Ascii.compare a c = Lt.
Proof. unfold Ascii.compare. rewrite !N.compare_lt_iff. lia. Qed.

Lemma string_compare_lt_trans x : ∀ y z,
  String.compare x y = Lt → String.compare y z = Lt → String.compare x z = Lt.
Proof.
  induction x as [|a x IH]; intros [|b y] [|c z]; cbn; try done.
  destruct (Ascii.compare a b) eqn:Hab; [| |done].
  - apply Ascii.compare_eq_iff in Hab as ->.
    destruct (Ascii.compare b c); [apply IH|done|done].
  - intros _. destruct (Ascii.compare b c) eqn:Hbc; [| |done].
    + apply Ascii.compare_eq_iff in Hbc as <-. by rewrite Hab.
    + by rewrite (ascii_compare_lt_trans a b c).
Qed.

Global Instance codeLe_trans : Transitive codeLe.
Proof.
  intros x y z. unfold codeLe. intros Hxy Hyz.
  destruct (String.compare x y) eqn:E1; [| |done].
  - by apply String.compare_eq_iff in E1 as ->.
  - destruct (String.compare y z) eqn:E2; [| |done].
    + apply String.compare_eq_iff in E2 as <-. by rewrite E1.
    + by rewrite (string_compare_lt_trans x y z).
Qed.

Lemma codeLe_strict (l : list string) :
  StronglySorted codeLe l → NoDup l → StronglySorted codeLt l.
Proof.
  induction 1 as [|x l Hs IH Hall]; intros Hnd; constructor.
  - apply IH. by apply NoDup_cons in Hnd as [_ ?].
  - apply NoDup_cons in Hnd as [Hx _]. apply Forall_forall. intros y Hy.
    rewrite Forall_forall in Hall. specialize (Hall y Hy).
    unfold codeLe in Hall. unfold codeLt, String.ltb.
    destruct (String.compare x y) eqn:E; [|done|done].
    by apply String.compare_eq_iff in E as ->.
Qed.

Lemma default_sort_ascending (arr : list string) :
  NoDup arr → StronglySorted codeLt (Js.sort Js.defaultNegative arr).
Proof.
  intros Hnd. apply codeLe_strict; [|by rewrite sort_Permutation].
  apply (sort_sorted _ (λ _, True) codeLe).
  - intros x y _ _. unfold Js.defaultNegative, String.ltb, codeLe.
    by destruct (String.compare x y).
  - intros x y _ _. unfold Js.defaultNegative, String.ltb, codeLe.
    rewrite (String.compare_antisym y x). by destruct (String.compare x y).
  - by apply Forall_true.
Qed.
End code_units.

Section single_query.
Variable formatSession : string → string.
Variable toISOString : Z → string.
Variable formatDateTimeMelbourne : string → string.

Lemma sends_getCookieHeader : sends 1 SingleQuery.getCookieHeader.
Proof.
  unfold SingleQuery.getCookieHeader. change 1%nat with (1 + 0)%nat.
  apply sends_bind; [apply sends_axios; by intros []|]. intros resp.
  apply sends_ret.
Qed.

Lemma sends_single_query_fetch :
  sends 2 (SingleQuery.getAllShowtimesViaGraphQL formatSession).
Proof.
  unfold SingleQuery.getAllShowtimesViaGraphQL.
  change 2%nat with (1 + (1 + 0))%nat.
  apply sends_bind; [apply sends_getCookieHeader|]. intros cookieHeader.
  apply sends_bind; [apply sends_axios; by intros []|]. intros resp.
  destruct (bool_decide (status resp = 403)); [apply sends_throw|].
  destruct (_ || _); [apply sends_throw|]. cbv zeta.
  destruct (bool_decide _); [apply sends_throw|].
  destruct (Js.forOf _ _ _); [apply sends_ret|apply sends_throw].
Qed.

Lemma single_query_fetch_run w page resp :
  replies w !! 0%nat = Some (Answer page) →
  replies w !! 1%nat = Some (Answer resp) →
  200 ≤ status resp < 300 →
  default [] (errors (data resp)) = [] →
  (SingleQuery.getAllShowtimesViaGraphQL formatSession w).1
  = match Js.forOf (SingleQuery.collect formatSession) ∅
            (default [] (showings (data resp))) with
    | Some map => Ok (SingleQuery.dedupeAndSort map)
    | None => Throw TypeError
    end.
Proof.
  intros H0 H1 Hst Herr.
  unfold SingleQuery.getAllShowtimesViaGraphQL, SingleQuery.getCookieHeader,
    bind, axios, ret.
  rewrite head_lookup, H0. cbn [status].
  rewrite head_lookup, replies_after_lookup. cbn [length Nat.add].
  rewrite H1. cbn [status].
  rewrite !bool_decide_eq_false_2 by lia. cbn [orb]. rewrite Herr. cbn.
  by destruct (Js.forOf _ _ _).
Qed.

Lemma single_query_collect_kept (map : gmap string (list string)) s movie iso :
  Js.trim <$> movie_name s = Some movie →
  time s = Some iso →
  Js.truthy movie && Js.truthy iso = true →
  SingleQuery.collect formatSession map s
  = match map !! movie with
    | Some arr => Some (<[movie := arr ++ [formatSession iso]]> map)
    | None => if Js.inherited movie then None
              else Some (<[movie := [formatSession iso]]> map)
    end.
Proof.
  intros Hname Htime Hkept. unfold SingleQuery.collect, Js.truthyAt.
  rewrite Hname, Htime, Hkept. cbv zeta.
  destruct (map !! movie) as [arr|] eqn:Hm.
  - rewrite bool_decide_eq_true_2 by eauto. cbn. by rewrite Hm.
  - rewrite bool_decide_eq_false_2 by (by intros [? ?]). cbn.
    destruct (Js.inherited movie); cbn.
    + by rewrite Hm.
    + by rewrite lookup_insert_eq, insert_insert_eq.
Qed.

Lemma single_query_collect_step_lookup (map map' : gmap string (list string))
    s title :
  SingleQuery.collect formatSession map s = Some map' →
  map' !! title = match formatSession <$> timesFor title [s] with
                  | [] => map !! title
                  | l => Some (default [] (map !! title) ++ l)
                  end.
Proof.
  unfold timesFor. cbn [omap list_omap].
  destruct (Js.trim <$> movie_name s) as [movie|] eqn:Hname;
    [|unfold SingleQuery.collect; rewrite Hname; by intros [= <-]].
  destruct (time s) as [iso|] eqn:Htime;
    [|unfold SingleQuery.collect; rewrite Hname, Htime; by intros [= <-]].
  destruct (Js.truthy movie && Js.truthy iso) eqn:Hkept;
    [|unfold SingleQuery.collect; rewrite Hname, Htime, Hkept; by intros [= <-]].
  rewrite (single_query_collect_kept map s movie iso Hname Htime Hkept). cbn.
  case_bool_decide as Htitle; cbn.
  - subst title. destruct (map !! movie) as [arr|] eqn:Hm.
    + intros [= <-]. by rewrite lookup_insert_eq.
    + destruct (Js.inherited movie); [done|]. intros [= <-].
      by rewrite lookup_insert_eq.
  - destruct (map !! movie) as [arr|].
    + intros [= <-]. by rewrite lookup_insert_ne.
    + destruct (Js.inherited movie); [done|]. intros [= <-].
      by rewrite lookup_insert_ne.
Qed.

Lemma single_query_collect_lookup (showings : list Showing)
    (map map' : gmap string (list string)) title :
  Js.forOf (SingleQuery.collect formatSession) map showings = Some map' →
  map' !! title
  = match map !! title, formatSession <$> timesFor title showings with
    | Some l, extra => Some (l ++ extra)
    | None, [] => None
    | None, extra => Some extra
    end.
Proof.
  revert map. induction showings as [|s showings IH]; intros map.
  - cbn. intros [= <-]. destruct (map !! title); by rewrite ?app_nil_r.
  - cbn [Js.forOf].
    destruct (SingleQuery.collect formatSession map s) as [map1|] eqn:Hstep;
      [|done].
    intros Hrest. rewrite (IH _ Hrest), timesFor_cons, fmap_app.
    rewrite (single_query_collect_step_lookup _ _ _ title Hstep).
    destruct (formatSession <$> timesFor title [s]) as [|t l]; [done|].
    destruct (map !! title) as [old|]; cbn; [|done].
    by rewrite <- app_assoc.
Qed.

Lemma single_query_collect_clean (map : gmap string (list string)) s :
  clean map → poisons s = false →
  ∃ map', SingleQuery.collect formatSession map s = Some map' ∧ clean map'.
Proof.
  intros Hclean. unfold poisons.
  destruct (Js.trim <$> movie_name s) as [movie|] eqn:Hname;
    [|intros _; exists map; unfold SingleQuery.collect; by rewrite Hname].
  destruct (time s) as [iso|] eqn:Htime;
    [|intros _; exists map; unfold SingleQuery.collect; by rewrite Hname, Htime].
  destruct (Js.truthy movie && Js.truthy iso) eqn:Hkept;
    [|intros _; exists map; unfold SingleQuery.collect;
      by rewrite Hname, Htime, Hkept].
  cbn. intros Hinh.
  rewrite (single_query_collect_kept map s movie iso Hname Htime Hkept), Hinh.
  destruct (map !! movie) as [arr|] eqn:Hm.
  - eexists. split; [done|]. intros k Hk.
    rewrite lookup_insert_ne by congruence. by apply Hclean.
  - eexists. split; [done|]. intros k Hk.
    rewrite lookup_insert_ne by congruence. by apply Hclean.
Qed.

Lemma single_query_collect_poisoned (map : gmap string (list string)) s :
  clean map → poisons s = true → SingleQuery.collect formatSession map s = None.
Proof.
  intros Hclean. unfold poisons.
  destruct (Js.trim <$> movie_name s) as [movie|] eqn:Hname; [|done].
  destruct (time s) as [iso|] eqn:Htime; [|done].
  destruct (Js.truthy movie && Js.truthy iso) eqn:Hkept; [|done].
  cbn. intros Hinh.
  rewrite (single_query_collect_kept map s movie iso Hname Htime Hkept).
  by rewrite (Hclean movie Hinh), Hinh.
Qed.

Lemma single_query_forOf_outcome (showings : list Showing)
    (map : gmap string (list string)) :
  clean map →
  match Js.forOf (SingleQuery.collect formatSession) map showings with
  | None => existsb poisons showings = true
  | Some map' => existsb poisons showings = false
  end.
Proof.
  revert map. induction showings as [|s showings IH]; intros map Hclean; cbn;
    [done|].
  destruct (poisons s) eqn:Hs.
  - by rewrite (single_query_collect_poisoned map s Hclean Hs).
  - destruct (single_query_collect_clean map s Hclean Hs) as (map1 & -> & Hclean1).
    cbn. by apply IH.
Qed.

Lemma holds_single_query_normalised (showings : list Showing) map title f :
  Js.forOf (SingleQuery.collect formatSession) ∅ showings = Some map →
  holds (SingleQuery.dedupeAndSort map) title f
  ↔ ∃ s i, s ∈ showings ∧ Js.trim <$> movie_name s = Some title ∧ title ≠ ""
           ∧ time s = Some i ∧ i ≠ "" ∧ f = formatSession i.
Proof.
  intros Hmap.
  assert (f ∈ formatSession <$> timesFor title showings
          ↔ ∃ s i, s ∈ showings ∧ Js.trim <$> movie_name s = Some title
                   ∧ title ≠ "" ∧ time s = Some i ∧ i ≠ "" ∧ f = formatSession i)
    as <-.
  { rewrite list_elem_of_fmap. split.
    - intros (i & -> & (s & Hs & Hn & Ht & Hi & Hne)%elem_of_timesFor).
      exists s, i. by split_and!.
    - intros (s & i & Hs & Hn & Ht & Hi & Hne & ->). exists i. split; [done|].
      apply elem_of_timesFor. exists s. by split_and!. }
  unfold holds.
  rewrite single_query_dedupeAndSort, lookup_fmap,
    (single_query_collect_lookup _ _ _ title Hmap), lookup_empty.
  destruct (formatSession <$> timesFor title showings) as [|t l] eqn:Ht.
  - split; [by intros (? & [=] & ?)|]. by intros ?%elem_of_nil.
  - change ((λ arr, Js.sort Js.defaultNegative (Js.Set_from arr)) <$> Some (t :: l))
      with (Some (Js.sort Js.defaultNegative (Js.Set_from (t :: l)))).
    split.
    + intros (times & [= <-] & Hi).
      by rewrite sort_Permutation, Set_from_elem in Hi.
    + intros Hi. eexists. split; [done|].
      by rewrite sort_Permutation, Set_from_elem.
Qed.

(** X20. Whatever the replies, the fetch of [monitor.js] makes at most two
    requests (the listing page and one query), none of them to the webhook,
    and it leaves the cache, the environment and the clock as they were. *)
Theorem single_query_fetch_requests w :
  ∃ reqs,
    (SingleQuery.getAllShowtimesViaGraphQL formatSession w).2 = after reqs w ∧
    (length reqs ≤ 2)%nat ∧
    Forall (λ q, ¬ isNotification q) reqs.
Proof. apply sends_single_query_fetch. Qed.

(** X21. The fetch of [monitor.js] when the page is answered and the query
    is answered with a status in 200..299 and no error list.  When no
    record that carries a title and a time has a title that names a member
    of [Object.prototype], it returns a schedule that lists a string under
    a title exactly when it is the rendering of the instant of a record
    with that title, trimmed, both being non-empty.  When some record has
    such a title, "constructor" for one, it throws the [TypeError] of the
    loop that stores the records. *)
Theorem single_query_schedule w page resp :
  replies w !! 0%nat = Some (Answer page) →
  replies w !! 1%nat = Some (Answer resp) →
  200 ≤ status resp < 300 →
  default [] (errors (data resp)) = [] →
  let records := default [] (showings (data resp)) in
  ((∀ s title i, s ∈ records → Js.trim <$> movie_name s = Some title →
                 title ≠ "" → time s = Some i → i ≠ "" →
                 title ∉ Js.ObjectPrototype) →
   ∃ schedule,
     (SingleQuery.getAllShowtimesViaGraphQL formatSession w).1 = Ok schedule ∧
     ∀ title f,
       holds schedule title f
       ↔ ∃ s i, s ∈ records ∧ Js.trim <$> movie_name s = Some title
                ∧ title ≠ "" ∧ time s = Some i ∧ i ≠ "" ∧ f = formatSession i) ∧
  ((∃ s title i, s ∈ records ∧ Js.trim <$> movie_name s = Some title
                 ∧ title ≠ "" ∧ time s = Some i ∧ i ≠ ""
                 ∧ title ∈ Js.ObjectPrototype) →
   (SingleQuery.getAllShowtimesViaGraphQL formatSession w).1 = Throw TypeError).
Proof.
  intros H0 H1 Hst Herr records.
  rewrite (single_query_fetch_run w page resp H0 H1 Hst Herr). fold records.
  pose proof (single_query_forOf_outcome records ∅ clean_empty) as Hout.
  destruct (Js.forOf (SingleQuery.collect formatSession) ∅ records)
    as [map|] eqn:Hmap.
  - split.
    + intros _. eexists. split; [done|]. intros title f.
      by apply (holds_single_query_normalised records).
    + intros Hp%existsb_poisons. congruence.
  - split; [|done]. intros Htitles.
    apply existsb_poisons in Hout
      as (s & title & i & Hs & Hname & Htitle & Htime & Hi & Hproto).
    by destruct (Htitles s title i).
Qed.

(** X22. The normaliser of [monitor.js] leaves every title with a list that
    is free of duplicates and strictly ascending in the order of the code
    units of its strings. *)
Theorem single_query_lists_ascending (map : gmap string (list string)) title times :
  SingleQuery.dedupeAndSort map !! title = Some times →
  NoDup times ∧ StronglySorted codeLt times.
Proof.
  rewrite single_query_dedupeAndSort, lookup_fmap.
  destruct (map !! title) as [arr|]; [|done]. cbn. intros [= <-]. split.
  - rewrite sort_Permutation. apply Set_from_NoDup.
  - apply default_sort_ascending, Set_from_NoDup.
Qed.

Lemma single_query_added oldData newData :
  ∃ a, RollingMonth.added (SingleQuery.detectChanges (Some oldData) newData) = Some a ∧
    ∀ title, a !! title = newData !! title ≫= fresh oldData title.
Proof.
  eexists. split; [reflexivity|]. intros title.
  apply (foldl_assigns_lookup _ (fresh oldData)).
  intros acc k v. unfold fresh.
  destruct (_ !! k); [|done]. cbn. by case_bool_decide.
Qed.

Lemma single_query_removed oldData newData :
  ∃ r, RollingMonth.removed (SingleQuery.detectChanges (Some oldData) newData) = Some r ∧
    ∀ title, r !! title = oldData !! title ≫= fresh newData title.
Proof.
  eexists. split; [reflexivity|]. intros title.
  apply (foldl_assigns_lookup _ (fresh newData)).
  intros acc k v. unfold fresh.
  destruct (_ !! k); [|done]. cbn. by case_bool_decide.
Qed.

(** X23. What the diff of [monitor.js] reports, title by title: a string is
    in [added] exactly when the new schedule lists it and the old one does
    not list it under that title, and [removed] is the same with the
    schedules exchanged; no session is left out for being past. *)
Theorem single_query_detectChanges_reports_exactly oldData newData title i :
  ∃ a r,
    RollingMonth.added (SingleQuery.detectChanges (Some oldData) newData) = Some a ∧
    RollingMonth.removed (SingleQuery.detectChanges (Some oldData) newData) = Some r ∧
    (holds a title i ↔ holds newData title i ∧ ¬ holds oldData title i) ∧
    (holds r title i ↔ holds oldData title i ∧ ¬ holds newData title i).
Proof.
  destruct (single_query_added oldData newData) as (a & Ha & Hal).
  destruct (single_query_removed oldData newData) as (r & Hr & Hrl).
  exists a, r. split_and!; [done|done| |].
  - by apply holds_fresh.
  - by apply holds_fresh.
Qed.

(** X24. The diff of the rolling-month monitor is the diff of [monitor.js]
    taken on the two schedules without their past instants; on a first run
    the two agree on the schedule as it is. *)
Theorem detectChanges_is_diff_of_filtered getTime now oldData newData :
  RollingMonth.detectChanges getTime now (Some oldData) newData
  = SingleQuery.detectChanges
      (Some (RollingMonth.filterPastShowtimes getTime now oldData))
      (RollingMonth.filterPastShowtimes getTime now newData) ∧
  RollingMonth.detectChanges getTime now None newData
  = SingleQuery.detectChanges None newData.
Proof. split; reflexivity. Qed.


Lemma single_query_main_after_failure w e w1 :
  SingleQuery.getAllShowtimesViaGraphQL formatSession w = (Throw e, w1) →
  SingleQuery.main formatSession toISOString formatDateTimeMelbourne w
  = bind (if RollingMonth.changed (SingleQuery.detectChanges (cache w1) ∅)
          then RollingMonth.sendNotification
                 (SingleQuery.formatMessage formatDateTimeMelbourne
                    (SingleQuery.detectChanges (cache w1) ∅)
                    (toISOString (clock w1)))
          else ret ())
         (λ _, saveCache ∅) w1.
Proof.
  intros Hfetch. unfold SingleQuery.main, bind at 1. unfold try_catch.
  rewrite Hfetch. unfold ret at 1. unfold bind at 1, loadCache.
  unfold bind at 1. by destruct (RollingMonth.changed _).
Qed.

Lemma single_query_fetch_keeps w r w1 :
  SingleQuery.getAllShowtimesViaGraphQL formatSession w = (r, w1) →
  cache w1 = cache w ∧ IFTTT_WEBHOOK_URL w1 = IFTTT_WEBHOOK_URL w
  ∧ clock w1 = clock w.
Proof.
  intros Hfetch. destruct (sends_single_query_fetch w) as (reqs & Hw1 & _).
  rewrite Hfetch in Hw1. cbn in Hw1. by subst w1.
Qed.

(** X25. A failed fetch of [monitor.js] is never reported as such: the run
    goes on with an empty schedule, and it ends either with code 0 and the
    cache replaced by the empty schedule, or with code 1 and the cache as
    it was, when the notification failed in its turn. *)
Theorem single_query_main_fetch_failure w e :
  (SingleQuery.getAllShowtimesViaGraphQL formatSession w).1 = Throw e →
  ∃ code w2,
    runMain (SingleQuery.main formatSession toISOString formatDateTimeMelbourne) w
    = (code, w2) ∧
    (code = 0 ∧ cache w2 = Some ∅ ∨ code = 1 ∧ cache w2 = cache w).
Proof.
  destruct (SingleQuery.getAllShowtimesViaGraphQL formatSession w) as [r w1]
    eqn:Hfetch.
  cbn. intros ->.
  destruct (single_query_fetch_keeps _ _ _ Hfetch) as (Hcache & _ & _).
  unfold runMain. rewrite (single_query_main_after_failure _ _ _ Hfetch).
  unfold bind. destruct (RollingMonth.changed _).
  - rewrite sendNotification_run.
    destruct (IFTTT_WEBHOOK_URL w1) as [[|c u]|].
    + eexists _, _. split; [done|]. by right.
    + destruct (replies w1 !! 0%nat) as [[|resp]|].
      * eexists _, _. split; [done|]. by right.
      * destruct (successStatus (status resp)).
        -- eexists _, _. split; [done|]. by left.
        -- eexists _, _. split; [done|]. by right.
      * eexists _, _. split; [done|]. by right.
    + eexists _, _. split; [done|]. by right.
  - eexists _, _. split; [done|]. by left.
Qed.

End single_query.

(** ** The message *)

Section message.
Import RollingMonth.
Variable formatDateTimeMelbourne : string → string.
Variable formatSessionMelbourne : string → string.

(** X27. The message of a change that is not a first run: its first value
    is the fallback text exactly when nothing was added and its second
    exactly when nothing was removed, and neither value is empty. *)
Theorem formatMessage_fallbacks changes a r timestampIso :
  isInitial changes = false →
  added changes = Some a →
  removed changes = Some r →
  let msg := formatMessage formatDateTimeMelbourne formatSessionMelbourne
               changes timestampIso in
  (value1 msg = "No sessions added" ↔ a = ∅) ∧
  (value2 msg = "No sessions removed" ↔ r = ∅) ∧
  value1 msg ≠ "" ∧ value2 msg ≠ "".
Proof.
  intros Hi Ha Hr. unfold formatMessage. rewrite Hi, Ha, Hr.
  change (default ∅ (Some ?m)) with m. cbv zeta. cbn [value1 value2].
  assert (∀ m : gmap string (list string), (0 < size m)%nat ↔ m ≠ ∅) as Hsize.
  { intros m. rewrite <- map_size_empty_iff. lia. }
  split_and!.
  - case_bool_decide as Hs.
    + apply Hsize in Hs. split; [done|]. by intros ->.
    + split; [|done]. intros _. destruct (decide (a = ∅)); [done|].
      exfalso. by apply Hs, Hsize.
  - case_bool_decide as Hs.
    + apply Hsize in Hs. split; [done|]. by intros ->.
    + split; [|done]. intros _. destruct (decide (r = ∅)); [done|].
      exfalso. by apply Hs, Hsize.
  - by case_bool_decide.
  - by case_bool_decide.
Qed.
End message.

(** ** The outcomes of a run *)

Section outcomes.
Variable getTime : string → option Z.
Variable toYMD : Z → string.
Variable toISOString : Z → string.
Variable formatDateTimeMelbourne : string → string.
Variable formatSessionMelbourne : string → string.
Variable formatSession : string → string.

Lemma settles_ret {A} (a : A) : settles (ret a).
Proof. by intros w c. Qed.

Lemma settles_throw {A} (e : Error) : settles (throw (A := A) e).
Proof. by intros w c. Qed.

Lemma settles_axios v req : settles (axios v req).
Proof.
  intros w c. unfold axios. destruct (head (replies w)) as [[|resp]|]; try done.
  by destruct (v (status resp)).
Qed.

Lemma settles_bind {A B} (m : M A) (k : A → M B) :
  settles m → (∀ a, settles (k a)) → settles (bind m k).
Proof.
  intros Hm Hk w c. unfold bind. specialize (Hm w).
  destruct (m w) as [[a|e|c'] w1]; cbn in *; [apply Hk|done|].
  by destruct (Hm c').
Qed.

Lemma settles_fetchWindow cookieHeader n cursor map :
  settles (RollingMonth.fetchWindow toYMD cookieHeader n cursor map).
Proof.
  revert cursor map. induction n as [|n IH]; intros cursor map.
  - apply settles_ret.
  - cbn [RollingMonth.fetchWindow]. apply settles_bind.
    + intros w c. rewrite fetchShowingsForDate_run. cbn.
      by destruct (failure _ _).
    + intros showings.
      destruct (Js.forOf RollingMonth.collect map showings);
        [apply IH|apply settles_throw].
Qed.

Lemma settles_getAllShowtimesRollingMonth :
  settles (RollingMonth.getAllShowtimesRollingMonth getTime toYMD).
Proof.
  unfold RollingMonth.getAllShowtimesRollingMonth.
  apply settles_bind.
  { unfold RollingMonth.primeCookies.
    apply settles_bind; [apply settles_axios|]. intros homeResp.
    apply settles_bind; [apply settles_axios|]. intros nowResp.
    apply settles_ret. }
  intros cookieHeader. apply settles_bind; [by intros w c|]. intros cursor.
  apply settles_bind; [apply settles_fetchWindow|]. intros map.
  apply settles_ret.
Qed.

Lemma settles_single_query_fetch :
  settles (SingleQuery.getAllShowtimesViaGraphQL formatSession).
Proof.
  unfold SingleQuery.getAllShowtimesViaGraphQL.
  apply settles_bind.
  { unfold SingleQuery.getCookieHeader.
    apply settles_bind; [apply settles_axios|]. intros resp. apply settles_ret. }
  intros cookieHeader. apply settles_bind; [apply settles_axios|]. intros resp.
  destruct (bool_decide (status resp = 403)); [apply settles_throw|].
  destruct (_ || _); [apply settles_throw|]. cbv zeta.
  destruct (bool_decide _); [apply settles_throw|].
  destruct (Js.forOf _ _ _); [apply settles_ret|apply settles_throw].
Qed.

Lemma notify_then_save (notify : bool) message (data : Schedule) w1 :
  ∃ code w2,
    runMain (bind (if notify then RollingMonth.sendNotification message
                   else ret ())
                  (λ _, saveCache data)) w1 = (code, w2) ∧
    (code = 0 ∧ cache w2 = Some data ∨ code = 1 ∧ cache w2 = cache w1).
Proof.
  unfold runMain, bind. destruct notify.
  - rewrite sendNotification_run.
    destruct (IFTTT_WEBHOOK_URL w1) as [[|c u]|].
    + eexists _, _. split; [done|]. by right.
    + destruct (replies w1 !! 0%nat) as [[|resp]|].
      * eexists _, _. split; [done|]. by right.
      * destruct (successStatus (status resp)).
        -- eexists _, _. split; [done|]. by left.
        -- eexists _, _. split; [done|]. by right.
      * eexists _, _. split; [done|]. by right.
    + eexists _, _. split; [done|]. by right.
  - eexists _, _. split; [done|]. by left.
Qed.

(** X28. Every run of the rolling-month monitor ends with code 0 or 1.  It
    ends with code 0 only when the fetch stage returned a schedule, which
    is then the cache; a run that ends with code 1 leaves the cache as it
    found it. *)
Theorem rolling_main_outcomes w :
  ∃ code w2,
    runMain (RollingMonth.main getTime toYMD toISOString formatDateTimeMelbourne
               formatSessionMelbourne) w = (code, w2) ∧
    (code = 0 ∧ (∃ newData,
                   (RollingMonth.getAllShowtimesRollingMonth getTime toYMD w).1
                   = Ok newData ∧ cache w2 = Some newData)
     ∨ code = 1 ∧ cache w2 = cache w).
Proof.
  destruct (RollingMonth.getAllShowtimesRollingMonth getTime toYMD w)
    as [[newData|e|c] w1] eqn:Hfetch.
  - destruct (fetch_keeps _ _ _ _ _ Hfetch) as (Hcache & _ & _).
    pose proof (rolling_main_after_fetch getTime toYMD toISOString
                  formatDateTimeMelbourne formatSessionMelbourne _ _ _ Hfetch)
      as Hmain.
    destruct (notify_then_save
                (RollingMonth.changed
                   (RollingMonth.detectChanges getTime (clock w1) (cache w) newData))
                (RollingMonth.formatMessage formatDateTimeMelbourne
                   formatSessionMelbourne
                   (RollingMonth.detectChanges getTime (clock w1) (cache w) newData)
                   (toISOString (clock w1)))
                newData w1) as (code & w2 & Hrun & Hout).
    exists code, w2. split; [unfold runMain in *; by rewrite Hmain|].
    destruct Hout as [[-> Hc]|[-> Hc]]; [left|right].
    + split; [done|]. by exists newData.
    + by rewrite Hc.
  - destruct (rolling_main_fetch_failure getTime toYMD toISOString
                formatDateTimeMelbourne formatSessionMelbourne w e w1 Hfetch)
      as (reqs & Hrun & Hc & _).
    eexists _, _. split; [exact Hrun|]. by right.
  - exfalso. apply (settles_getAllShowtimesRollingMonth w c). by rewrite Hfetch.
Qed.

Lemma single_query_main_after_fetch w newData w1 :
  SingleQuery.getAllShowtimesViaGraphQL formatSession w = (Ok newData, w1) →
  SingleQuery.main formatSession toISOString formatDateTimeMelbourne w
  = bind (if RollingMonth.changed (SingleQuery.detectChanges (cache w1) newData)
          then RollingMonth.sendNotification
                 (SingleQuery.formatMessage formatDateTimeMelbourne
                    (SingleQuery.detectChanges (cache w1) newData)
                    (toISOString (clock w1)))
          else ret ())
         (λ _, saveCache newData) w1.
Proof.
  intros Hfetch. unfold SingleQuery.main, bind at 1. unfold try_catch.
  rewrite Hfetch. unfold bind at 1, loadCache.
  unfold bind at 1. by destruct (RollingMonth.changed _).
Qed.

(** X29. Every run of [monitor.js] ends with code 0 or 1.  With code 0 the
    cache is the fetched schedule, or the empty schedule when the fetch
    failed; with code 1 the cache is as the run found it. *)
Theorem single_query_main_outcomes w :
  ∃ code w2,
    runMain (SingleQuery.main formatSession toISOString formatDateTimeMelbourne) w
    = (code, w2) ∧
    (code = 0 ∧
       ((∃ newData,
           (SingleQuery.getAllShowtimesViaGraphQL formatSession w).1 = Ok newData
           ∧ cache w2 = Some newData)
        ∨ (∃ e, (SingleQuery.getAllShowtimesViaGraphQL formatSession w).1 = Throw e)
          ∧ cache w2 = Some ∅)
     ∨ code = 1 ∧ cache w2 = cache w).
Proof.
  destruct (SingleQuery.getAllShowtimesViaGraphQL formatSession w)
    as [[newData|e|c] w1] eqn:Hfetch.
  - destruct (single_query_fetch_keeps formatSession _ _ _ Hfetch) as (Hcache & _ & _).
    pose proof (single_query_main_after_fetch _ _ _ Hfetch) as Hmain.
    destruct (notify_then_save
                (RollingMonth.changed (SingleQuery.detectChanges (cache w1) newData))
                (SingleQuery.formatMessage formatDateTimeMelbourne
                   (SingleQuery.detectChanges (cache w1) newData)
                   (toISOString (clock w1)))
                newData w1) as (code & w2 & Hrun & Hout).
    exists code, w2. split; [unfold runMain in *; by rewrite Hmain|].
    destruct Hout as [[-> Hc]|[-> Hc]]; [left|right].
    + split; [done|]. left. by exists newData.
    + by rewrite Hc.
  - destruct (single_query_fetch_keeps formatSession _ _ _ Hfetch) as (Hcache & _ & _).
    pose proof (single_query_main_after_failure formatSession toISOString
                  formatDateTimeMelbourne _ _ _ Hfetch) as Hmain.
    destruct (notify_then_save
                (RollingMonth.changed (SingleQuery.detectChanges (cache w1) ∅))
                (SingleQuery.formatMessage formatDateTimeMelbourne
                   (SingleQuery.detectChanges (cache w1) ∅)
                   (toISOString (clock w1)))
                ∅ w1) as (code & w2 & Hrun & Hout).
    exists code, w2. split; [unfold runMain in *; by rewrite Hmain|].
    destruct Hout as [[-> Hc]|[-> Hc]]; [left|right].
    + split; [done|]. right. split; [by exists e|done].
    + by rewrite Hc.
  - exfalso. apply (settles_single_query_fetch w c). by rewrite Hfetch.
Qed.
End outcomes.

(** ** Examples of the further properties *)

Section further_examples.
Import RollingMonth.

Lemma dedupeAndSort_idempotent_witness :
  let map : gmap string (list string) :=
    {[ "Movie A" := ["2025-01-12T10:00:00Z"; "2025-01-10T10:00:00Z";
                     "2025-01-12T10:00:00Z"] ]} in
  dedupeAndSort Iso.utcTime map
  = {[ "Movie A" := ["2025-01-10T10:00:00Z"; "2025-01-12T10:00:00Z"] ]} ∧
  dedupeAndSort Iso.utcTime (dedupeAndSort Iso.utcTime map)
  = dedupeAndSort Iso.utcTime map.
Proof.
  intros map. split; [by vm_compute|].
  apply (dedupeAndSort_idempotent Iso.utcTime map).
  intros title times i Hl Hi. unfold map in Hl.
  apply lookup_singleton_Some in Hl as [_ <-].
  repeat (apply elem_of_cons in Hi as [->|Hi]);
    [apply not_eq_None_Some; by vm_compute..|].
  by apply elem_of_nil in Hi.
Defined.

Lemma mergeSetCookies_ignores_witness :
  keyValue (hd "" (Js.split ";" "=abc; HttpOnly")) = None ∧
  mergeSetCookies "" (Some (["a=1; Path=/"] ++ "=abc; HttpOnly" :: ["b=2"]))
  = mergeSetCookies "" (Some (["a=1; Path=/"] ++ ["b=2"])).
Proof.
  split; [by vm_compute|].
  apply (proj2 (mergeSetCookies_ignores "" ["a=1; Path=/"] ["b=2"]
                  "=abc; HttpOnly")).
  by vm_compute.
Defined.

Lemma primeCookies_fails_witness :
  let w := worldOf [Answer (mkResponse 200 (Some ["a=1"]) noBody); NetworkError] in
  primeCookies w
  = (Throw TransportError,
     after [Get HOME_URL "";
            Get NOW_SHOWING_URL (mergeSetCookies "" (Some ["a=1"]))] w).
Proof.
  intros w.
  apply (proj2 (primeCookies_fails w) (mkResponse 200 (Some ["a=1"]) noBody)).
  - reflexivity.
  - right. reflexivity.
Defined.

Lemma fetch_stage_schedule_witness :
  ∃ schedule,
    (getAllShowtimesRollingMonth Iso.utcTime dayNumber (monthRun None None [])).1
    = Ok schedule ∧
    holds schedule "Movie A" "2025-01-10T10:00:00Z".
Proof.
  destruct (fetch_stage_schedule Iso.utcTime dayNumber (monthRun None None [])
              (mkResponse 200 (Some ["session=abc; Path=/"]) noBody)
              (mkResponse 200 None noBody) eq_refl eq_refl)
    as (schedule & Hrun & Hholds).
  - intros i Hi. rewrite replies_after_lookup.
    change (replies (monthRun None None []))
      with (pages ++ replicate 31 goodDay ++ []).
    rewrite (lookup_app_r pages) by (cbn; lia).
    rewrite lookup_app_l by (rewrite length_replicate; cbn; lia).
    rewrite lookup_replicate_2 by (cbn; lia). by vm_compute.
  - intros s title i Hs Hname _ _ _.
    match type of Hs with
    | _ ∈ ?records =>
        assert (records
                = replicate 31
                    (mkShowing (Some "Movie A") (Some "2025-01-10T10:00:00Z")))
          as Hrecords by (vm_compute; reflexivity)
    end.
    rewrite Hrecords in Hs. apply elem_of_replicate in Hs as [-> _].
    injection Hname as <-.
    apply (bool_decide_eq_false_1 (_ ∈ Js.ObjectPrototype)). by vm_compute.
  - exists schedule. split; [exact Hrun|]. apply Hholds.
    exists (mkShowing (Some "Movie A") (Some "2025-01-10T10:00:00Z")).
    split_and!; [vm_compute; left|by vm_compute..].
Defined.

Lemma fetch_stage_first_failure_witness :
  let w := mkWorld (pages ++ replicate 4 goodDay ++ [poisonedDay]) [] (Some listed)
             (Some webhook) jan9 in
  getAllShowtimesRollingMonth Iso.utcTime dayNumber w
  = (Throw TypeError,
     after ([Get HOME_URL ""; Get NOW_SHOWING_URL "session=abc"]
            ++ queries dayNumber "session=abc" jan9 5) w).
Proof.
  intros w.
  destruct (fetch_stage_first_failure Iso.utcTime dayNumber w
              (mkResponse 200 (Some ["session=abc; Path=/"]) noBody)
              (mkResponse 200 None noBody) 4%nat TypeError eq_refl eq_refl)
    as [Hrun _].
  - lia.
  - intros i Hi. destruct i as [|[|[|[|i]]]]; [by vm_compute..|lia].
  - by vm_compute.
  - rewrite Hrun. reflexivity.
Defined.

Lemma sendNotification_one_request_witness :
  let message := mkPayload "No sessions added" "No sessions removed" "now" in
  let w := mkWorld [Answer (mkResponse 200 None noBody)] [] None (Some webhook) 0 in
  ∃ r, sendNotification message w = (r, after [PostWebhook webhook message] w)
       ∧ r = Ok ().
Proof.
  intros message w.
  destruct (sendNotification_one_request message w webhook eq_refl)
    as (r & Hrun & Hok & _); [by vm_compute|].
  exists r. split; [exact Hrun|]. apply Hok.
  exists (mkResponse 200 None noBody). split; [reflexivity|]. cbn. lia.
Defined.

Lemma rolling_main_notification_failure_witness :
  ∃ w2,
    runMain (main Iso.utcTime dayNumber dayNumber (λ s, s) (λ s, s))
            (monthRun None None []) = (1, w2) ∧
    cache w2 = None.
Proof.
  apply (rolling_main_notification_failure Iso.utcTime dayNumber dayNumber
           (λ s, s) (λ s, s) (monthRun None None []) listed
           (getAllShowtimesRollingMonth Iso.utcTime dayNumber
              (monthRun None None [])).2).
  - vm_compute. reflexivity.
  - reflexivity.
  - left. reflexivity.
Defined.

Lemma rolling_main_unchanged_witness :
  ∃ w2,
    runMain (main Iso.utcTime dayNumber dayNumber (λ s, s) (λ s, s))
            (monthRun (Some listed) None []) = (0, w2) ∧
    cache w2 = Some listed ∧
    sent w2 = sent (getAllShowtimesRollingMonth Iso.utcTime dayNumber
                      (monthRun (Some listed) None [])).2.
Proof.
  apply (rolling_main_unchanged Iso.utcTime dayNumber dayNumber
           (λ s, s) (λ s, s) (monthRun (Some listed) None []) listed listed).
  - vm_compute. reflexivity.
  - reflexivity.
  - intros title i _. reflexivity.
Defined.

Lemma rolling_main_notifies_witness :
  let w := monthRun (Some ∅) (Some webhook)
             [Answer (mkResponse 200 None noBody)] in
  ∃ w2 message,
    runMain (main Iso.utcTime dayNumber dayNumber (λ s, s) (λ s, s)) w = (0, w2) ∧
    cache w2 = Some listed ∧
    sent w2 = sent (getAllShowtimesRollingMonth Iso.utcTime dayNumber w).2
              ++ [PostWebhook webhook message] ∧
    value2 message = "No sessions removed".
Proof.
  intros w.
  destruct (rolling_main_notifies Iso.utcTime dayNumber dayNumber
              (λ s, s) (λ s, s) w listed
              (getAllShowtimesRollingMonth Iso.utcTime dayNumber w).2 webhook)
    as (w2 & message & Hrun & Hcache & Hsent & Hmessage).
  - vm_compute. reflexivity.
  - vm_compute. reflexivity.
  - reflexivity.
  - by vm_compute.
  - exists (mkResponse 200 None noBody). split; [vm_compute; reflexivity|].
    cbn. lia.
  - exists w2, message. split_and!; [exact Hrun|exact Hcache|exact Hsent|].
    rewrite Hmessage. vm_compute. reflexivity.
Defined.

Lemma rolling_main_first_run_witness :
  let w := monthRun None (Some webhook) [Answer (mkResponse 500 None noBody)] in
  ∃ code w2,
    runMain (main Iso.utcTime dayNumber dayNumber (λ s, s) (λ s, s)) w
    = (code, w2) ∧
    (code = 0 ∧ cache w2 = Some listed ∧
       (∃ url message,
          sent w2 = sent (getAllShowtimesRollingMonth Iso.utcTime dayNumber w).2
                    ++ [PostWebhook url message])
     ∨ code = 1 ∧ cache w2 = None).
Proof.
  intros w.
  apply (rolling_main_first_run Iso.utcTime dayNumber dayNumber
           (λ s, s) (λ s, s) w listed
           (getAllShowtimesRollingMonth Iso.utcTime dayNumber w).2).
  - vm_compute. reflexivity.
  - reflexivity.
Defined.

Lemma single_query_schedule_witness :
  (∃ schedule,
     (SingleQuery.getAllShowtimesViaGraphQL (λ s, s) listingRun).1 = Ok schedule ∧
     holds schedule "Movie A" "2025-12-03T08:00:00Z") ∧
  (SingleQuery.getAllShowtimesViaGraphQL (λ s, s) poisonedListing).1
  = Throw TypeError.
Proof.
  split.
  - destruct (proj1 (single_query_schedule (λ s, s) listingRun
                (mkResponse 200 (Some ["session=abc; Path=/"]) noBody)
                (mkResponse 200 None
                   (mkBody None None
                      (Some [mkShowing (Some "Movie A") (Some "2025-12-03T08:00:00Z");
                             mkShowing (Some "Movie A") (Some "2025-12-23T08:00:00Z")])))
                eq_refl eq_refl ltac:(cbn; lia) eq_refl))
      as (schedule & Hrun & Hholds).
    + intros s title i Hs Hname _ _ _.
      assert (Js.trim <$> movie_name s = Some "Movie A") as Htitle.
      { repeat (apply elem_of_cons in Hs as [->|Hs]); [by vm_compute..|].
        by apply elem_of_nil in Hs. }
      rewrite Htitle in Hname. injection Hname as <-.
      apply (bool_decide_eq_false_1 (_ ∈ Js.ObjectPrototype)). by vm_compute.
    + exists schedule. split; [exact Hrun|]. apply Hholds.
      exists (mkShowing (Some "Movie A") (Some "2025-12-03T08:00:00Z")),
        "2025-12-03T08:00:00Z".
      split_and!; [vm_compute; left|by vm_compute..].
  - apply (proj2 (single_query_schedule (λ s, s) poisonedListing
                (mkResponse 200 (Some ["session=abc; Path=/"]) noBody)
                (mkResponse 200 None
                   (mkBody None None
                      (Some [mkShowing (Some "Movie A") (Some "2025-12-03T08:00:00Z");
                             mkShowing (Some " toString ") (Some "2025-12-23T08:00:00Z")])))
                eq_refl eq_refl ltac:(cbn; lia) eq_refl)).
    exists (mkShowing (Some " toString ") (Some "2025-12-23T08:00:00Z")),
      "toString", "2025-12-23T08:00:00Z".
    split_and!; [vm_compute; right; left|by vm_compute..|].
    apply (bool_decide_eq_true_1 (_ ∈ Js.ObjectPrototype)). by vm_compute.
Defined.

Lemma single_query_lists_ascending_witness :
  NoDup ["10 January 9:00 pm"; "9 January 9:00 pm"] ∧
  StronglySorted codeLt ["10 January 9:00 pm"; "9 January 9:00 pm"].
Proof.
  apply (single_query_lists_ascending
           {[ "Movie A" := ["9 January 9:00 pm"; "10 January 9:00 pm";
                            "9 January 9:00 pm"] ]}
           "Movie A").
  by vm_compute.
Defined.

Lemma single_query_main_fetch_failure_witness :
  ∃ code w2,
    runMain (SingleQuery.main (λ s, s) dayNumber (λ s, s)) blockedRun = (code, w2) ∧
    (code = 0 ∧ cache w2 = Some ∅ ∨ code = 1 ∧ cache w2 = cache blockedRun).
Proof.
  apply (single_query_main_fetch_failure (λ s, s) dayNumber (λ s, s) blockedRun
           GraphQLBlocked).
  vm_compute. reflexivity.
Defined.


Lemma formatMessage_fallbacks_witness :
  let changes := mkChanges true false None (Some listed) (Some ∅) in
  let msg := formatMessage (λ s, s) (λ s, s) changes "2025-01-09T00:00:00.000Z" in
  (value1 msg = "No sessions added" ↔ listed = ∅) ∧
  (value2 msg = "No sessions removed" ↔ (∅ : Schedule) = ∅) ∧
  value1 msg ≠ "" ∧ value2 msg ≠ "".
Proof.
  intros changes.
  exact (formatMessage_fallbacks (λ s, s) (λ s, s) changes listed ∅
           "2025-01-09T00:00:00.000Z" eq_refl eq_refl eq_refl).
Defined.
End further_examples.
